(** * History ledger and content-addressed asset store (src/lib/r2.ts)
      and the image proxy route (src/app/api/history/image/route.ts)

    A shallow embedding of the storage layer of the image generator:
    identity derivation, storage keys, the deduplicating input store, the
    per-user history ledger kept as one JSON document, and the GET handler
    that proxies stored images.

    Conventions of the embedding.
    - A JavaScript string is a [string]; each [ascii] is one UTF-16 code unit
      below 256, so the strings of the model are exactly the JavaScript
      strings over the Latin-1 code points.
    - A [Buffer] / [Uint8Array] is a [list byte].
    - The timestamp of a history item is an integer; [JSON.parse] is
      modelled on integers up to [Number.MAX_SAFE_INTEGER], where a
      JavaScript number is exact.
    - The S3 client is a bucket ([gmap] from keys to stored objects) together
      with the list of failures the backend is going to answer with and the
      log of the commands sent so far.
    - [async] functions are computations in the monad [M]: they thread the
      world and end in a value, in a thrown error, or outside the modelled
      fragment of JavaScript ([Stuck]). *)

From Stdlib Require Import ZArith NArith List Bool Lia.
From Stdlib Require Import DecimalFacts DecimalN.
From Stdlib.Strings Require Import String Ascii Byte.
From stdpp Require Import base option gmap strings list.

Local Open Scope N_scope.
Local Open Scope stdpp_scope.

(** String concatenation computes on the constructors of its first
    argument. *)
#[local] Arguments String.append !_ _ : simpl nomatch.

(* ===================================================================== *)
(** ** Strings, code units and UTF-8                                      *)
(* ===================================================================== *)

Module Text.

Definition code (c : ascii) : N := N_of_ascii c.

(** [String.prototype.toLowerCase] on one Latin-1 code unit: [A]-[Z] and
    the capital letters U+00C0-U+00DE (U+00D7, the multiplication sign,
    is not a letter) move up by 32. *)
Definition lower_ascii (c : ascii) : ascii :=
  let n := code c in
  if ((65 <=? n) && (n <=? 90))
     || ((192 <=? n) && (n <=? 222) && negb (n =? 215))
  then ascii_of_N (n + 32) else c.

Fixpoint toLowerCase (s : string) : string :=
  match s with
  | EmptyString => EmptyString
  | String c s' => String (lower_ascii c) (toLowerCase s')
  end.

(** Case folding of the [i] flag of a regular expression without the [u]
    flag: a code unit above 127 never folds onto an ASCII one, so against
    an ASCII pattern only [A]-[Z] fold. *)
Definition fold_ascii (c : ascii) : ascii :=
  let n := code c in
  if (65 <=? n) && (n <=? 90) then ascii_of_N (n + 32) else c.

Fixpoint fold_case (s : string) : string :=
  match s with
  | EmptyString => EmptyString
  | String c s' => String (fold_ascii c) (fold_case s')
  end.

(** [strip p s]: the rest of [s] after the prefix [p], compared exactly
    ([ci = false]) or modulo the case of ASCII letters ([ci = true]);
    [p] is given in lower case. *)
Fixpoint strip (ci : bool) (p s : string) : option string :=
  match p, s with
  | EmptyString, _ => Some s
  | String a p', String b s' =>
      if Ascii.eqb a (if ci then fold_ascii b else b)
      then strip ci p' s' else None
  | String _ _, EmptyString => None
  end.

(** The longest prefix of code units satisfying [f], and what follows. *)
Fixpoint span (f : ascii -> bool) (s : string) : string * string :=
  match s with
  | EmptyString => (EmptyString, EmptyString)
  | String c s' =>
      if f c
      then let '(a, b) := span f s' in (String c a, b)
      else (EmptyString, s)
  end.

(** The lower-case hexadecimal digit of [n mod 16]. *)
Definition hex_digit (n : N) : ascii :=
  nth (N.to_nat (n mod 16))
      (list_ascii_of_string "0123456789abcdef") "0"%char.

Definition isEmpty (s : string) : bool :=
  match s with EmptyString => true | _ => false end.

(** [s.split('.').pop()]: what follows the last dot; all of [s] when it
    has no dot. [acc] is the piece being read. *)
Fixpoint last_piece (acc s : string) : string :=
  match s with
  | EmptyString => acc
  | String c s' =>
      if Ascii.eqb c "."%char
      then last_piece EmptyString s'
      else last_piece (acc +:+ String c EmptyString) s'
  end.

(** UTF-8 of a string of Latin-1 code units: one byte below 128, two
    bytes from 128 on. *)
Definition utf8_unit (c : ascii) : list byte :=
  let n := code c in
  if n <? 128 then [byte_of_ascii c]
  else [byte_of_ascii (ascii_of_N (192 + n / 64));
        byte_of_ascii (ascii_of_N (128 + n mod 64))].

Fixpoint utf8_encode (s : string) : list byte :=
  match s with
  | EmptyString => []
  | String c s' => utf8_unit c ++ utf8_encode s'
  end.

(** The decoder gives [None] on bytes that are not the UTF-8 of a Latin-1
    string (other code points, and malformed input, which a JavaScript
    decoder turns into U+FFFD). *)
Fixpoint utf8_decode (bs : list byte) : option string :=
  match bs with
  | [] => Some EmptyString
  | b :: bs' =>
      let n := Byte.to_N b in
      if n <? 128 then
        option_map (String (ascii_of_byte b)) (utf8_decode bs')
      else if (n =? 194) || (n =? 195) then
        match bs' with
        | b2 :: bs'' =>
            let m := Byte.to_N b2 in
            if (128 <=? m) && (m <? 192)
            then option_map (String (ascii_of_N ((n - 192) * 64 + (m - 128))))
                            (utf8_decode bs'')
            else None
        | [] => None
        end
      else None
  end.

End Text.

(* ===================================================================== *)
(** ** SHA-256 ([createHash('sha256')] of node:crypto), FIPS 180-4        *)
(* ===================================================================== *)

Module Sha256.

Definition mask32 (x : N) : N := x mod 4294967296.
Definition add32 (x y : N) : N := mask32 (x + y).
Definition not32 (x : N) : N := N.lxor (mask32 x) 4294967295.
Definition rotr (n x : N) : N :=
  N.lor (N.shiftr x n) (mask32 (N.shiftl x (32 - n))).

Definition Ch (x y z : N) : N := N.lxor (N.land x y) (N.land (not32 x) z).
Definition Maj (x y z : N) : N :=
  N.lxor (N.lxor (N.land x y) (N.land x z)) (N.land y z).
Definition Sigma0 (x : N) : N :=
  N.lxor (N.lxor (rotr 2 x) (rotr 13 x)) (rotr 22 x).
Definition Sigma1 (x : N) : N :=
  N.lxor (N.lxor (rotr 6 x) (rotr 11 x)) (rotr 25 x).
Definition sigma0 (x : N) : N :=
  N.lxor (N.lxor (rotr 7 x) (rotr 18 x)) (N.shiftr x 3).
Definition sigma1 (x : N) : N :=
  N.lxor (N.lxor (rotr 17 x) (rotr 19 x)) (N.shiftr x 10).

(** The constants are the first 32 bits of the fractional parts of the
    cube roots ([K]) and of the square roots ([H0]) of the first primes. *)
Definition is_prime (n : nat) : bool :=
  forallb (fun d => negb (n mod d =? 0)%nat) (seq 2 (n - 2)).

Definition primes : list N :=
  map N.of_nat (List.filter is_prime (seq 2 310)).

(** The integer part of the cube root of a number below 2^108, bit by
    bit from the top. *)
Definition cbrt (n : N) : N :=
  fold_left (fun r b => let r' := r + 2 ^ b in
                        if r' * r' * r' <=? n then r' else r)
            (map N.of_nat (rev (seq 0 36))) 0.

Definition K : list N :=
  Eval vm_compute in
    map (fun p => mask32 (cbrt (p * 2 ^ 96))) (firstn 64 primes).

Definition initial : list N :=
  Eval vm_compute in
    map (fun p => mask32 (N.sqrt (p * 2 ^ 64))) (firstn 8 primes).

(** The eight working variables, also the chaining value. *)
Record state := State
  { ha : N; hb : N; hc : N; hd : N; he : N; hf : N; hg : N; hh : N }.

Definition H0 : state :=
  State (nth 0 initial 0) (nth 1 initial 0) (nth 2 initial 0)
        (nth 3 initial 0) (nth 4 initial 0) (nth 5 initial 0)
        (nth 6 initial 0) (nth 7 initial 0).

(** Padding: the bit 1, zeros up to 56 modulo 64 bytes, then the length
    in bits as a 64-bit big-endian number. *)
Definition be_bytes (k : nat) (x : N) : list N :=
  map (fun i => (N.shiftr x (8 * N.of_nat i)) mod 256) (rev (seq 0 k)).

Definition pad (msg : list N) : list N :=
  let len := length msg in
  let zeros := ((64 + 55 - len mod 64) mod 64)%nat in
  msg ++ [128] ++ repeat 0 zeros ++ be_bytes 8 (8 * N.of_nat len).

Fixpoint be_words (k : nat) (bs : list N) : list N :=
  match k, bs with
  | S k', b3 :: b2 :: b1 :: b0 :: bs' =>
      (b3 * 16777216 + b2 * 65536 + b1 * 256 + b0) :: be_words k' bs'
  | _, _ => []
  end.

(** The message schedule, newest word first: [extend] adds the next word
    from the ones 2, 7, 15 and 16 places back. *)
Definition next_word (ws : list N) : N :=
  add32 (add32 (sigma1 (nth 1 ws 0)) (nth 6 ws 0))
        (add32 (sigma0 (nth 14 ws 0)) (nth 15 ws 0)).

Fixpoint extend (k : nat) (ws : list N) : list N :=
  match k with
  | O => ws
  | S k' => extend k' (next_word ws :: ws)
  end.

Definition schedule (block : list N) : list N :=
  rev (extend 48 (rev (be_words 16 block))).

Definition round (s : state) (kw : N * N) : state :=
  let t1 := add32 (add32 (add32 (hh s) (Sigma1 (he s)))
                         (add32 (Ch (he s) (hf s) (hg s)) (fst kw)))
                  (snd kw) in
  let t2 := add32 (Sigma0 (ha s)) (Maj (ha s) (hb s) (hc s)) in
  State (add32 t1 t2) (ha s) (hb s) (hc s)
        (add32 (hd s) t1) (he s) (hf s) (hg s).

Definition compress (s : state) (block : list N) : state :=
  let r := fold_left round (combine K (schedule block)) s in
  State (add32 (ha s) (ha r)) (add32 (hb s) (hb r))
        (add32 (hc s) (hc r)) (add32 (hd s) (hd r))
        (add32 (he s) (he r)) (add32 (hf s) (hf r))
        (add32 (hg s) (hg r)) (add32 (hh s) (hh r)).

Fixpoint blocks (k : nat) (s : state) (bs : list N) : state :=
  match k with
  | O => s
  | S k' => blocks k' (compress s (firstn 64 bs)) (skipn 64 bs)
  end.

Definition hash (msg : list byte) : state :=
  let padded := pad (map Byte.to_N msg) in
  blocks (length padded / 64) H0 padded.

(** [digest('hex')]: eight words of eight lower-case hex digits. *)
Definition hex_digit := Text.hex_digit.

Definition hex8 (w : N) (rest : string) : string :=
  String (hex_digit (N.shiftr w 28)) (String (hex_digit (N.shiftr w 24))
 (String (hex_digit (N.shiftr w 20)) (String (hex_digit (N.shiftr w 16))
 (String (hex_digit (N.shiftr w 12)) (String (hex_digit (N.shiftr w 8))
 (String (hex_digit (N.shiftr w 4)) (String (hex_digit w) rest))))))).

Definition hex (s : state) : string :=
  hex8 (ha s) (hex8 (hb s) (hex8 (hc s) (hex8 (hd s)
 (hex8 (he s) (hex8 (hf s) (hex8 (hg s) (hex8 (hh s) EmptyString))))))).

Definition digest_hex (msg : list byte) : string := hex (hash msg).

End Sha256.

(* ===================================================================== *)
(** ** JSON values, [JSON.stringify(v, null, 2)] and [JSON.parse]         *)
(* ===================================================================== *)

Module Json.

#[warnings="-register-all"]
Inductive value : Type :=
| Null
| Bool (b : bool)
| Number (n : Z)
| Str (s : string)
| Array (vs : list value)
| Object (ms : list (string * value)).

Definition dquote : ascii := "034"%char.
Definition backslash : ascii := "092"%char.
Definition LF : ascii := "010"%char.

(** The largest integer a JavaScript number holds exactly,
    [Number.MAX_SAFE_INTEGER]. *)
Definition MAX_SAFE_INTEGER : Z := 9007199254740991.

(** *** Writing.  Every writer takes the text [k] that follows. *)

Fixpoint spaces (n : nat) (k : string) : string :=
  match n with
  | O => k
  | S n' => String " " (spaces n' k)
  end.

Definition newline (ind : nat) (k : string) : string :=
  String LF (spaces ind k).

(** QuoteJSONString: the two-character escapes, [\u00xx] for the other
    control characters, everything else as it is. *)
Definition escape (c : ascii) (k : string) : string :=
  let n := Text.code c in
  if n =? 8 then String backslash (String "b" k)
  else if n =? 9 then String backslash (String "t" k)
  else if n =? 10 then String backslash (String "n" k)
  else if n =? 12 then String backslash (String "f" k)
  else if n =? 13 then String backslash (String "r" k)
  else if n =? 34 then String backslash (String dquote k)
  else if n =? 92 then String backslash (String backslash k)
  else if n <? 32 then
    String backslash (String "u" (String "0" (String "0"
      (String (Text.hex_digit (n / 16)) (String (Text.hex_digit n) k)))))
  else String c k.

Fixpoint quote_body (s : string) (k : string) : string :=
  match s with
  | EmptyString => k
  | String c s' => escape c (quote_body s' k)
  end.

Definition quote (s : string) (k : string) : string :=
  String dquote (quote_body s (String dquote k)).

Fixpoint digits (d : Decimal.uint) (k : string) : string :=
  match d with
  | Decimal.Nil => k
  | Decimal.D0 d' => String "0" (digits d' k)
  | Decimal.D1 d' => String "1" (digits d' k)
  | Decimal.D2 d' => String "2" (digits d' k)
  | Decimal.D3 d' => String "3" (digits d' k)
  | Decimal.D4 d' => String "4" (digits d' k)
  | Decimal.D5 d' => String "5" (digits d' k)
  | Decimal.D6 d' => String "6" (digits d' k)
  | Decimal.D7 d' => String "7" (digits d' k)
  | Decimal.D8 d' => String "8" (digits d' k)
  | Decimal.D9 d' => String "9" (digits d' k)
  end.

(** Number::toString of an integer below 10^21 in magnitude. *)
Definition number (n : Z) (k : string) : string :=
  match n with
  | Zneg p => String "-" (digits (N.to_uint (Npos p)) k)
  | _ => digits (N.to_uint (Z.to_N n)) k
  end.

Section Separated.
Context {A : Type} (item : A -> string -> string).
Context (ind : nat) (close : ascii) (k : string).

(** The items after the first one, each after a comma and on a line of
    its own, and the closing bracket on the last line. *)
Fixpoint rest_items (l : list A) : string :=
  match l with
  | [] => newline ind (String close k)
  | x :: l' => String "," (newline (S (S ind)) (item x (rest_items l')))
  end.
End Separated.

Definition member (wr : value -> string -> string)
    (m : string * value) (k : string) : string :=
  quote (fst m) (String ":" (String " " (wr (snd m) k))).

(** SerializeJSONProperty with the gap of two spaces; [ind] is the
    current indentation. *)
Fixpoint write (ind : nat) (v : value) (k : string) {struct v} : string :=
  match v with
  | Null => "null" +:+ k
  | Bool true => "true" +:+ k
  | Bool false => "false" +:+ k
  | Number n => number n k
  | Str s => quote s k
  | Array [] => "[]" +:+ k
  | Array (v1 :: vs) =>
      String "[" (newline (S (S ind)) (write (S (S ind)) v1
        (rest_items (write (S (S ind))) ind "]" k vs)))
  | Object [] => "{}" +:+ k
  | Object (m1 :: ms) =>
      String "{" (newline (S (S ind)) (member (write (S (S ind))) m1
        (rest_items (member (write (S (S ind)))) ind "}" k ms)))
  end.

Definition stringify (v : value) : string := write 0 v EmptyString.

(** *** Reading. *)

(** A reader ends with a value and the text left, with a [SyntaxError],
    or on JSON text outside the model ([Unsupported]): a fraction or an
    exponent, an integer beyond [MAX_SAFE_INTEGER], an escape of a code
    unit above 255. *)
Inductive result (A : Type) : Type :=
| Ok (a : A) (rest : string)
| SyntaxError
| Unsupported.
Arguments Ok {A} a rest.
Arguments SyntaxError {A}.
Arguments Unsupported {A}.

Definition bind {A B} (r : result A) (f : A -> string -> result B)
  : result B :=
  match r with
  | Ok a rest => f a rest
  | SyntaxError => SyntaxError
  | Unsupported => Unsupported
  end.

Definition is_ws (c : ascii) : bool :=
  let n := Text.code c in (n =? 32) || (n =? 9) || (n =? 10) || (n =? 13).

Fixpoint skip_ws (s : string) : string :=
  match s with
  | EmptyString => EmptyString
  | String c s' => if is_ws c then skip_ws s' else s
  end.

Definition hex_value (c : ascii) : option N :=
  let n := Text.code c in
  if (48 <=? n) && (n <=? 57) then Some (n - 48)
  else if (97 <=? n) && (n <=? 102) then Some (n - 87)
  else if (65 <=? n) && (n <=? 70) then Some (n - 55)
  else None.

Definition unescape (e : ascii) : option ascii :=
  let n := Text.code e in
  if n =? 98 then Some (ascii_of_N 8)
  else if n =? 116 then Some (ascii_of_N 9)
  else if n =? 110 then Some (ascii_of_N 10)
  else if n =? 102 then Some (ascii_of_N 12)
  else if n =? 114 then Some (ascii_of_N 13)
  else if n =? 34 then Some dquote
  else if n =? 92 then Some backslash
  else if n =? 47 then Some "/"%char
  else None.

Definition push (c : ascii) (r : result string) : result string :=
  bind r (fun s rest => Ok (String c s) rest).

(** The characters of a string literal, after its opening quote. *)
Fixpoint chars (s : string) : result string :=
  match s with
  | EmptyString => SyntaxError
  | String c s' =>
      if Ascii.eqb c dquote then Ok EmptyString s'
      else if Ascii.eqb c backslash then
        match s' with
        | EmptyString => SyntaxError
        | String e s'' =>
            if Ascii.eqb e "u" then
              match s'' with
              | String h1 (String h2 (String h3 (String h4 r))) =>
                  match hex_value h1, hex_value h2,
                        hex_value h3, hex_value h4 with
                  | Some a, Some b, Some c', Some d =>
                      let n := ((a * 16 + b) * 16 + c') * 16 + d in
                      if n <? 256 then push (ascii_of_N n) (chars r)
                      else Unsupported
                  | _, _, _, _ => SyntaxError
                  end
              | _ => SyntaxError
              end
            else
              match unescape e with
              | Some c' => push c' (chars s'')
              | None => SyntaxError
              end
        end
      else if Text.code c <? 32 then SyntaxError
      else push c (chars s')
  end.

Definition digit_of (c : ascii) : option (Decimal.uint -> Decimal.uint) :=
  let n := Text.code c in
  if n =? 48 then Some Decimal.D0 else if n =? 49 then Some Decimal.D1
  else if n =? 50 then Some Decimal.D2 else if n =? 51 then Some Decimal.D3
  else if n =? 52 then Some Decimal.D4 else if n =? 53 then Some Decimal.D5
  else if n =? 54 then Some Decimal.D6 else if n =? 55 then Some Decimal.D7
  else if n =? 56 then Some Decimal.D8 else if n =? 57 then Some Decimal.D9
  else None.

Fixpoint read_digits (s : string) : Decimal.uint * string :=
  match s with
  | EmptyString => (Decimal.Nil, EmptyString)
  | String c s' =>
      match digit_of c with
      | Some D => let '(d, r) := read_digits s' in (D d, r)
      | None => (Decimal.Nil, s)
      end
  end.

(** What may not follow the integer part in the model: the start of a
    fraction or of an exponent. *)
Definition starts_fraction (s : string) : bool :=
  match s with
  | String c _ =>
      let n := Text.code c in (n =? 46) || (n =? 101) || (n =? 69)
  | EmptyString => false
  end.

Definition magnitude (neg : bool) (d : Decimal.uint) (r : string)
  : result value :=
  if starts_fraction r then Unsupported
  else
    let n := Z.of_N (N.of_uint d) in
    if (n <=? MAX_SAFE_INTEGER)%Z
    then Ok (Number (if neg then - n else n)%Z) r
    else Unsupported.

(** An optional minus sign, then a single zero or a digit from 1 to 9
    followed by digits; a digit after a leading zero is a [SyntaxError]
    as in JavaScript. *)
Definition unsigned (neg : bool) (s : string) : result value :=
  let '(d, r) := read_digits s in
  match d with
  | Decimal.Nil => SyntaxError
  | Decimal.D0 Decimal.Nil => magnitude neg d r
  | Decimal.D0 _ => SyntaxError
  | _ => magnitude neg d r
  end.

Definition literal (word : string) (v : value) (s : string)
  : result value :=
  match Text.strip false word s with
  | Some r => Ok v r
  | None => SyntaxError
  end.

(** The elements of a non-empty array after its bracket; [p] reads one
    value and [n] bounds the number of elements. *)
Fixpoint elements (p : string -> result value) (n : nat) (s : string)
  : result (list value) :=
  match n with
  | O => Unsupported
  | S n' =>
      bind (p s) (fun v r =>
        match skip_ws r with
        | String c r' =>
            if Ascii.eqb c "," then
              bind (elements p n' (skip_ws r'))
                   (fun vs r'' => Ok (v :: vs) r'')
            else if Ascii.eqb c "]" then Ok [v] r'
            else SyntaxError
        | EmptyString => SyntaxError
        end)
  end.

Fixpoint members (p : string -> result value) (n : nat) (s : string)
  : result (list (string * value)) :=
  match n with
  | O => Unsupported
  | S n' =>
      match s with
      | String q s1 =>
          if Ascii.eqb q dquote then
            bind (chars s1) (fun key r =>
              match skip_ws r with
              | String c r1 =>
                  if Ascii.eqb c ":" then
                    bind (p (skip_ws r1)) (fun v r2 =>
                      match skip_ws r2 with
                      | String c' r3 =>
                          if Ascii.eqb c' "," then
                            bind (members p n' (skip_ws r3))
                                 (fun ms r4 => Ok ((key, v) :: ms) r4)
                          else if Ascii.eqb c' "}" then Ok [(key, v)] r3
                          else SyntaxError
                      | EmptyString => SyntaxError
                      end)
                  else SyntaxError
              | EmptyString => SyntaxError
              end)
          else SyntaxError
      | EmptyString => SyntaxError
      end
  end.

(** One value, from its first character on. [fuel] bounds the nesting
    and the number of elements; [parse] gives more than any text needs. *)
Fixpoint parse_value (fuel : nat) (s : string) : result value :=
  match fuel with
  | O => Unsupported
  | S fuel' =>
      match s with
      | EmptyString => SyntaxError
      | String c s' =>
          if Ascii.eqb c "n" then literal "null" Null s
          else if Ascii.eqb c "t" then literal "true" (Bool true) s
          else if Ascii.eqb c "f" then literal "false" (Bool false) s
          else if Ascii.eqb c dquote then
            bind (chars s') (fun x r => Ok (Str x) r)
          else if Ascii.eqb c "[" then
            match skip_ws s' with
            | String c' r =>
                if Ascii.eqb c' "]" then Ok (Array []) r
                else bind (elements (parse_value fuel') fuel' (skip_ws s'))
                          (fun vs r' => Ok (Array vs) r')
            | EmptyString => SyntaxError
            end
          else if Ascii.eqb c "{" then
            match skip_ws s' with
            | String c' r =>
                if Ascii.eqb c' "}" then Ok (Object []) r
                else bind (members (parse_value fuel') fuel' (skip_ws s'))
                          (fun ms r' => Ok (Object ms) r')
            | EmptyString => SyntaxError
            end
          else if Ascii.eqb c "-" then unsigned true s'
          else unsigned false s
      end
  end.

(** [JSON.parse]: one value between white space, and nothing else. *)
Definition parse (s : string) : result value :=
  bind (parse_value (S (String.length s)) (skip_ws s)) (fun v r =>
    if Text.isEmpty (skip_ws r) then Ok v EmptyString else SyntaxError).

End Json.

(* ===================================================================== *)
(** ** Text replacement and URI components                                *)
(* ===================================================================== *)

Module Web.

(** [s.replace(p, r)] for a string pattern [p]: the first occurrence of
    [p], from the left, is replaced ([r] has no dollar sign, which would
    be a replacement pattern). *)
Fixpoint replace_first (p r s : string) : string :=
  match Text.strip false p s with
  | Some rest => r +:+ rest
  | None =>
      match s with
      | EmptyString => EmptyString
      | String c s' => String c (replace_first p r s')
      end
  end.

(** The upper-case hexadecimal digit of [n mod 16]. *)
Definition HEX (n : N) : ascii :=
  nth (N.to_nat (n mod 16))
      (list_ascii_of_string "0123456789ABCDEF") "0"%char.

(** The characters [encodeURIComponent] leaves as they are: letters,
    digits and [- _ . ! ~ * ' ( )]. *)
Definition unreserved (c : ascii) : bool :=
  let n := Text.code c in
  ((65 <=? n) && (n <=? 90)) || ((97 <=? n) && (n <=? 122))
  || ((48 <=? n) && (n <=? 57))
  || (n =? 45) || (n =? 95) || (n =? 46) || (n =? 33) || (n =? 126)
  || (n =? 42) || (n =? 39) || (n =? 40) || (n =? 41).

Definition percent (b : byte) (k : string) : string :=
  let n := Byte.to_N b in
  String "%" (String (HEX (n / 16)) (String (HEX n) k)).

(** One code unit, followed by [k]: itself, or its UTF-8 bytes in percent
    notation. *)
Definition encode_unit (c : ascii) (k : string) : string :=
  if unreserved c then String c k
  else fold_right percent k (Text.utf8_unit c).

Fixpoint encodeURIComponent (s : string) : string :=
  match s with
  | EmptyString => EmptyString
  | String c s' => encode_unit c (encodeURIComponent s')
  end.

End Web.

(* ===================================================================== *)
(** ** The S3 client and the monad of asynchronous computations           *)
(* ===================================================================== *)

(** A thrown JavaScript error, as far as the code looks at it: its
    [name]. *)
Record Error := { name : string }.

(** The commands of @aws-sdk/client-s3 that r2.ts sends (the bucket is
    always [R2_BUCKET_NAME]). A string body travels as its UTF-8. *)
Inductive Command :=
| PutObjectCommand (Key : string) (Body : list byte) (ContentType : string)
| GetObjectCommand (Key : string)
| DeleteObjectCommand (Key : string)
| HeadObjectCommand (Key : string).

Record StoredObject := { content : list byte; contentType : string }.

(** The output of a command; only GetObject carries a [Body]. *)
Record Output := { Body : option (list byte) }.

(** The world an [async] function runs in: the objects of the bucket, for
    each coming request whether the backend fails it ([Some error]: the
    request has no effect and [send] throws) and the commands sent so far,
    oldest first. Past the end of [faults] every request is served. *)
Record World := {
  bucket : gmap string StoredObject;
  faults : list (option Error);
  sent : list Command
}.

Inductive Outcome (A : Type) : Type :=
| Ret (a : A) (w : World)      (* the promise resolves *)
| Throw (e : Error) (w : World) (* the promise rejects *)
| Stuck.                        (* outside the modelled fragment *)
Arguments Ret {A} a w.
Arguments Throw {A} e w.
Arguments Stuck {A}.

Definition M (A : Type) : Type := World -> Outcome A.

Definition ret {A} (a : A) : M A := fun w => Ret a w.
Definition throw {A} (e : Error) : M A := fun w => Throw e w.
Definition stuck {A} : M A := fun _ => Stuck.

Definition bind {A B} (m : M A) (f : A -> M B) : M B :=
  fun w =>
    match m w with
    | Ret a w' => f a w'
    | Throw e w' => Throw e w'
    | Stuck => Stuck
    end.

(** [try { m } catch (error) { handler }] *)
Definition try_catch {A} (m : M A) (handler : Error -> M A) : M A :=
  fun w =>
    match m w with
    | Throw e w' => handler e w'
    | r => r
    end.

Declare Scope async_scope.
Delimit Scope async_scope with async.
Notation "x <- m ;; k" := (bind m (fun x => k))
  (at level 100, m at next level, right associativity) : async_scope.
Notation "'await' m ;; k" := (bind m (fun _ => k))
  (at level 100, m at next level, right associativity) : async_scope.
Local Open Scope async_scope.

(** The failure the backend answers the next request with, if any. *)
Definition fault (w : World) : option Error :=
  match faults w with
  | e :: _ => e
  | [] => None
  end.

Definition served (w : World) : bool :=
  match fault w with
  | None => true
  | Some _ => false
  end.

(** The world after a request that left the bucket as it was. *)
Definition advance (c : Command) (w : World) : World :=
  {| bucket := bucket w; faults := tail (faults w); sent := sent w ++ [c] |}.

(** The world after a request that the backend carried out. *)
Definition perform (c : Command) (w : World) : World :=
  {| bucket :=
       match c with
       | PutObjectCommand k b ct =>
           <[k := {| content := b; contentType := ct |}]> (bucket w)
       | DeleteObjectCommand k => delete k (bucket w)
       | GetObjectCommand _ | HeadObjectCommand _ => bucket w
       end;
     faults := tail (faults w);
     sent := sent w ++ [c] |}.

(** The world after a request, carried out or failed. *)
Definition after (c : Command) (w : World) : World :=
  if served w then perform c w else advance c w.

(** Whether the bucket holds an object under the key. *)
Definition present (k : string) (w : World) : bool :=
  match bucket w !! k with
  | Some _ => true
  | None => false
  end.

(** [s3Client.send(command)]: a failed request throws the backend's error;
    reading or probing a key that is not there throws [NoSuchKey],
    respectively [NotFound]; deleting a key that is not there succeeds.
    Every string is a key of the bucket. *)
Definition send (c : Command) : M Output :=
  fun w =>
    match fault w with
    | Some e => Throw e (advance c w)
    | None =>
        match c with
        | PutObjectCommand _ _ _ | DeleteObjectCommand _ =>
            Ret {| Body := None |} (perform c w)
        | GetObjectCommand k =>
            match bucket w !! k with
            | Some o => Ret {| Body := Some (content o) |} (perform c w)
            | None => Throw {| name := "NoSuchKey" |} (perform c w)
            end
        | HeadObjectCommand k =>
            match bucket w !! k with
            | Some o => Ret {| Body := None |} (perform c w)
            | None => Throw {| name := "NotFound" |} (perform c w)
            end
        end
    end.

(** [Body.transformToString()]: the body decoded as UTF-8. *)
Definition transformToString (b : list byte) : M string :=
  match Text.utf8_decode b with
  | Some s => ret s
  | None => stuck
  end.

(** [Body.transformToByteArray()] *)
Definition transformToByteArray (b : list byte) : M (list byte) := ret b.

(* ===================================================================== *)
(** ** src/lib/r2.ts                                                      *)
(* ===================================================================== *)

(** The R2 configuration read from the environment. *)
Record Env := {
  R2_ACCOUNT_ID : string;
  R2_ACCESS_KEY_ID : string;
  R2_SECRET_ACCESS_KEY : string;
  R2_BUCKET_NAME : string;
  R2_PUBLIC_URL : string
}.

Inductive Mode := text2img | img2img | outpaint.

(** An item of the history. The timestamp is an integer (epoch
    milliseconds); an optional property that is absent or [undefined] is
    [None]. *)
Record HistoryItem := {
  id : string;
  timestamp : Z;
  prompt : string;
  mode : Mode;
  model : string;
  imageKey : string;
  aspectRatio : option string;
  inputImageKey : option string;
  inputImageHash : option string;
  inputImageKeys : option (list string);
  inputImageHashes : option (list string)
}.

Record ParsedImageData := { buffer : list byte; mimeType : string }.

Definition getUserIdFromApiKey (apiKey : string) : string :=
  if Text.isEmpty apiKey then "anonymous"
  else
    let hash := Sha256.digest_hex (Text.utf8_encode apiKey) in
    String.substring 0 16 hash.

Definition getHistoryFileKey (userId : string) : string :=
  "history/" +:+ userId +:+ "/history.json".

Definition getImageKey (userId imageId : string) : string :=
  "images/" +:+ userId +:+ "/" +:+ imageId +:+ ".jpg".

Definition getThumbnailKey (userId imageId : string) : string :=
  "images/" +:+ userId +:+ "/" +:+ imageId +:+ "_thumb.jpg".

Definition getInputImageKey (userId imageHash ext : string) : string :=
  "inputs/" +:+ userId +:+ "/" +:+ imageHash +:+ "." +:+ ext.

(** [imageKey.replace(/\.jpg$/i, '_thumb.jpg')]: the search tries every
    position from the left; at a position the pattern matches when what
    is left of the key is [.jpg] in any case. *)
Fixpoint getThumbnailKeyFromImageKey (imageKey : string) : string :=
  match imageKey with
  | EmptyString => EmptyString
  | String c rest =>
      if String.eqb (Text.fold_case imageKey) ".jpg" then "_thumb.jpg"
      else String c (getThumbnailKeyFromImageKey rest)
  end.

(** [/^data:([^;]+);base64,/] on [imageData], with the [i] flag when [ci]:
    the captured group and what follows the match. The group takes every
    code unit up to the first semicolon, and no shorter group can match. *)
Definition match_data_uri (ci : bool) (imageData : string)
  : option (string * string) :=
  match Text.strip ci "data:" imageData with
  | Some s1 =>
      let '(group, s2) :=
        Text.span (fun c => negb (Ascii.eqb c ";")) s1 in
      if Text.isEmpty group then None
      else
        match Text.strip ci ";base64," s2 with
        | Some rest => Some (group, rest)
        | None => None
        end
  | None => None
  end.

Definition getExtensionFromMimeType (mimeType : string) : string :=
  let m := Text.toLowerCase mimeType in
  if String.eqb m "image/png" then "png"
  else if String.eqb m "image/webp" then "webp"
  else if String.eqb m "image/gif" then "gif"
  else "jpg".

Definition isR2Configured (env : Env) : bool :=
  negb (Text.isEmpty (R2_ACCOUNT_ID env))
  && negb (Text.isEmpty (R2_ACCESS_KEY_ID env))
  && negb (Text.isEmpty (R2_SECRET_ACCESS_KEY env))
  && negb (Text.isEmpty (R2_BUCKET_NAME env)).

(** [getImageUrl]: under the public base when one is configured, else the
    path of the proxy route. *)
Definition getImageUrl (env : Env) (imageKey : string) : string :=
  if negb (Text.isEmpty (R2_PUBLIC_URL env))
  then R2_PUBLIC_URL env +:+ "/" +:+ imageKey
  else "/api/history/image?key=" +:+ Web.encodeURIComponent imageKey.

Definition getThumbnailUrl (env : Env) (imageKey : string) : string :=
  let thumbKey := Web.replace_first ".jpg" "_thumb.jpg" imageKey in
  getImageUrl env thumbKey.

Definition doesObjectExist (key : string) : M bool :=
  try_catch
    (await send (HeadObjectCommand key) ;;
     ret true)
    (fun error =>
       if String.eqb (name error) "NotFound" then ret false
       else ret false).

Definition getImage (imageKey : string) : M (option (list byte)) :=
  try_catch
    (response <- send (GetObjectCommand imageKey) ;;
     match Body response with
     | Some body =>
         bytes <- transformToByteArray body ;;
         ret (Some bytes)
     | None => ret None
     end)
    (fun error => ret None).

Definition deleteImage (imageKey : string) : M bool :=
  try_catch
    (await send (DeleteObjectCommand imageKey) ;;
     ret true)
    (fun error => ret false).

(** *** The history document *)

Definition mode_name (m : Mode) : string :=
  match m with
  | text2img => "text2img"
  | img2img => "img2img"
  | outpaint => "outpaint"
  end.

Definition mode_of_name (s : string) : option Mode :=
  if String.eqb s "text2img" then Some text2img
  else if String.eqb s "img2img" then Some img2img
  else if String.eqb s "outpaint" then Some outpaint
  else None.

(** A property whose value is [undefined] is left out by
    [JSON.stringify]. *)
Definition property {A} (key : string) (f : A -> Json.value)
    (x : option A) : list (string * Json.value) :=
  match x with
  | Some a => [(key, f a)]
  | None => []
  end.

Definition strings (l : list string) : Json.value :=
  Json.Array (map Json.Str l).

(** A history item as the object the route builds, its properties in the
    order of the object literal there (the order of the interface). *)
Definition item_to_json (h : HistoryItem) : Json.value :=
  Json.Object
    ([("id", Json.Str (id h));
      ("timestamp", Json.Number (timestamp h));
      ("prompt", Json.Str (prompt h));
      ("mode", Json.Str (mode_name (mode h)));
      ("model", Json.Str (model h));
      ("imageKey", Json.Str (imageKey h))]
     ++ property "aspectRatio" Json.Str (aspectRatio h)
     ++ property "inputImageKey" Json.Str (inputImageKey h)
     ++ property "inputImageHash" Json.Str (inputImageHash h)
     ++ property "inputImageKeys" strings (inputImageKeys h)
     ++ property "inputImageHashes" strings (inputImageHashes h)).

Definition history_to_json (history : list HistoryItem) : Json.value :=
  Json.Array (map item_to_json history).

(** Reading a parsed value at the type [HistoryItem[]] that [loadHistory]
    declares: [None] when the value is not an array of objects with
    exactly these properties in this order. *)
Definition as_string (v : Json.value) : option string :=
  match v with Json.Str s => Some s | _ => None end.

Definition as_number (v : Json.value) : option Z :=
  match v with Json.Number n => Some n | _ => None end.

Definition as_strings (v : Json.value) : option (list string) :=
  match v with
  | Json.Array vs => mapM as_string vs
  | _ => None
  end.

Definition required {A} (key : string) (f : Json.value -> option A)
    (ms : list (string * Json.value))
  : option (A * list (string * Json.value)) :=
  match ms with
  | (k, v) :: ms' =>
      if String.eqb k key
      then match f v with Some a => Some (a, ms') | None => None end
      else None
  | [] => None
  end.

Definition optional {A} (key : string) (f : Json.value -> option A)
    (ms : list (string * Json.value))
  : option (option A * list (string * Json.value)) :=
  match ms with
  | (k, v) :: ms' =>
      if String.eqb k key
      then match f v with Some a => Some (Some a, ms') | None => None end
      else Some (None, ms)
  | [] => Some (None, [])
  end.

Definition item_of_json (v : Json.value) : option HistoryItem :=
  match v with
  | Json.Object ms =>
      '(i, ms) ← required "id" as_string ms;
      '(t, ms) ← required "timestamp" as_number ms;
      '(p, ms) ← required "prompt" as_string ms;
      '(mo, ms) ← required "mode" (fun v => as_string v ≫= mode_of_name) ms;
      '(ml, ms) ← required "model" as_string ms;
      '(ik, ms) ← required "imageKey" as_string ms;
      '(ar, ms) ← optional "aspectRatio" as_string ms;
      '(k, ms) ← optional "inputImageKey" as_string ms;
      '(h, ms) ← optional "inputImageHash" as_string ms;
      '(ks, ms) ← optional "inputImageKeys" as_strings ms;
      '(hs, ms) ← optional "inputImageHashes" as_strings ms;
      match ms with
      | [] => Some {| id := i; timestamp := t; prompt := p; mode := mo;
                      model := ml; imageKey := ik; aspectRatio := ar;
                      inputImageKey := k; inputImageHash := h;
                      inputImageKeys := ks; inputImageHashes := hs |}
      | _ :: _ => None
      end
  | _ => None
  end.

Definition history_of_json (v : Json.value) : option (list HistoryItem) :=
  match v with
  | Json.Array vs => mapM item_of_json vs
  | _ => None
  end.

(** [JSON.stringify(history, null, 2)] *)
Definition JSON_stringify (history : list HistoryItem) : string :=
  Json.stringify (history_to_json history).

(** [JSON.parse(bodyContents)] at the type [HistoryItem[]] that
    [loadHistory] declares: a text that is not JSON throws. The model holds
    the documents that [saveHistory] writes; a JSON text that is not the
    document of a history (an object, [null], an array with an element
    that is not a record of the interface, a record with other properties
    or another order of them) is outside it, as is a text the reader does
    not support, and the computation is [Stuck] there. On such a document
    the code returns the parsed value as it is, and its callers go on with
    it: [unshift] and [find] of a value that is not an array throw inside
    the caller's [try], which then returns [false] after the read alone,
    and the listing answers 500. What is stated of every run is stated so
    that it holds of these runs too. *)
Definition JSON_parse (bodyContents : string) : M (list HistoryItem) :=
  match Json.parse bodyContents with
  | Json.Ok v _ =>
      match history_of_json v with
      | Some history => ret history
      | None => stuck
      end
  | Json.SyntaxError => throw {| name := "SyntaxError" |}
  | Json.Unsupported => stuck
  end.

Definition loadHistory (userId : string) : M (list HistoryItem) :=
  try_catch
    (let historyFileKey := getHistoryFileKey userId in
     response <- send (GetObjectCommand historyFileKey) ;;
     match Body response with
     | Some body =>
         bodyContents <- transformToString body ;;
         JSON_parse bodyContents
     | None => ret []
     end)
    (fun error =>
       if String.eqb (name error) "NoSuchKey" then ret []
       else ret []).

Definition saveHistory (userId : string) (history : list HistoryItem)
  : M bool :=
  try_catch
    (let historyFileKey := getHistoryFileKey userId in
     await send (PutObjectCommand historyFileKey
                   (Text.utf8_encode (JSON_stringify history))
                   "application/json") ;;
     ret true)
    (fun error => ret false).

Definition addHistoryItem (userId : string) (item : HistoryItem) : M bool :=
  try_catch
    (history <- loadHistory userId ;;
     let history := item :: history in
     let trimmedHistory := firstn 100 history in
     saveHistory userId trimmedHistory)
    (fun error => ret false).

(** [h.inputImageKey === item.inputImageKey] for an item whose key is the
    string [key]. *)
Definition references (key : string) (h : HistoryItem) : bool :=
  match inputImageKey h with
  | Some k => String.eqb k key
  | None => false
  end.

Definition deleteHistoryItem (userId : string) (id_ : string) : M bool :=
  try_catch
    (history <- loadHistory userId ;;
     match List.find (fun h => String.eqb (id h) id_) history with
     | Some item =>
         await deleteImage (imageKey item) ;;
         await deleteImage (getThumbnailKeyFromImageKey (imageKey item)) ;;
         await
           match inputImageKey item with
           | Some key =>
               if Text.isEmpty key then ret tt
               else
                 let stillReferenced :=
                   existsb (fun h => negb (String.eqb (id h) id_)
                                     && references key h) history in
                 if negb stillReferenced
                 then await deleteImage key ;; ret tt
                 else ret tt
           | None => ret tt
           end ;;
         let newHistory :=
           List.filter (fun h => negb (String.eqb (id h) id_)) history in
         saveHistory userId newHistory
     | None => ret false
     end)
    (fun error => ret false).

(** *** The deduplicating input store *)

Record Stored := { stored_key : string; stored_hash : string; reused : bool }.

Section InputStore.

(** [Buffer.from(text, 'base64')] of Node, which the model does not fix:
    what follows holds for every decoder. *)
Variable Buffer_from_base64 : string -> list byte.

(** The callers give the fallback MIME type, ['image/jpeg'] by default. *)
Definition parseImageData (imageData : string) (fallbackMimeType : string)
  : ParsedImageData :=
  let mimeMatch := match_data_uri true imageData in
  let mimeType :=
    match mimeMatch with
    | Some (group, _) => group
    | None => fallbackMimeType
    end in
  let base64Data :=
    match match_data_uri false imageData with
    | Some (_, rest) => rest
    | None => imageData
    end in
  {| buffer := Buffer_from_base64 base64Data; mimeType := mimeType |}.

(** The key an upload resolves to (the four statements before the
    existence probe). *)
Definition inputImageHashOf (imageData fallbackMimeType : string) : string :=
  Sha256.digest_hex (buffer (parseImageData imageData fallbackMimeType)).

Definition inputImageKeyOf (imageData userId fallbackMimeType : string)
  : string :=
  let parsed := parseImageData imageData fallbackMimeType in
  let imageHash := Sha256.digest_hex (buffer parsed) in
  let ext := getExtensionFromMimeType (mimeType parsed) in
  getInputImageKey userId imageHash ext.

Definition uploadInputImageWithDedup
    (imageData userId : string) (fallbackMimeType : string) : M Stored :=
  let parsed := parseImageData imageData fallbackMimeType in
  let imageHash := Sha256.digest_hex (buffer parsed) in
  let ext := getExtensionFromMimeType (mimeType parsed) in
  let imageKey := getInputImageKey userId imageHash ext in
  exists_ <- doesObjectExist imageKey ;;
  await
    (if negb exists_
     then await send (PutObjectCommand imageKey (buffer parsed)
                        (mimeType parsed)) ;; ret tt
     else ret tt) ;;
  ret {| stored_key := imageKey; stored_hash := imageHash;
         reused := exists_ |}.

(** [uploadImage]: the object is stored under the [.jpg] key of the image
    with the content type the caller gives (['image/jpeg'] by default),
    whatever type the data URI declares. *)
Definition uploadImage (imageData imageId userId mimeType : string)
  : M string :=
  let parsed := parseImageData imageData mimeType in
  let key := getImageKey userId imageId in
  await send (PutObjectCommand key (buffer parsed) mimeType) ;;
  ret key.

Definition uploadThumbnail (thumbnailData imageId userId : string)
  : M string :=
  let parsed := parseImageData thumbnailData "image/jpeg" in
  let key := getThumbnailKey userId imageId in
  await send (PutObjectCommand key (buffer parsed) "image/jpeg") ;;
  ret key.

End InputStore.

(* ===================================================================== *)
(** ** src/app/api/history/image/route.ts                                 *)
(* ===================================================================== *)

Definition getContentTypeFromKey (key : string) : string :=
  let ext := Text.toLowerCase (Text.last_piece EmptyString key) in
  if String.eqb ext "jpg" then "image/jpeg"
  else if String.eqb ext "jpeg" then "image/jpeg"
  else if String.eqb ext "webp" then "image/webp"
  else if String.eqb ext "gif" then "image/gif"
  else "image/png".

(** The texts of the error property of the JSON answers. *)
Inductive Message :=
| StorageNotConfigured   (* 'R2 ....' : storage is not configured *)
| MissingKey             (* the image key is missing *)
| ImageNotFound          (* the image does not exist *)
| Failure (error : Error). (* error.message, or that fetching failed *)

Inductive Payload :=
| JsonBody (success : bool) (error : Message)
| RawBody (data : list byte).

Record Response := {
  status : nat;
  payload : Payload;
  headers : list (string * string)
}.

(** [NextResponse.json(body, { status })] *)
Definition NextResponse_json (success : bool) (error : Message)
    (status : nat) : Response :=
  {| status := status; payload := JsonBody success error;
     headers := [("Content-Type", "application/json")] |}.

(** [new NextResponse(body, { headers })]: the status defaults to 200. *)
Definition NextResponse_new (data : list byte)
    (headers : list (string * string)) : Response :=
  {| status := 200; payload := RawBody data; headers := headers |}.

(** The request, read through [new URL(request.url).searchParams]:
    [key] is [searchParams.get('key')]. *)
Record Request := { key : option string }.

Definition GET (env : Env) (request : Request) : M Response :=
  try_catch
    (if negb (isR2Configured env) then
       ret (NextResponse_json false StorageNotConfigured 500)
     else
       match key request with
       | None => ret (NextResponse_json false MissingKey 400)
       | Some key =>
           if Text.isEmpty key then
             ret (NextResponse_json false MissingKey 400)
           else
             imageBuffer <- getImage key ;;
             match imageBuffer with
             | None => ret (NextResponse_json false ImageNotFound 404)
             | Some imageBuffer =>
                 ret (NextResponse_new imageBuffer
                        [("Content-Type", getContentTypeFromKey key);
                         ("Cache-Control",
                          "public, max-age=31536000, immutable")])
             end
       end)
    (fun error =>
       ret (NextResponse_json false (Failure error) 500)).

(* ===================================================================== *)
(** ** The history route: GET, POST and DELETE of /api/history            *)
(* ===================================================================== *)

Module HistoryRoute.

(** [CreateHistoryRequestBody]: every property is optional. *)
Module Body.
Record t := {
  imageData : option string;
  thumbnailData : option string;
  inputImageData : option string;
  inputImageMimeType : option string;
  inputImagesData : option (list string);
  prompt : option string;
  mode : option Mode;
  model : option string;
  aspectRatio : option string
}.
End Body.

(** The request as the handlers read it: the [x-api-key] header, the [id]
    of the query and the body that [request.json()] resolves to ([None]
    when it rejects). *)
Record Request := {
  x_api_key : option string;
  id_param : option string;
  json : option Body.t
}.

(** What a handler draws from the clock and from [Math.random]:
    [Date.now()] for the id, the seven characters taken from
    [Math.random().toString(36)], and [Date.now()] for the timestamp. *)
Record Entropy := { now : Z; random : string; later : Z }.

Inductive Message :=
| NotConfigured   (* storage is not configured *)
| MissingParams   (* image data or prompt is missing *)
| SaveFailed      (* saving the history failed *)
| MissingId       (* the id of the record is missing *)
| DeleteFailed    (* the deletion failed *)
| Thrown (error : Error). (* error.message, or the text of the handler *)

(** A history item with the URLs the handlers add to it; the answer to a
    POST carries no thumbnail URL. *)
Record Enriched := {
  item : HistoryItem;
  imageUrl : string;
  thumbnailUrl : option string;
  inputImageUrls : list string
}.

Inductive Payload :=
| Refused (error : Message)          (* { success: false, error } *)
| Listed (history : list Enriched)   (* { success: true, history } *)
| Created (item : Enriched)          (* { success: true, item } *)
| Deleted.                           (* { success: true } *)

Record Response := { status : nat; payload : Payload }.

Definition refuse (error : Message) (status : nat) : Response :=
  {| status := status; payload := Refused error |}.

(** A string that is there and not empty, as [x || y] and [!x] test it. *)
Definition truthy (x : option string) : option string :=
  match x with
  | Some s => if Text.isEmpty s then None else Some s
  | None => None
  end.

(** [request.headers.get('x-api-key') || process.env.GEMINI_API_KEY || ''];
    an unset variable is the empty string. *)
Definition apiKeyOf (request : Request) (GEMINI_API_KEY : string) : string :=
  match truthy (x_api_key request) with
  | Some k => k
  | None => GEMINI_API_KEY
  end.

Definition request_json (request : Request) : M Body.t :=
  match json request with
  | Some body => ret body
  | None => throw {| name := "SyntaxError" |}
  end.

(** The keys of the reference images of an item, in the multiple form or
    in the single one. *)
Definition allInputKeys (h : HistoryItem) : list string :=
  match inputImageKeys h with
  | Some keys => keys
  | None =>
      match truthy (inputImageKey h) with
      | Some k => [k]
      | None => []
      end
  end.

Definition enrich (env : Env) (h : HistoryItem) : Enriched :=
  {| item := h;
     imageUrl := getImageUrl env (imageKey h);
     thumbnailUrl := Some (getThumbnailUrl env (imageKey h));
     inputImageUrls := map (getImageUrl env) (allInputKeys h) |}.

Definition GET (env : Env) (GEMINI_API_KEY : string) (request : Request)
  : M Response :=
  try_catch
    (if negb (isR2Configured env) then ret (refuse NotConfigured 500)
     else
       let apiKey := apiKeyOf request GEMINI_API_KEY in
       let userId := getUserIdFromApiKey apiKey in
       history <- loadHistory userId ;;
       let historyWithUrls := map (enrich env) history in
       ret {| status := 200; payload := Listed historyWithUrls |})
    (fun error => ret (refuse (Thrown error) 500)).

Definition DELETE (env : Env) (GEMINI_API_KEY : string) (request : Request)
  : M Response :=
  try_catch
    (if negb (isR2Configured env) then ret (refuse NotConfigured 500)
     else
       let apiKey := apiKeyOf request GEMINI_API_KEY in
       let userId := getUserIdFromApiKey apiKey in
       match truthy (id_param request) with
       | None => ret (refuse MissingId 400)
       | Some id_ =>
           success <- deleteHistoryItem userId id_ ;;
           if success then ret {| status := 200; payload := Deleted |}
           else ret (refuse DeleteFailed 500)
       end)
    (fun error => ret (refuse (Thrown error) 500)).

Section Create.

Variable Buffer_from_base64 : string -> list byte.

(** The loop over the reference images: each is stored through the
    deduplicating store, and one whose upload throws is left out. *)
Fixpoint storeInputImages (imagesToUpload : list string)
    (userId fallbackMimeType : string) : M (list string * list string) :=
  match imagesToUpload with
  | [] => ret ([], [])
  | imgData :: rest =>
      dedupResult <-
        try_catch
          (r <- uploadInputImageWithDedup Buffer_from_base64 imgData userId
                  fallbackMimeType ;;
           ret (Some r))
          (fun err => ret None) ;;
      others <- storeInputImages rest userId fallbackMimeType ;;
      ret (match dedupResult with
           | Some r => (stored_key r :: fst others,
                        stored_hash r :: snd others)
           | None => others
           end)
  end.

Definition non_empty (l : list string) : option (list string) :=
  match l with
  | [] => None
  | _ :: _ => Some l
  end.

Definition POST (env : Env) (GEMINI_API_KEY : string) (entropy : Entropy)
    (request : Request) : M Response :=
  try_catch
    (if negb (isR2Configured env) then ret (refuse NotConfigured 500)
     else
       let apiKey := apiKeyOf request GEMINI_API_KEY in
       let userId := getUserIdFromApiKey apiKey in
       body <- request_json request ;;
       match truthy (Body.imageData body), truthy (Body.prompt body) with
       | Some imageData, Some prompt =>
           let id_ := Json.number (now entropy)
                        (String "_" (random entropy)) in
           imageKey <- uploadImage Buffer_from_base64 imageData id_ userId
                         "image/jpeg" ;;
           await
             match truthy (Body.thumbnailData body) with
             | Some thumbnailData =>
                 try_catch
                   (await uploadThumbnail Buffer_from_base64 thumbnailData
                            id_ userId ;;
                    ret tt)
                   (fun err => ret tt)
             | None => ret tt
             end ;;
           stored <-
             match Body.mode body with
             | Some img2img | Some outpaint =>
                 let imagesToUpload :=
                   match Body.inputImagesData body with
                   | Some (x :: l) => x :: l
                   | _ =>
                       match truthy (Body.inputImageData body) with
                       | Some inputImageData => [inputImageData]
                       | None => []
                       end
                   end in
                 storeInputImages imagesToUpload userId
                   (default "image/jpeg"
                      (truthy (Body.inputImageMimeType body)))
             | _ => ret ([], [])
             end ;;
           let inputImageKeys := fst stored in
           let inputImageHashes := snd stored in
           let historyItem :=
             {| id := id_;
                timestamp := later entropy;
                prompt := prompt;
                mode := default text2img (Body.mode body);
                model := default "unknown" (truthy (Body.model body));
                imageKey := imageKey;
                aspectRatio := Body.aspectRatio body;
                inputImageKey := head inputImageKeys;
                inputImageHash := head inputImageHashes;
                inputImageKeys := non_empty inputImageKeys;
                inputImageHashes := non_empty inputImageHashes |} in
           success <- addHistoryItem userId historyItem ;;
           if success then
             ret {| status := 200;
                    payload :=
                      Created
                        {| item := historyItem;
                           imageUrl := getImageUrl env imageKey;
                           thumbnailUrl := None;
                           inputImageUrls :=
                             map (getImageUrl env) inputImageKeys |} |}
           else ret (refuse SaveFailed 500)
       | _, _ => ret (refuse MissingParams 400)
       end)
    (fun error => ret (refuse (Thrown error) 500)).

End Create.

End HistoryRoute.

(* ===================================================================== *)
(** * Vocabulary of the properties                                        *)
(* ===================================================================== *)

(** ** Identity *)

Definition is_hex (c : ascii) : bool :=
  let n := Text.code c in
  ((48 <=? n) && (n <=? 57)) || ((97 <=? n) && (n <=? 102)).

(** A string of lower-case hexadecimal digits. *)
Definition is_hex_string (s : string) : Prop :=
  Forall (fun c => is_hex c = true) (list_ascii_of_string s).

(** ** The image route *)

(** A string without a dot. *)
Definition dotless (s : string) : Prop :=
  ~ In "."%char (list_ascii_of_string s).

(** The extension the route reads off a key: what follows its last dot,
    and all of the key when it has no dot. *)
Definition extension_of (k e : string) : Prop :=
  dotless e /\ (k = e \/ exists p, k = p +:+ String "." e).

(** ** Deleting a history item *)

(** The worlds a list of requests leads through, each carried out or
    failed as the backend decides. *)
Definition run_all (cs : list Command) (w : World) : World :=
  fold_left (fun w c => after c w) cs w.

(** [stillReferenced] of [deleteHistoryItem]: another item, one with a
    different id, has the same reference image. *)
Definition stillReferenced (id_ key : string) (history : list HistoryItem)
  : bool :=
  existsb (fun h => negb (String.eqb (id h) id_) && references key h) history.

(** The deletion of the reference image, when it is due. *)
Definition reference_cleanup (id_ : string) (history : list HistoryItem)
    (item : HistoryItem) : list Command :=
  match inputImageKey item with
  | Some key =>
      if Text.isEmpty key then []
      else if stillReferenced id_ key history then []
      else [DeleteObjectCommand key]
  | None => []
  end.

Definition without (id_ : string) (history : list HistoryItem)
  : list HistoryItem :=
  List.filter (fun h => negb (String.eqb (id h) id_)) history.

(** The last four code units of the key are [.jpg], in any case. *)
Definition ends_in_jpg (s : string) : bool :=
  String.eqb
    (Text.fold_case (String.substring (String.length s - 4) 4 s)) ".jpg".

(** ** JSON documents *)

Section JsonVocabulary.

Import Json.

(** The number of nodes of a value. *)
Fixpoint nodes (v : value) : nat :=
  match v with
  | Array vs => S (list_sum (map nodes vs))
  | Object ms => S (list_sum (map (fun m => nodes (snd m)) ms))
  | _ => 1
  end.

(** Every number of the value is an integer JavaScript holds exactly. *)
Fixpoint safe (v : value) : bool :=
  match v with
  | Number n => (Z.abs n <=? MAX_SAFE_INTEGER)%Z
  | Array vs => forallb safe vs
  | Object ms => forallb (fun m => safe (snd m)) ms
  | _ => true
  end.

(** What the writer puts after a value: nothing, a comma or a new line. *)
Definition follow (k : string) : bool :=
  match k with
  | EmptyString => true
  | String c _ => Ascii.eqb c "," || Ascii.eqb c LF
  end.

(** The first character of a written value: not white space and not a
    closing bracket. *)
Definition opens (c : ascii) : bool :=
  negb (is_ws c) && negb (Ascii.eqb c "]") && negb (Ascii.eqb c "}").

End JsonVocabulary.

(** ** The ledger *)

(** The timestamp of the item is an integer that JavaScript holds
    exactly. *)
Definition safe_item (h : HistoryItem) : bool :=
  (Z.abs (timestamp h) <=? Json.MAX_SAFE_INTEGER)%Z.

(** Adding items one after the other; [true] when every call returned
    [true]. *)
Fixpoint addHistoryItems (userId : string) (items : list HistoryItem)
  : M bool :=
  match items with
  | [] => ret true
  | item :: items' =>
      b <- addHistoryItem userId item ;;
      bs <- addHistoryItems userId items' ;;
      ret (b && bs)
  end.

(** The ledger of the user is [h]: the bucket holds the document of [h]
    under the user's key (or, for the empty history, no document at
    all), and the backend serves every coming request. *)
Definition ledger (userId : string) (h : list HistoryItem) (w : World)
  : Prop :=
  faults w = [] /\
  (bucket w !! getHistoryFileKey userId
   = Some {| content := Text.utf8_encode (JSON_stringify h);
             contentType := "application/json" |}
   \/ (h = [] /\ bucket w !! getHistoryFileKey userId = None)).

(** ** Sample data *)

(** A base64 decoder in the lenient style of Node (it skips what is outside
    the two alphabets and stops at the padding), to run the input store on
    concrete payloads; no property depends on it. *)
Definition base64_value (c : ascii) : option N :=
  let n := Text.code c in
  if (65 <=? n) && (n <=? 90) then Some (n - 65)
  else if (97 <=? n) && (n <=? 122) then Some (n - 71)
  else if (48 <=? n) && (n <=? 57) then Some (n + 4)
  else if (n =? 43) || (n =? 45) then Some 62
  else if (n =? 47) || (n =? 95) then Some 63
  else None.

Fixpoint sextets (s : string) : list N :=
  match s with
  | EmptyString => []
  | String c s' =>
      if Ascii.eqb c "=" then []
      else match base64_value c with
           | Some v => v :: sextets s'
           | None => sextets s'
           end
  end.

Definition octet (n : N) : byte := byte_of_ascii (ascii_of_N (n mod 256)).

Fixpoint octets (l : list N) : list byte :=
  match l with
  | a :: b :: c :: d :: l' =>
      octet (a * 4 + b / 16) :: octet (b * 16 + c / 4) :: octet (c * 64 + d)
      :: octets l'
  | [a; b; c] => [octet (a * 4 + b / 16); octet (b * 16 + c / 4)]
  | [a; b] => [octet (a * 4 + b / 16)]
  | _ => []
  end.

Definition base64_decode (s : string) : list byte := octets (sextets s).

(** An empty bucket behind a backend that serves every request. *)
Definition blank : World := {| bucket := ∅; faults := []; sent := [] |}.

(** What a run returned (or [d] when it did not return) and the world it
    ended in, to name the stages of a sequence of calls. *)
Definition value_of {A : Type} (d : A) (o : Outcome A) : A :=
  match o with
  | Ret a _ => a
  | _ => d
  end.

Definition world_of {A : Type} (o : Outcome A) : World :=
  match o with
  | Ret _ w | Throw _ w => w
  | Stuck => blank
  end.

(** A bucket that holds the ledger document of a user, behind a backend
    that answers the coming requests with the given failures. *)
Definition stored (userId : string) (history : list HistoryItem)
    (failures : list (option Error)) : World :=
  {| bucket :=
       {[ getHistoryFileKey userId :=
            {| content := Text.utf8_encode (JSON_stringify history);
               contentType := "application/json" |} ]};
     faults := failures;
     sent := [] |}.

(** A generation of user [A] from the reference image [inputs/A/h1.jpg]. *)
Definition generation (id_ : string) (t : Z) : HistoryItem :=
  {| id := id_; timestamp := t; prompt := "a cat, in oil"; mode := img2img;
     model := "gemini"; imageKey := getImageKey "A" id_;
     aspectRatio := Some "1:1";
     inputImageKey := Some "inputs/A/h1.jpg"; inputImageHash := Some "h1";
     inputImageKeys := Some ["inputs/A/h1.jpg"];
     inputImageHashes := Some ["h1"] |}.

(** The [n]-th of a series of text-to-image generations. *)
Definition numbered (n : nat) : HistoryItem :=
  {| id := Json.digits (Nat.to_uint n) "_x"; timestamp := Z.of_nat n;
     prompt := "a dog"; mode := text2img; model := "gemini";
     imageKey := getImageKey "A" (Json.digits (Nat.to_uint n) "_x");
     aspectRatio := None; inputImageKey := None; inputImageHash := None;
     inputImageKeys := None; inputImageHashes := None |}.

Definition configured : Env :=
  {| R2_ACCOUNT_ID := "account"; R2_ACCESS_KEY_ID := "key";
     R2_SECRET_ACCESS_KEY := "secret"; R2_BUCKET_NAME := "bucket";
     R2_PUBLIC_URL := EmptyString |}.

Definition unavailable : Error := {| name := "ServiceUnavailable" |}.

(* ===================================================================== *)
(** * Properties                                                          *)
(* ===================================================================== *)

(** ** Text *)

Section TextFacts.

Lemma length_append (s t : string) :
  String.length (s +:+ t) = (String.length s + String.length t)%nat.
Proof. induction s as [|c s IH]; simpl; [reflexivity | now rewrite IH]. Qed.

Lemma append_assoc (s t u : string) : (s +:+ t) +:+ u = s +:+ (t +:+ u).
Proof. induction s as [|c s IH]; simpl; [reflexivity | now rewrite IH]. Qed.

Lemma append_nil_r (s : string) : s +:+ EmptyString = s.
Proof. induction s as [|c s IH]; simpl; [reflexivity | now rewrite IH]. Qed.

(** Two strings with a common tail are equal when their heads are. *)
Lemma append_inv_tail (s1 s2 t : string) :
  s1 +:+ t = s2 +:+ t -> s1 = s2.
Proof.
  revert s2. induction s1 as [|c s1 IH]; intros [|d s2] E; simpl in E.
  - reflexivity.
  - apply (f_equal String.length) in E. simpl in E.
    rewrite length_append in E. lia.
  - apply (f_equal String.length) in E. simpl in E.
    rewrite length_append in E. lia.
  - injection E as -> E. f_equal. now apply IH.
Qed.

Lemma append_inv_head (p a b : string) : p +:+ a = p +:+ b -> a = b.
Proof.
  induction p as [|c p IH]; simpl; [auto|]. intros [= H]. auto.
Qed.

Lemma fold_case_length (s : string) :
  String.length (Text.fold_case s) = String.length s.
Proof. induction s as [|c s IH]; simpl; [reflexivity | now rewrite IH]. Qed.

Lemma substring_tail (p e : string) :
  String.substring (String.length p) (String.length e) (p +:+ e) = e.
Proof.
  induction p as [|c p IH]; simpl; [| exact IH].
  induction e as [|c e IH]; simpl; [reflexivity | now rewrite IH].
Qed.

Lemma isEmpty_true (s : string) : Text.isEmpty s = true <-> s = EmptyString.
Proof. destruct s; simpl; split; congruence. Qed.

Lemma isEmpty_false (s : string) :
  Text.isEmpty s = false <-> s <> EmptyString.
Proof. destruct s; simpl; split; congruence. Qed.

End TextFacts.

(** ** Identity derivation *)

Lemma hex_digit_is_hex (n : N) : is_hex (Text.hex_digit n) = true.
Proof.
  unfold Text.hex_digit.
  assert (H : (N.to_nat (n mod 16) < 16)%nat).
  { pose proof (N.mod_upper_bound n 16). lia. }
  revert H. generalize (N.to_nat (n mod 16)). intros m H.
  do 16 (destruct m as [|m]; [reflexivity|]). lia.
Qed.

Lemma digest_hex_length (msg : list byte) :
  String.length (Sha256.digest_hex msg) = 64%nat.
Proof. unfold Sha256.digest_hex. now destruct (Sha256.hash msg). Qed.

Lemma digest_hex_is_hex (msg : list byte) :
  is_hex_string (Sha256.digest_hex msg).
Proof.
  unfold Sha256.digest_hex, is_hex_string, Sha256.hex, Sha256.hex8.
  destruct (Sha256.hash msg); simpl.
  repeat (constructor; [apply hex_digit_is_hex|]). constructor.
Qed.

(** C6. [getUserIdFromApiKey] gives the sentinel [anonymous] for the empty
    credential; for every other credential it gives the first 16 of the 64
    lower-case hexadecimal digits of the SHA-256 of the credential's
    UTF-8. It is a function of the credential alone, hence deterministic. *)
Theorem getUserIdFromApiKey_derivation :
  getUserIdFromApiKey EmptyString = "anonymous" /\
  forall apiKey : string, apiKey <> EmptyString ->
    let digest := Sha256.digest_hex (Text.utf8_encode apiKey) in
    getUserIdFromApiKey apiKey = String.substring 0 16 digest /\
    String.length (getUserIdFromApiKey apiKey) = 16%nat /\
    is_hex_string (getUserIdFromApiKey apiKey) /\
    String.length digest = 64%nat /\
    exists rest, digest = getUserIdFromApiKey apiKey +:+ rest.
Proof.
  split; [reflexivity|].
  intros apiKey Hne digest.
  assert (E : getUserIdFromApiKey apiKey = String.substring 0 16 digest).
  { unfold getUserIdFromApiKey.
    destruct apiKey; [congruence | reflexivity]. }
  pose proof (digest_hex_is_hex (Text.utf8_encode apiKey)) as Hhex.
  fold digest in Hhex. rewrite E.
  unfold digest, Sha256.digest_hex, is_hex_string, Sha256.hex, Sha256.hex8 in *.
  destruct (Sha256.hash (Text.utf8_encode apiKey)); simpl in *.
  repeat split.
  - do 16 (apply Forall_cons_iff in Hhex as [? Hhex]; constructor; [assumption|]).
    constructor.
  - eexists. reflexivity.
Qed.

Lemma getUserIdFromApiKey_derivation_witness :
  getUserIdFromApiKey "abc" = "ba7816bf8f01cfea" /\
  String.length (getUserIdFromApiKey "abc") = 16%nat.
Proof.
  split; [vm_compute; reflexivity|].
  apply (proj2 getUserIdFromApiKey_derivation "abc"). discriminate.
Defined.

(** ** The object store adapter *)

Section Adapter.

Ltac run :=
  unfold try_catch, bind, send, ret, after, served, present;
  intros;
  repeat match goal with
         | |- context [fault ?w] => destruct (fault w) eqn:?
         | |- context [bucket ?w !! ?k] => destruct (bucket w !! k) eqn:?
         end;
  simpl;
  repeat match goal with
         | |- context [String.eqb ?a ?b] => destruct (String.eqb a b)
         end;
  try reflexivity.

Lemma deleteImage_run (imageKey : string) (w : World) :
  deleteImage imageKey w
  = Ret (served w) (after (DeleteObjectCommand imageKey) w).
Proof. unfold deleteImage. run. Qed.

Lemma doesObjectExist_run (key : string) (w : World) :
  doesObjectExist key w
  = Ret (served w && present key w) (advance (HeadObjectCommand key) w).
Proof. unfold doesObjectExist. run. Qed.

Lemma getImage_run (imageKey : string) (w : World) :
  getImage imageKey w
  = Ret (if served w then content <$> bucket w !! imageKey else None)
        (advance (GetObjectCommand imageKey) w).
Proof. unfold getImage, transformToByteArray. run. Qed.

Lemma saveHistory_run (userId : string) (history : list HistoryItem)
    (w : World) :
  saveHistory userId history w
  = Ret (served w)
        (after (PutObjectCommand (getHistoryFileKey userId)
                  (Text.utf8_encode (JSON_stringify history))
                  "application/json") w).
Proof. unfold saveHistory. run. Qed.

(** [loadHistory] only reads and never throws: when the document is
    within the model it returns a history, in the world after the
    GetObject request. *)
Lemma loadHistory_cases (userId : string) (w : World) :
  loadHistory userId w = Stuck \/
  exists history,
    loadHistory userId w
    = Ret history (advance (GetObjectCommand (getHistoryFileKey userId)) w).
Proof.
  unfold loadHistory, try_catch, bind, send, transformToString, JSON_parse.
  destruct (fault w); simpl.
  { destruct (String.eqb _ _); eauto. }
  destruct (bucket w !! getHistoryFileKey userId); simpl; [|eauto].
  destruct (Text.utf8_decode _); simpl; [|eauto].
  destruct (Json.parse _); simpl; eauto.
  destruct (history_of_json _); simpl; eauto.
Qed.

Lemma loadHistory_world (userId : string) (w w1 : World)
    (history : list HistoryItem) :
  loadHistory userId w = Ret history w1 ->
  w1 = advance (GetObjectCommand (getHistoryFileKey userId)) w.
Proof.
  destruct (loadHistory_cases userId w) as [E|[h E]]; rewrite E; congruence.
Qed.

(** A failed read and a missing document both load as the empty
    history. *)
Lemma loadHistory_empty (userId : string) (w : World) :
  served w = false \/ bucket w !! getHistoryFileKey userId = None ->
  loadHistory userId w
  = Ret [] (advance (GetObjectCommand (getHistoryFileKey userId)) w).
Proof.
  unfold loadHistory, try_catch, bind, send, served.
  intros [H|H].
  - destruct (fault w); [simpl | discriminate].
    destruct (String.eqb _ _); reflexivity.
  - rewrite H. destruct (fault w); simpl; [|reflexivity].
    destruct (String.eqb _ _); reflexivity.
Qed.

Lemma perform_put (k ct : string) (b : list byte) (w : World) :
  faults (perform (PutObjectCommand k b ct) w) = tail (faults w) /\
  bucket (perform (PutObjectCommand k b ct) w) !! k
  = Some {| content := b; contentType := ct |}.
Proof. split; [reflexivity | apply lookup_insert_eq]. Qed.

End Adapter.

(** ** The deduplicating input store *)

Section InputStoreFacts.

Variable Buffer_from_base64 : string -> list byte.

#[local] Abbreviation upload := (uploadInputImageWithDedup Buffer_from_base64).
#[local] Abbreviation keyOf := (inputImageKeyOf Buffer_from_base64).
#[local] Abbreviation hashOf := (inputImageHashOf Buffer_from_base64).

(** An upload probes the key, then either puts the object or not; it
    throws exactly when the put fails. *)
Lemma upload_run (imageData userId fallback : string) (w : World) :
  let parsed := parseImageData Buffer_from_base64 imageData fallback in
  let k := keyOf imageData userId fallback in
  let w1 := advance (HeadObjectCommand k) w in
  let put := PutObjectCommand k (buffer parsed) (mimeType parsed) in
  upload imageData userId fallback w
  = if served w && present k w
    then Ret {| stored_key := k; stored_hash := hashOf imageData fallback;
                reused := true |} w1
    else match fault w1 with
         | Some e => Throw e (advance put w1)
         | None =>
             Ret {| stored_key := k; stored_hash := hashOf imageData fallback;
                    reused := false |} (perform put w1)
         end.
Proof.
  intros parsed k w1 put. subst parsed k w1 put.
  unfold uploadInputImageWithDedup, inputImageKeyOf, inputImageHashOf, bind.
  cbv zeta. rewrite doesObjectExist_run.
  destruct (served w && present _ w); cbn [negb]; [reflexivity|].
  unfold bind, send. destruct (fault _); reflexivity.
Qed.

Lemma upload_key (imageData userId fallback : string) (w w' : World)
    (r : Stored) :
  upload imageData userId fallback w = Ret r w' ->
  stored_key r = keyOf imageData userId fallback.
Proof.
  rewrite upload_run.
  destruct (served w && present _ w); [now intros [= <- _]|].
  destruct (fault _); [discriminate | now intros [= <- _]].
Qed.

Lemma getInputImageKey_inj (u1 u2 imageHash ext : string) :
  getInputImageKey u1 imageHash ext = getInputImageKey u2 imageHash ext ->
  u1 = u2.
Proof.
  unfold getInputImageKey. simpl. intros [= E].
  now apply append_inv_tail in E.
Qed.

(** Two texts that agree as a whole: the shorter first part is a prefix
    of the longer one. *)
Lemma append_eq_prefix (a b c d : string) :
  a +:+ b = c +:+ d -> (String.length a <= String.length c)%nat ->
  exists s, c = a +:+ s /\ b = s +:+ d.
Proof.
  revert c. induction a as [|x a IH]; intros c E L.
  - exists c. split; [reflexivity | exact E].
  - destruct c as [|y c]; [simpl in L; lia|].
    simpl in E. injection E as -> E. simpl in L.
    destruct (IH c E) as (s & -> & ->); [lia|].
    exists s. split; reflexivity.
Qed.

Lemma extension_length (declared : string) :
  String.length (getExtensionFromMimeType declared) = 3%nat \/
  String.length (getExtensionFromMimeType declared) = 4%nat.
Proof.
  unfold getExtensionFromMimeType. cbv zeta.
  repeat match goal with
         | |- context [String.eqb ?a ?b] => destruct (String.eqb a b)
         end; simpl; auto.
Qed.

Lemma digest_hex_head (msg : list byte) :
  exists c rest, Sha256.digest_hex msg = String c rest /\ c <> "/"%char.
Proof.
  pose proof (digest_hex_length msg) as L.
  pose proof (digest_hex_is_hex msg) as X. unfold is_hex_string in X.
  destruct (Sha256.digest_hex msg) as [|c rest]; [discriminate|].
  exists c, rest. split; [reflexivity|]. intros ->.
  simpl in X. inversion X as [|? ? Hc _]. discriminate.
Qed.

(** The user of a key: two keys of the same digest are the same only for
    the same user, whatever their extensions. *)
Lemma getInputImageKey_user (u1 u2 m1 m2 : string) (msg : list byte) :
  getInputImageKey u1 (Sha256.digest_hex msg) (getExtensionFromMimeType m1)
  = getInputImageKey u2 (Sha256.digest_hex msg) (getExtensionFromMimeType m2) ->
  u1 = u2.
Proof.
  unfold getInputImageKey. intros E. apply append_inv_head in E.
  pose proof (digest_hex_length msg) as LD.
  destruct (digest_hex_head msg) as (c & rest & HD & Hc).
  pose proof (extension_length m1) as X1.
  pose proof (extension_length m2) as X2.
  revert E LD HD X1 X2.
  generalize (Sha256.digest_hex msg) as D.
  generalize (getExtensionFromMimeType m1) as e1.
  generalize (getExtensionFromMimeType m2) as e2.
  intros e2 e1 D E LD HD X1 X2.
  assert (Step : forall a b t1 t2 : string,
             a +:+ "/" +:+ D +:+ "." +:+ t1 = b +:+ "/" +:+ D +:+ "." +:+ t2 ->
             (String.length a <= String.length b)%nat ->
             (String.length t1 <= 1 + String.length t2)%nat ->
             a = b).
  { intros a b t1 t2 H Hab H1.
    pose proof (f_equal String.length H) as HL.
    destruct (append_eq_prefix _ _ _ _ H Hab) as (s & -> & Hs).
    rewrite !length_append in HL. simpl in HL.
    destruct s as [|x [|y s]].
    - now rewrite append_nil_r.
    - exfalso. simpl in Hs. injection Hs as <- Hs.
      rewrite HD in Hs. simpl in Hs. injection Hs as Hs _. now apply Hc.
    - exfalso. simpl in HL. lia. }
  destruct (Nat.le_ge_cases (String.length u1) (String.length u2)) as [H|H].
  - apply (Step u1 u2 e1 e2 E H); lia.
  - symmetry. apply (Step u2 u1 e2 e1 (eq_sym E) H); lia.
Qed.

(** C7. The same bytes stored for two distinct users resolve to two
    distinct keys, [inputs/<userId>/<hash>.<ext>] each, whatever types
    they are declared with; stored again for the same user they resolve
    to the same key exactly when the declared types have the same
    extension. This holds whatever the bucket holds and whatever the
    backend does; an upload yields its key whenever its put request is
    not failed. *)
Theorem input_keys_namespaced_by_user
    (imageData imageData' fallback fallback' u1 u2 : string) :
  let parsed := parseImageData Buffer_from_base64 imageData fallback in
  let parsed' := parseImageData Buffer_from_base64 imageData' fallback' in
  buffer parsed' = buffer parsed ->
  u1 <> u2 ->
  (forall u, keyOf imageData u fallback
             = "inputs/" +:+ u +:+ "/" +:+ hashOf imageData fallback +:+ "."
               +:+ getExtensionFromMimeType (mimeType parsed)) /\
  (forall w1 w1' w2 w2' r1 r2,
      upload imageData u1 fallback w1 = Ret r1 w1' ->
      upload imageData' u2 fallback' w2 = Ret r2 w2' ->
      stored_key r1 <> stored_key r2) /\
  (forall u w1 w1' w2 w2' r1 r2,
      upload imageData u fallback w1 = Ret r1 w1' ->
      upload imageData' u fallback' w2 = Ret r2 w2' ->
      (stored_key r1 = stored_key r2 <->
       getExtensionFromMimeType (mimeType parsed)
       = getExtensionFromMimeType (mimeType parsed'))) /\
  (forall u w, nth 1 (faults w) None = None ->
      exists r w', upload imageData u fallback w = Ret r w').
Proof.
  intros parsed parsed' Hbytes Hne.
  assert (K : forall u,
             keyOf imageData' u fallback'
             = getInputImageKey u (Sha256.digest_hex (buffer parsed))
                 (getExtensionFromMimeType (mimeType parsed'))).
  { intros u. unfold inputImageKeyOf. cbv zeta. fold parsed'.
    now rewrite Hbytes. }
  split; [reflexivity|]. split; [|split].
  - intros w1 w1' w2 w2' r1 r2 H1 H2 E.
    apply upload_key in H1, H2. rewrite H1, H2, K in E.
    apply getInputImageKey_user in E. contradiction.
  - intros u w1 w1' w2 w2' r1 r2 H1 H2.
    apply upload_key in H1, H2. rewrite H1, H2, K.
    unfold inputImageKeyOf. cbv zeta. fold parsed. split.
    + unfold getInputImageKey. intros E.
      now do 5 apply append_inv_head in E.
    + now intros ->.
  - intros u w Hput. rewrite upload_run.
    destruct (served w && present _ w); [eauto|].
    assert (F : fault (advance (HeadObjectCommand
                         (keyOf imageData u fallback)) w) = None).
    { unfold fault, advance; simpl.
      destruct (faults w) as [|f0 [|f1 fs]]; simpl in *; congruence. }
    rewrite F. eauto.
Qed.


End InputStoreFacts.

(** ** The image route *)

Section ImageRoute.

Lemma last_piece_dotless (acc s : string) :
  dotless s -> Text.last_piece acc s = acc +:+ s.
Proof.
  revert acc. induction s as [|c s IH]; intros acc H; simpl.
  - now rewrite append_nil_r.
  - destruct (Ascii.eqb_spec c ".") as [->|_].
    + exfalso. apply H. now left.
    + rewrite IH, append_assoc; [reflexivity|].
      intros Hin. apply H. now right.
Qed.

(** [key.split('.').pop()] is what follows the last dot of the key. *)
Lemma last_piece_after_dot (acc p e : string) :
  dotless e -> Text.last_piece acc (p +:+ String "." e) = e.
Proof.
  intros H. revert acc. induction p as [|c p IH]; intros acc; simpl.
  - now rewrite last_piece_dotless.
  - destruct (Ascii.eqb c "."); apply IH.
Qed.

Lemma last_piece_extension (k e : string) :
  extension_of k e -> Text.last_piece EmptyString k = e.
Proof.
  intros [He [->|[p ->]]].
  - now rewrite last_piece_dotless.
  - now apply last_piece_after_dot.
Qed.

Lemma GET_run (env : Env) (request : Request) (w : World) :
  GET env request w
  = if negb (isR2Configured env)
    then Ret (NextResponse_json false StorageNotConfigured 500) w
    else match key request with
         | None => Ret (NextResponse_json false MissingKey 400) w
         | Some k =>
             if Text.isEmpty k
             then Ret (NextResponse_json false MissingKey 400) w
             else
               let w' := advance (GetObjectCommand k) w in
               match (if served w then content <$> bucket w !! k else None) with
               | None => Ret (NextResponse_json false ImageNotFound 404) w'
               | Some bytes =>
                   Ret (NextResponse_new bytes
                          [("Content-Type", getContentTypeFromKey k);
                           ("Cache-Control",
                            "public, max-age=31536000, immutable")]) w'
               end
         end.
Proof.
  unfold GET, try_catch.
  destruct (negb (isR2Configured env)); [reflexivity|].
  destruct (key request) as [k|]; [|reflexivity].
  destruct (Text.isEmpty k); [reflexivity|].
  unfold bind. rewrite getImage_run.
  destruct (if served w then _ else _); reflexivity.
Qed.

(** C9. The answers of [GET /api/history/image?key=...]: 500 when the
    storage is not configured; otherwise 400 when the key parameter is
    missing (or empty); otherwise 404 with [{success: false}] when the
    object cannot be fetched, because the bucket has nothing under the key
    or because the request failed; otherwise the bytes of the object, with
    the content type of the extension of the key: [jpg] and [jpeg] give
    [image/jpeg], [webp] gives [image/webp], [gif] gives [image/gif] and
    every other extension gives [image/png]. *)
Theorem GET_image_responses (env : Env) (request : Request) (w : World) :
  (isR2Configured env = false ->
     GET env request w
     = Ret (NextResponse_json false StorageNotConfigured 500) w) /\
  (isR2Configured env = true ->
     key request = None \/ key request = Some EmptyString ->
     GET env request w = Ret (NextResponse_json false MissingKey 400) w) /\
  (forall k : string,
     isR2Configured env = true -> key request = Some k -> k <> EmptyString ->
     let w' := advance (GetObjectCommand k) w in
     (served w = false \/ bucket w !! k = None ->
        exists response,
          GET env request w = Ret response w' /\
          status response = 404%nat /\
          payload response = JsonBody false ImageNotFound) /\
     (forall o : StoredObject,
        served w = true -> bucket w !! k = Some o ->
        exists contentType,
          GET env request w
          = Ret {| status := 200; payload := RawBody (content o);
                   headers := [("Content-Type", contentType);
                               ("Cache-Control",
                                "public, max-age=31536000, immutable")] |} w' /\
          forall e, extension_of k e ->
            let ext := Text.toLowerCase e in
            (ext = "jpg" \/ ext = "jpeg" -> contentType = "image/jpeg") /\
            (ext = "webp" -> contentType = "image/webp") /\
            (ext = "gif" -> contentType = "image/gif") /\
            (ext <> "jpg" -> ext <> "jpeg" -> ext <> "webp" -> ext <> "gif" ->
               contentType = "image/png"))).
Proof.
  rewrite GET_run. split; [|split].
  - intros ->. reflexivity.
  - intros -> [->| ->]; reflexivity.
  - intros k Hc Hk Hne w'. rewrite Hc, Hk. simpl.
    apply isEmpty_false in Hne. rewrite Hne. fold w'. split.
    + intros Hmiss.
      assert (E : (if served w then content <$> bucket w !! k else None)
                  = None).
      { destruct Hmiss as [->| ->]; [reflexivity | now destruct (served w)]. }
      rewrite E. eexists. repeat split.
    + intros o Hs Ho. rewrite Hs, Ho. simpl.
      eexists. split; [reflexivity|].
      intros e He. unfold getContentTypeFromKey.
      rewrite (last_piece_extension _ _ He).
      split; [|split; [|split]].
      * intros [->| ->]; reflexivity.
      * intros ->; reflexivity.
      * intros ->; reflexivity.
      * intros H2 H3 H4 H5.
        apply String.eqb_neq in H2, H3, H4, H5.
        now rewrite H2, H3, H4, H5.
Qed.

End ImageRoute.

(** ** The history ledger: deletion *)

Section Deletion.

Lemma sent_after (c : Command) (w : World) : sent (after c w) = sent w ++ [c].
Proof. unfold after. now destruct (served w). Qed.

Lemma sent_run_all (cs : list Command) (w : World) :
  sent (run_all cs w) = sent w ++ cs.
Proof.
  revert w. induction cs as [|c cs IH]; intros w; simpl.
  - now rewrite app_nil_r.
  - unfold run_all in *. simpl. rewrite IH, sent_after.
    now rewrite <- app_assoc.
Qed.

Lemma deleteHistoryItem_run (userId id_ : string) (w w1 : World)
    (history : list HistoryItem) :
  loadHistory userId w = Ret history w1 ->
  deleteHistoryItem userId id_ w
  = match List.find (fun h => String.eqb (id h) id_) history with
    | Some item =>
        saveHistory userId (without id_ history)
          (run_all ([DeleteObjectCommand (imageKey item);
                     DeleteObjectCommand
                       (getThumbnailKeyFromImageKey (imageKey item))]
                    ++ reference_cleanup id_ history item) w1)
    | None => Ret false w1
    end.
Proof.
  intros Hload. unfold deleteHistoryItem, try_catch, bind at 1.
  rewrite Hload.
  destruct (List.find _ history) as [item|]; [|reflexivity].
  unfold bind. rewrite !deleteImage_run.
  unfold reference_cleanup, stillReferenced, run_all, without, ret.
  destruct (inputImageKey item) as [key|]; simpl.
  - destruct (Text.isEmpty key); simpl.
    + rewrite saveHistory_run. reflexivity.
    + destruct (existsb _ history); simpl.
      * rewrite saveHistory_run. reflexivity.
      * rewrite deleteImage_run. simpl. rewrite saveHistory_run. reflexivity.
  - rewrite saveHistory_run. reflexivity.
Qed.

Lemma find_none_iff (id_ : string) (history : list HistoryItem) :
  List.find (fun h => String.eqb (id h) id_) history = None <->
  forall h, In h history -> id h <> id_.
Proof.
  split.
  - intros H h Hin E.
    apply (find_none _ _ H) in Hin. simpl in Hin.
    apply String.eqb_neq in Hin. contradiction.
  - intros H. destruct (List.find _ history) as [item|] eqn:E; [|reflexivity].
    apply find_some in E as [Hin E]. apply String.eqb_eq in E.
    now apply H in Hin.
Qed.

(** C4. When no item of the loaded history has the id, [deleteHistoryItem]
    returns [false] having sent nothing but the request that loaded the
    history: no blob is deleted, nothing is saved, and the bucket, the
    ledger document with it, is as it was. *)
Theorem deleteHistoryItem_unknown_id (userId id_ : string) (w w1 : World)
    (history : list HistoryItem) :
  loadHistory userId w = Ret history w1 ->
  (forall h, In h history -> id h <> id_) ->
  deleteHistoryItem userId id_ w = Ret false w1 /\
  sent w1 = sent w ++ [GetObjectCommand (getHistoryFileKey userId)] /\
  bucket w1 = bucket w.
Proof.
  intros Hload Hnone.
  rewrite (deleteHistoryItem_run _ _ _ _ _ Hload).
  apply find_none_iff in Hnone. rewrite Hnone.
  apply loadHistory_world in Hload. subst w1. auto.
Qed.

(** In a history without two items of the same id, the item of that id
    is the one [deleteHistoryItem] finds. *)
Lemma find_unique (id_ : string) (history : list HistoryItem)
    (item : HistoryItem) :
  List.NoDup (map id history) -> In item history -> id item = id_ ->
  List.find (fun h => String.eqb (id h) id_) history = Some item.
Proof.
  induction history as [|h history IH]; intros Hnd Hin Hid; [contradiction|].
  simpl in Hnd. apply List.NoDup_cons_iff in Hnd as [Hfresh Hnd]. simpl.
  destruct (String.eqb_spec (id h) id_) as [E|E].
  - destruct Hin as [->|Hin]; [reflexivity|].
    exfalso. apply Hfresh. rewrite E, <- Hid. now apply in_map.
  - destruct Hin as [->|Hin]; [contradiction|]. now apply IH.
Qed.

Lemma stillReferenced_iff (id_ key : string) (history : list HistoryItem) :
  stillReferenced id_ key history = true <->
  exists h, In h history /\ id h <> id_ /\ inputImageKey h = Some key.
Proof.
  unfold stillReferenced, references. rewrite existsb_exists.
  split; intros (h & Hin & H); exists h; split; try assumption.
  - apply andb_true_iff in H as [H1 H2].
    apply negb_true_iff, String.eqb_neq in H1.
    destruct (inputImageKey h) as [k|]; [|discriminate].
    apply String.eqb_eq in H2. now subst.
  - destruct H as [H1 H2]. rewrite H2.
    apply String.eqb_neq in H1. rewrite H1, String.eqb_refl. reflexivity.
Qed.

(** The count of [deleteHistoryItem] as the code takes it, through the
    field [inputImageKey] alone. Deleting the item with the given id (the
    first one of the loaded history, should the id occur twice) whose
    [inputImageKey] is a non-empty key: after the deletions of the output
    image and of its thumbnail, and before the save, the blob under that
    key is deleted when no item with a different id has the same
    [inputImageKey], and no request is sent for it when some other item
    has. A key that another item holds in [inputImageKeys] only does not
    count. *)
Lemma deleteHistoryItem_reference_count (userId id_ key : string)
    (w w1 : World) (history : list HistoryItem) (item : HistoryItem) :
  loadHistory userId w = Ret history w1 ->
  List.find (fun h => String.eqb (id h) id_) history = Some item ->
  inputImageKey item = Some key ->
  key <> EmptyString ->
  exists (b : bool) (w' : World) (cleanup : list Command),
    deleteHistoryItem userId id_ w = Ret b w' /\
    sent w' = sent w1
              ++ [DeleteObjectCommand (imageKey item);
                  DeleteObjectCommand
                    (getThumbnailKeyFromImageKey (imageKey item))]
              ++ cleanup
              ++ [PutObjectCommand (getHistoryFileKey userId)
                    (Text.utf8_encode (JSON_stringify (without id_ history)))
                    "application/json"] /\
    ((exists h, In h history /\ id h <> id_ /\ inputImageKey h = Some key) ->
       cleanup = []) /\
    (~ (exists h, In h history /\ id h <> id_ /\ inputImageKey h = Some key) ->
       cleanup = [DeleteObjectCommand key]).
Proof.
  intros Hload Hfind Hkey Hne.
  rewrite (deleteHistoryItem_run _ _ _ _ _ Hload), Hfind, saveHistory_run.
  do 2 eexists. exists (reference_cleanup id_ history item).
  split; [reflexivity|]. split.
  - rewrite sent_after, sent_run_all, <- !app_assoc. reflexivity.
  - unfold reference_cleanup. rewrite Hkey.
    apply isEmpty_false in Hne. rewrite Hne.
    rewrite <- stillReferenced_iff.
    destruct (stillReferenced id_ key history); split; congruence.
Qed.

Lemma without_spec (id_ : string) (history : list HistoryItem) (h : HistoryItem) :
  In h (without id_ history) <-> In h history /\ id h <> id_.
Proof.
  unfold without. rewrite filter_In, negb_true_iff, String.eqb_neq.
  reflexivity.
Qed.

(** C5. Deleting an item of the loaded history never throws, whatever
    requests the backend fails: between the load and the save only blob
    deletions are sent, each carried out or failed as the backend decides
    and its failure swallowed; the save is always attempted, with the
    loaded history without the items of that id; the result of
    [deleteHistoryItem] is the result of that save, which stores the
    remainder when it is served. *)
Theorem deleteHistoryItem_best_effort (userId id_ : string) (w w1 : World)
    (history : list HistoryItem) (item : HistoryItem) :
  loadHistory userId w = Ret history w1 ->
  List.find (fun h => String.eqb (id h) id_) history = Some item ->
  let document := Text.utf8_encode (JSON_stringify (without id_ history)) in
  let put := PutObjectCommand (getHistoryFileKey userId) document
               "application/json" in
  let deletions :=
    [DeleteObjectCommand (imageKey item);
     DeleteObjectCommand (getThumbnailKeyFromImageKey (imageKey item))]
    ++ reference_cleanup id_ history item in
  let w2 := run_all deletions w1 in
  (forall c, In c deletions -> exists k, c = DeleteObjectCommand k) /\
  sent w2 = sent w1 ++ deletions /\
  deleteHistoryItem userId id_ w
  = saveHistory userId (without id_ history) w2 /\
  saveHistory userId (without id_ history) w2
  = Ret (served w2) (after put w2) /\
  sent (after put w2) = sent w2 ++ [put] /\
  (forall h, In h (without id_ history) <-> In h history /\ id h <> id_) /\
  (served w2 = true ->
     bucket (after put w2) !! getHistoryFileKey userId
     = Some {| content := document; contentType := "application/json" |}).
Proof.
  intros Hload Hfind document put deletions w2.
  rewrite (deleteHistoryItem_run _ _ _ _ _ Hload), Hfind.
  split; [|split; [apply sent_run_all|split; [reflexivity|
    split; [apply saveHistory_run|split; [apply sent_after|split]]]]].
  - intros c. subst deletions. rewrite in_app_iff. unfold reference_cleanup.
    intros [[<-|[<-|[]]]|H]; eauto.
    destruct (inputImageKey item) as [k|]; [|contradiction].
    destruct (Text.isEmpty k); [contradiction|].
    destruct (stillReferenced id_ k history); [contradiction|].
    destruct H as [<-|[]]. eauto.
  - apply without_spec.
  - intros Hs. unfold after. rewrite Hs.
    apply perform_put.
Qed.

Lemma ends_in_jpg_suffix (s : string) :
  ends_in_jpg s = false ->
  forall p e, s = p +:+ e -> Text.fold_case e <> ".jpg".
Proof.
  intros H p e -> E. unfold ends_in_jpg in H.
  assert (L : String.length e = 4%nat).
  { rewrite <- fold_case_length, E. reflexivity. }
  pose proof (substring_tail p e) as S. rewrite L in S.
  rewrite length_append, L in H.
  replace (String.length p + 4 - 4)%nat with (String.length p) in H by lia.
  rewrite S, E in H. discriminate.
Qed.

Lemma getThumbnailKeyFromImageKey_step (c : ascii) (s : string) :
  getThumbnailKeyFromImageKey (String c s)
  = if String.eqb (Text.fold_case (String c s)) ".jpg" then "_thumb.jpg"
    else String c (getThumbnailKeyFromImageKey s).
Proof. reflexivity. Qed.

Lemma getThumbnailKeyFromImageKey_unchanged (s : string) :
  (forall p e, s = p +:+ e -> Text.fold_case e <> ".jpg") ->
  getThumbnailKeyFromImageKey s = s.
Proof.
  induction s as [|c s IH]; intros H; [reflexivity|].
  rewrite getThumbnailKeyFromImageKey_step.
  destruct (String.eqb_spec (Text.fold_case (String c s)) ".jpg") as [E|_].
  - now apply (H EmptyString) in E.
  - f_equal. apply IH. intros p e ->. now apply (H (String c p)).
Qed.

(** On a key that ends in [.jpg] the suffix is replaced. *)
Lemma getThumbnailKeyFromImageKey_jpg (p e : string) :
  Text.fold_case e = ".jpg" ->
  getThumbnailKeyFromImageKey (p +:+ e) = p +:+ "_thumb.jpg".
Proof.
  intros E.
  assert (L : String.length e = 4%nat).
  { rewrite <- fold_case_length, E. reflexivity. }
  induction p as [|c p IH].
  - destruct e as [|c e]; [discriminate|].
    simpl String.append.
    rewrite getThumbnailKeyFromImageKey_step, E. reflexivity.
  - simpl String.append. rewrite getThumbnailKeyFromImageKey_step, IH.
    destruct (String.eqb_spec (Text.fold_case (String c (p +:+ e))) ".jpg")
      as [E'|_]; [|reflexivity].
    apply (f_equal String.length) in E'.
    rewrite fold_case_length in E'. simpl in E'.
    rewrite length_append in E'. lia.
Qed.

(** C10. A key that does not end in [.jpg] (in any case) is its own
    thumbnail key, so deleting an item with such an [imageKey] sends the
    deletion of the image key twice, and no other deletion than that of
    the reference image. *)
Theorem thumbnail_key_of_other_extensions (k : string) :
  ends_in_jpg k = false ->
  getThumbnailKeyFromImageKey k = k /\
  forall (userId id_ : string) (w w1 : World)
         (history : list HistoryItem) (item : HistoryItem),
    loadHistory userId w = Ret history w1 ->
    List.find (fun h => String.eqb (id h) id_) history = Some item ->
    imageKey item = k ->
    exists (b : bool) (w' : World) (rest : list Command),
      deleteHistoryItem userId id_ w = Ret b w' /\
      sent w' = sent w1
                ++ DeleteObjectCommand k :: DeleteObjectCommand k :: rest /\
      forall k', In (DeleteObjectCommand k') rest ->
                 inputImageKey item = Some k'.
Proof.
  intros Hk.
  assert (E : getThumbnailKeyFromImageKey k = k).
  { apply getThumbnailKeyFromImageKey_unchanged.
    now apply ends_in_jpg_suffix. }
  split; [exact E|].
  intros userId id_ w w1 history item Hload Hfind <-.
  rewrite (deleteHistoryItem_run _ _ _ _ _ Hload), Hfind, saveHistory_run.
  do 3 eexists. split; [reflexivity|]. split.
  - rewrite sent_after, sent_run_all, E, <- !app_assoc. reflexivity.
  - intros k'. rewrite in_app_iff. unfold reference_cleanup.
    intros [H|[H|[]]]; [|discriminate].
    destruct (inputImageKey item) as [key|]; [|contradiction].
    destruct (Text.isEmpty key); [contradiction|].
    destruct (stillReferenced id_ key history); [contradiction|].
    destruct H as [[= ->]|[]]. reflexivity.
Qed.

End Deletion.

(** ** The deduplicating input store, twice *)

Section Dedup.

Variable Buffer_from_base64 : string -> list byte.

#[local] Abbreviation store := (uploadInputImageWithDedup Buffer_from_base64).

Lemma fault_nth (w : World) : fault w = nth 0 (faults w) None.
Proof. unfold fault. now destruct (faults w). Qed.

Lemma nth_tail {A} (n : nat) (l : list A) (d : A) :
  nth n (tail l) d = nth (S n) l d.
Proof. destruct l; [now destruct n | reflexivity]. Qed.


End Dedup.

(** ** JSON: reading back what was written *)

Section JsonFacts.

Import Json.

Lemma value_ind' (P : value -> Prop) :
  P Null -> (forall b, P (Bool b)) -> (forall n, P (Number n)) ->
  (forall s, P (Str s)) ->
  (forall vs, Forall P vs -> P (Array vs)) ->
  (forall ms, Forall (fun m => P (snd m)) ms -> P (Object ms)) ->
  forall v, P v.
Proof.
  intros HNull HBool HNum HStr HArr HObj.
  fix IH 1. intros [ | b | n | s | vs | ms].
  - exact HNull.
  - apply HBool.
  - apply HNum.
  - apply HStr.
  - apply HArr. induction vs as [|v vs IHvs]; constructor.
    + apply IH.
    + exact IHvs.
  - apply HObj. induction ms as [|m ms IHms]; constructor.
    + apply IH.
    + exact IHms.
Qed.

(** *** Strings *)

Lemma chars_escape (c : ascii) (r : string) :
  chars (escape c r) = push c (chars r).
Proof.
  destruct c as [[] [] [] [] [] [] [] []]; reflexivity.
Qed.

Lemma chars_quote_body (s k : string) :
  chars (quote_body s (String dquote k)) = Ok s k.
Proof.
  induction s as [|c s IH]; simpl.
  - reflexivity.
  - rewrite chars_escape, IH. reflexivity.
Qed.

(** *** White space *)

Lemma skip_ws_spaces (n : nat) (k : string) :
  skip_ws (spaces n k) = skip_ws k.
Proof. induction n as [|n IH]; [reflexivity | exact IH]. Qed.

Lemma skip_ws_newline (n : nat) (k : string) :
  skip_ws (newline n k) = skip_ws k.
Proof. unfold newline. simpl. apply skip_ws_spaces. Qed.

Lemma skip_ws_opens (c : ascii) (s : string) :
  is_ws c = false -> skip_ws (String c s) = String c s.
Proof. intros H. simpl. now rewrite H. Qed.

(** *** Numbers *)

Lemma follow_not_digit (c : ascii) (k : string) :
  follow (String c k) = true ->
  digit_of c = None /\ starts_fraction (String c k) = false.
Proof.
  simpl. intros H. apply orb_true_iff in H as [H|H];
    apply Ascii.eqb_eq in H; subst c; split; reflexivity.
Qed.

Lemma read_digits_digits (d : Decimal.uint) (k : string) :
  follow k = true -> read_digits (digits d k) = (d, k).
Proof.
  intros Hk.
  induction d as [|d IH|d IH|d IH|d IH|d IH|d IH|d IH|d IH|d IH|d IH];
    simpl; try (rewrite IH; reflexivity).
  destruct k as [|c k]; [reflexivity|].
  apply follow_not_digit in Hk as [Hk _]. simpl. now rewrite Hk.
Qed.

Lemma to_uint_canonical (n : N) :
  N.to_uint n = Decimal.D0 Decimal.Nil \/
  (N.to_uint n <> Decimal.Nil /\ forall d, N.to_uint n <> Decimal.D0 d).
Proof.
  pose proof (DecimalN.Unsigned.to_of (N.to_uint n)) as H.
  rewrite DecimalN.Unsigned.of_to in H. unfold Decimal.unorm in H.
  destruct (Decimal.nzhead (N.to_uint n)) eqn:E; rewrite H;
    try (right; split; [discriminate|]; intros d' E';
         rewrite <- E in E'; rewrite H in E';
         discriminate).
  - now left.
  - exfalso. exact (DecimalFacts.nzhead_nonzero _ _ E).
Qed.

Lemma unsigned_digits (neg : bool) (n : N) (k : string) :
  follow k = true ->
  (Z.of_N n <= MAX_SAFE_INTEGER)%Z ->
  unsigned neg (digits (N.to_uint n) k)
  = Ok (Number (if neg then - Z.of_N n else Z.of_N n)%Z) k.
Proof.
  intros Hk Hn. unfold unsigned. rewrite read_digits_digits by assumption.
  assert (M : magnitude neg (N.to_uint n) k
              = Ok (Number (if neg then - Z.of_N n else Z.of_N n)%Z) k).
  { unfold magnitude. rewrite DecimalN.Unsigned.of_to.
    assert (F : starts_fraction k = false).
    { destruct k as [|c k]; [reflexivity|].
      now apply follow_not_digit in Hk as [_ Hk]. }
    rewrite F. apply Z.leb_le in Hn. now rewrite Hn. }
  destruct (to_uint_canonical n) as [E|[E1 E2]].
  - rewrite E in *. exact M.
  - destruct (N.to_uint n) as [|d|d|d|d|d|d|d|d|d|d]; try exact M.
    + congruence.
    + now destruct (E2 d).
Qed.

Lemma parse_value_digit (fuel : nat) (c : ascii) (s : string) :
  digit_of c <> None ->
  parse_value (S fuel) (String c s) = unsigned false (String c s).
Proof.
  destruct c as [[] [] [] [] [] [] [] []]; intros H;
    solve [reflexivity | now destruct H].
Qed.

Lemma digits_head (d : Decimal.uint) (k : string) :
  d <> Decimal.Nil ->
  exists c s, digits d k = String c s /\ digit_of c <> None /\ opens c = true.
Proof.
  destruct d; intros H; [congruence | ..];
    simpl; do 2 eexists; (split; [reflexivity|]); split;
    (discriminate || reflexivity).
Qed.

Lemma to_uint_nonnil (n : N) : N.to_uint n <> Decimal.Nil.
Proof.
  destruct (to_uint_canonical n) as [E|[E _]]; [rewrite E; discriminate | exact E].
Qed.

Lemma parse_value_number (fuel : nat) (n : Z) (k : string) :
  follow k = true ->
  (Z.abs n <= MAX_SAFE_INTEGER)%Z ->
  parse_value (S fuel) (number n k) = Ok (Number n) k.
Proof.
  intros Hk Hn. unfold number.
  assert (Pos : forall m : N, (Z.of_N m <= MAX_SAFE_INTEGER)%Z ->
            parse_value (S fuel) (digits (N.to_uint m) k)
            = Ok (Number (Z.of_N m)) k).
  { intros m Hm.
    destruct (digits_head (N.to_uint m) k (to_uint_nonnil m))
      as (c & s & E & Hc & _).
    rewrite E, parse_value_digit, <- E by assumption.
    now apply (unsigned_digits false). }
  destruct n as [|p|p].
  - apply (Pos 0%N). simpl. unfold MAX_SAFE_INTEGER. lia.
  - apply (Pos (Npos p)). simpl in *. lia.
  - change (parse_value (S fuel) (String "-" (digits (N.to_uint (Npos p)) k)))
      with (unsigned true (digits (N.to_uint (Npos p)) k)).
    rewrite unsigned_digits; [reflexivity | assumption |].
    simpl in *. lia.
Qed.

(** *** Arrays and objects *)

Lemma write_head (ind : nat) (v : value) (k : string) :
  exists c s, write ind v k = String c s /\ opens c = true.
Proof.
  destruct v as [ | [] | n | x | [|v vs] | [|m ms]];
    try (simpl; do 2 eexists; split; reflexivity).
  destruct n as [|q|q]; simpl.
  - do 2 eexists; split; reflexivity.
  - destruct (digits_head (N.to_uint (Npos q)) k (to_uint_nonnil _))
      as (c & s & E & _ & H). eauto.
  - do 2 eexists; split; reflexivity.
Qed.

Lemma skip_ws_write (ind : nat) (v : value) (k : string) :
  skip_ws (write ind v k) = write ind v k.
Proof.
  destruct (write_head ind v k) as (c & s & E & H). rewrite E.
  apply skip_ws_opens. unfold opens in H.
  now destruct (is_ws c).
Qed.

Lemma follow_rest_items {A} (item : A -> string -> string) (ind : nat)
    (close : ascii) (k : string) (l : list A) :
  follow (rest_items item ind close k l) = true.
Proof. destruct l; reflexivity. Qed.

Lemma nodes_pos (v : value) : (1 <= nodes v)%nat.
Proof. destruct v; simpl; lia. Qed.

Lemma length_le_nodes (vs : list value) :
  (length vs <= list_sum (map nodes vs))%nat.
Proof.
  induction vs as [|v vs IH]; simpl; [lia|].
  pose proof (nodes_pos v). lia.
Qed.

Lemma elements_S (p : string -> result value) (n : nat) (s : string) :
  elements p (S n) s
  = Json.bind (p s) (fun v r =>
      match skip_ws r with
      | String c r' =>
          if Ascii.eqb c "," then
            Json.bind (elements p n (skip_ws r'))
                      (fun vs r'' => Ok (v :: vs) r'')
          else if Ascii.eqb c "]" then Ok [v] r'
          else SyntaxError
      | EmptyString => SyntaxError
      end).
Proof. reflexivity. Qed.

(** Reading the elements of a written array, given a reader [p] that reads
    back each of them. *)
Lemma elements_rest_items (p : string -> result value) (ind : nat)
    (k : string) (vs : list value) :
  forall (v1 : value) (n : nat),
    (length (v1 :: vs) <= n)%nat ->
    (forall v k', In v (v1 :: vs) -> follow k' = true ->
                  p (write (S (S ind)) v k') = Ok v k') ->
    elements p n
      (write (S (S ind)) v1 (rest_items (write (S (S ind))) ind "]" k vs))
    = Ok (v1 :: vs) k.
Proof.
  induction vs as [|v2 vs IH]; intros v1 n Hn Hp;
    (destruct n as [|n]; [simpl in Hn; lia|]);
    rewrite elements_S, Hp
      by (first [now left | apply follow_rest_items]).
  - simpl rest_items. simpl Json.bind.
    rewrite ?skip_ws_newline, ?skip_ws_spaces. reflexivity.
  - simpl rest_items. simpl Json.bind.
    rewrite ?skip_ws_newline, ?skip_ws_spaces, skip_ws_write.
    rewrite IH; [reflexivity | simpl in *; lia |].
    intros v k' Hin. apply Hp. now right.
Qed.

Lemma members_S (p : string -> result value) (n : nat) (s1 : string) :
  members p (S n) (String dquote s1)
  = Json.bind (chars s1) (fun key r =>
      match skip_ws r with
      | String c r1 =>
          if Ascii.eqb c ":" then
            Json.bind (p (skip_ws r1)) (fun v r2 =>
              match skip_ws r2 with
              | String c' r3 =>
                  if Ascii.eqb c' "," then
                    Json.bind (members p n (skip_ws r3))
                              (fun ms r4 => Ok ((key, v) :: ms) r4)
                  else if Ascii.eqb c' "}" then Ok [(key, v)] r3
                  else SyntaxError
              | EmptyString => SyntaxError
              end)
          else SyntaxError
      | EmptyString => SyntaxError
      end).
Proof. reflexivity. Qed.

Lemma members_rest_items (p : string -> result value) (ind : nat)
    (k : string) (ms : list (string * value)) :
  forall (m1 : string * value) (n : nat),
    (length (m1 :: ms) <= n)%nat ->
    (forall m k', In m (m1 :: ms) -> follow k' = true ->
                  p (write (S (S ind)) (snd m) k') = Ok (snd m) k') ->
    members p n
      (member (write (S (S ind))) m1
         (rest_items (member (write (S (S ind)))) ind "}" k ms))
    = Ok (m1 :: ms) k.
Proof.
  induction ms as [|m2 ms IH]; intros [k1 v1] n Hn Hp;
    (destruct n as [|n]; [simpl in Hn; lia|]);
    unfold member at 1, quote; simpl fst; simpl snd;
    rewrite members_S, chars_quote_body; simpl Json.bind;
    rewrite skip_ws_write, (Hp (k1, v1))
      by (first [now left | apply follow_rest_items || reflexivity]).
  - simpl Json.bind.
    rewrite ?skip_ws_newline, ?skip_ws_spaces. reflexivity.
  - simpl Json.bind.
    rewrite ?skip_ws_newline, ?skip_ws_spaces.
    assert (W : forall r, skip_ws (member (write (S (S ind))) m2 r)
                          = member (write (S (S ind))) m2 r) by reflexivity.
    rewrite W, IH; [reflexivity | simpl in *; lia |].
    intros m k' Hin. apply Hp. now right.
Qed.

Lemma parse_value_array (fuel : nat) (s' : string) :
  parse_value (S fuel) (String "[" s')
  = match skip_ws s' with
    | String c' r =>
        if Ascii.eqb c' "]" then Ok (Array []) r
        else Json.bind (elements (parse_value fuel) fuel (skip_ws s'))
                       (fun vs r' => Ok (Array vs) r')
    | EmptyString => SyntaxError
    end.
Proof. reflexivity. Qed.

Lemma parse_value_object (fuel : nat) (s' : string) :
  parse_value (S fuel) (String "{" s')
  = match skip_ws s' with
    | String c' r =>
        if Ascii.eqb c' "}" then Ok (Object []) r
        else Json.bind (members (parse_value fuel) fuel (skip_ws s'))
                       (fun ms r' => Ok (Object ms) r')
    | EmptyString => SyntaxError
    end.
Proof. reflexivity. Qed.

Lemma parse_value_string (fuel : nat) (s' : string) :
  parse_value (S fuel) (String dquote s')
  = Json.bind (chars s') (fun x r => Ok (Str x) r).
Proof. reflexivity. Qed.

(** What [write] produces, [parse_value] reads back, given fuel for the
    nodes of the value. *)
Lemma parse_value_write (v : value) :
  safe v = true ->
  forall (fuel ind : nat) (k : string),
    (nodes v <= fuel)%nat -> follow k = true ->
    parse_value fuel (write ind v k) = Ok v k.
Proof.
  induction v as [ | b | n | x | vs IH | ms IH] using value_ind';
    intros Hsafe fuel ind k Hfuel Hk;
    (destruct fuel as [|fuel]; [simpl in Hfuel; lia|]).
  - reflexivity.
  - destruct b; reflexivity.
  - apply parse_value_number; [assumption|].
    simpl in Hsafe. now apply Z.leb_le.
  - unfold write, quote. rewrite parse_value_string, chars_quote_body.
    reflexivity.
  - destruct vs as [|v1 vs]; [reflexivity|].
    change (write ind (Array (v1 :: vs)) k)
      with (String "[" (newline (S (S ind)) (write (S (S ind)) v1
              (rest_items (write (S (S ind))) ind "]" k vs)))).
    rewrite parse_value_array, skip_ws_newline, skip_ws_write.
    destruct (write_head (S (S ind)) v1
                (rest_items (write (S (S ind))) ind "]" k vs))
      as (c & s & E & Hc).
    rewrite E. unfold opens in Hc.
    destruct (Ascii.eqb c "]"); [now rewrite andb_false_r in Hc|].
    rewrite <- E, elements_rest_items; [reflexivity | |].
    + pose proof (length_le_nodes (v1 :: vs)). simpl in *. lia.
    + intros v k' Hin Hk'.
      change (forallb safe (v1 :: vs) = true) in Hsafe.
      rewrite forallb_forall in Hsafe. rewrite List.Forall_forall in IH.
      apply IH; [assumption | now apply Hsafe | | assumption].
      assert (nodes v <= list_sum (map nodes (v1 :: vs)))%nat.
      { clear -Hin. induction (v1 :: vs) as [|a l IHl]; [contradiction|].
        simpl. destruct Hin as [->|Hin]; [lia|]. apply IHl in Hin. lia. }
      simpl in *. lia.
  - destruct ms as [|m1 ms]; [reflexivity|].
    change (write ind (Object (m1 :: ms)) k)
      with (String "{" (newline (S (S ind)) (member (write (S (S ind))) m1
              (rest_items (member (write (S (S ind)))) ind "}" k ms)))).
    rewrite parse_value_object, skip_ws_newline.
    assert (W : forall r, skip_ws (member (write (S (S ind))) m1 r)
                          = member (write (S (S ind))) m1 r) by reflexivity.
    rewrite W.
    change (member (write (S (S ind))) m1
              (rest_items (member (write (S (S ind)))) ind "}" k ms))
      with (String dquote (quote_body (fst m1) (String dquote (String ":"
              (String " " (write (S (S ind)) (snd m1)
                 (rest_items (member (write (S (S ind)))) ind "}" k ms)))))))
      at 1.
    change (Ascii.eqb dquote "}") with false. cbv iota.
    rewrite members_rest_items; [reflexivity | |].
    + pose proof (length_le_nodes (map snd (m1 :: ms))).
      rewrite length_map, map_map in H. simpl in *. lia.
    + intros m k' Hin Hk'.
      change (forallb (fun m => safe (snd m)) (m1 :: ms) = true) in Hsafe.
      rewrite forallb_forall in Hsafe. rewrite List.Forall_forall in IH.
      apply IH; [assumption | now apply Hsafe | | assumption].
      assert (nodes (snd m)
              <= list_sum (map (fun m => nodes (snd m)) (m1 :: ms)))%nat.
      { clear -Hin. induction (m1 :: ms) as [|a l IHl]; [contradiction|].
        simpl. destruct Hin as [->|Hin]; [lia|]. apply IHl in Hin. lia. }
      simpl in *. lia.
Qed.

(** *** The length of a written value bounds its number of nodes *)

Lemma length_spaces (n : nat) (k : string) :
  String.length (spaces n k) = (n + String.length k)%nat.
Proof. induction n as [|n IH]; simpl; [reflexivity | now rewrite IH]. Qed.

Lemma length_escape (c : ascii) (k : string) :
  (String.length k <= String.length (escape c k))%nat.
Proof. destruct c as [[] [] [] [] [] [] [] []]; simpl; lia. Qed.

Lemma length_quote_body (s k : string) :
  (String.length k <= String.length (quote_body s k))%nat.
Proof.
  induction s as [|c s IH]; simpl; [lia|].
  pose proof (length_escape c (quote_body s k)). lia.
Qed.

Lemma length_quote (s k : string) :
  (2 + String.length k <= String.length (quote s k))%nat.
Proof.
  unfold quote. simpl.
  pose proof (length_quote_body s (String dquote k)). simpl in *. lia.
Qed.

Lemma length_digits (d : Decimal.uint) (k : string) :
  (String.length k <= String.length (digits d k))%nat.
Proof. induction d; simpl; lia. Qed.

Lemma length_number (n : Z) (k : string) :
  (1 + String.length k <= String.length (number n k))%nat.
Proof.
  assert (H : forall m, (1 + String.length k
                         <= String.length (digits (N.to_uint m) k))%nat).
  { intros m. pose proof (to_uint_nonnil m) as Hm.
    destruct (N.to_uint m) as [|d|d|d|d|d|d|d|d|d|d]; [congruence|..];
      simpl; pose proof (length_digits d k); lia. }
  destruct n as [|q|q]; simpl.
  - lia.
  - apply (H (Npos q)).
  - pose proof (H (Npos q)) as Hq. simpl in Hq. lia.
Qed.

Lemma length_rest_items {A} (item : A -> string -> string) (sz : A -> nat)
    (ind : nat) (close : ascii) (k : string) (l : list A) :
  (forall x k', In x l ->
     (sz x + String.length k' <= String.length (item x k'))%nat) ->
  (list_sum (map sz l) + String.length k
   <= String.length (rest_items item ind close k l))%nat.
Proof.
  induction l as [|x l IH]; intros H; simpl.
  - rewrite length_spaces. simpl. lia.
  - rewrite length_spaces.
    pose proof (H x (rest_items item ind close k l) (or_introl eq_refl)).
    assert (IH' := IH (fun y k' Hy => H y k' (or_intror Hy))). lia.
Qed.

Lemma nodes_le_length (v : value) :
  forall (ind : nat) (k : string),
    (nodes v + String.length k <= String.length (write ind v k))%nat.
Proof.
  induction v as [ | b | n | x | vs IH | ms IH] using value_ind';
    intros ind k.
  - simpl. lia.
  - destruct b; simpl; lia.
  - apply length_number.
  - pose proof (length_quote x k). simpl in *. lia.
  - destruct vs as [|v1 vs]; [simpl; lia|].
    rewrite List.Forall_forall in IH.
    change (write ind (Array (v1 :: vs)) k)
      with (String "[" (newline (S (S ind)) (write (S (S ind)) v1
              (rest_items (write (S (S ind))) ind "]" k vs)))).
    unfold newline. simpl String.length. rewrite length_spaces.
    pose proof (IH v1 (or_introl eq_refl) (S (S ind))
                  (rest_items (write (S (S ind))) ind "]" k vs)).
    pose proof (length_rest_items (write (S (S ind))) nodes ind "]" k vs
                  (fun x k' Hx => IH x (or_intror Hx) (S (S ind)) k')).
    simpl nodes. lia.
  - destruct ms as [|m1 ms]; [simpl; lia|].
    rewrite List.Forall_forall in IH.
    change (write ind (Object (m1 :: ms)) k)
      with (String "{" (newline (S (S ind)) (member (write (S (S ind))) m1
              (rest_items (member (write (S (S ind)))) ind "}" k ms)))).
    unfold newline. simpl String.length. rewrite length_spaces.
    assert (M : forall m k', In m (m1 :: ms) ->
              (nodes (snd m) + String.length k'
               <= String.length (member (write (S (S ind))) m k'))%nat).
    { intros m k' Hm. unfold member.
      pose proof (length_quote (fst m)
                    (String ":" (String " " (write (S (S ind)) (snd m) k')))).
      pose proof (IH m Hm (S (S ind)) k'). simpl in *. lia. }
    pose proof (M m1 (rest_items (member (write (S (S ind)))) ind "}" k ms)
                  (or_introl eq_refl)).
    pose proof (length_rest_items (member (write (S (S ind))))
                  (fun m => nodes (snd m)) ind "}" k ms
                  (fun x k' Hx => M x k' (or_intror Hx))).
    simpl nodes. lia.
Qed.

(** [JSON.parse(JSON.stringify(v, null, 2))] gives [v] back. *)
Lemma parse_stringify (v : value) :
  safe v = true -> parse (stringify v) = Ok v EmptyString.
Proof.
  intros Hsafe. unfold parse, stringify.
  rewrite skip_ws_write, parse_value_write; [reflexivity | assumption | | reflexivity].
  pose proof (nodes_le_length v 0 EmptyString). simpl in *. lia.
Qed.

End JsonFacts.

(** ** The history ledger: the document *)

Section Document.

Lemma utf8_decode_unit (c : ascii) (bs : list byte) :
  Text.utf8_decode (Text.utf8_unit c ++ bs)
  = option_map (String c) (Text.utf8_decode bs).
Proof. destruct c as [[] [] [] [] [] [] [] []]; reflexivity. Qed.

Lemma utf8_decode_encode (s : string) :
  Text.utf8_decode (Text.utf8_encode s) = Some s.
Proof.
  induction s as [|c s IH]; [reflexivity|].
  simpl Text.utf8_encode. now rewrite utf8_decode_unit, IH.
Qed.

Lemma mode_of_name_mode_name (m : Mode) : mode_of_name (mode_name m) = Some m.
Proof. now destruct m. Qed.

Lemma as_strings_strings (l : list string) : as_strings (strings l) = Some l.
Proof.
  unfold as_strings, strings.
  induction l as [|x l IH]; [reflexivity|].
  simpl. simpl in IH. now rewrite IH.
Qed.

Lemma safe_strings (l : list string) :
  forallb safe (map Json.Str l) = true.
Proof. now induction l. Qed.

#[local] Arguments as_strings : simpl never.
#[local] Arguments strings : simpl never.

Lemma item_of_json_item_to_json (h : HistoryItem) :
  item_of_json (item_to_json h) = Some h.
Proof.
  destruct h as [i t p [] ml ik [ar|] [k|] [hh|] [ks|] [hs|]];
    unfold item_of_json, item_to_json; simpl;
    rewrite ?as_strings_strings; simpl;
    rewrite ?as_strings_strings; reflexivity.
Qed.

Lemma safe_item_to_json (h : HistoryItem) :
  safe (item_to_json h) = safe_item h.
Proof.
  destruct h as [i t p mo ml ik [ar|] [k|] [hh|] [ks|] [hs|]];
    unfold safe_item; simpl; rewrite ?safe_strings, ?andb_true_r;
    reflexivity.
Qed.

Lemma history_of_json_history_to_json (history : list HistoryItem) :
  history_of_json (history_to_json history) = Some history.
Proof.
  unfold history_of_json, history_to_json.
  induction history as [|h history IH]; [reflexivity|].
  change (mapM item_of_json (map item_to_json (h :: history)))
    with (item_of_json (item_to_json h) ≫= fun y =>
          mapM item_of_json (map item_to_json history) ≫= fun k =>
          mret (y :: k)).
  now rewrite item_of_json_item_to_json, IH.
Qed.

Lemma safe_history_to_json (history : list HistoryItem) :
  forallb safe_item history = true ->
  safe (history_to_json history) = true.
Proof.
  unfold history_to_json. simpl.
  induction history as [|h history IH]; [reflexivity|].
  change (forallb safe (map item_to_json (h :: history)))
    with (safe (item_to_json h) && forallb safe (map item_to_json history)).
  rewrite safe_item_to_json. intros H.
  apply andb_true_iff in H as [-> H]. now apply IH.
Qed.

(** [JSON.parse(JSON.stringify(history, null, 2))] is the history. *)
Lemma JSON_parse_stringify (history : list HistoryItem) (w : World) :
  forallb safe_item history = true ->
  JSON_parse (JSON_stringify history) w = Ret history w.
Proof.
  intros H. unfold JSON_parse, JSON_stringify.
  rewrite parse_stringify by now apply safe_history_to_json.
  now rewrite history_of_json_history_to_json.
Qed.

Lemma loadHistory_stored (userId contentType : string)
    (history : list HistoryItem) (w : World) :
  fault w = None ->
  bucket w !! getHistoryFileKey userId
  = Some {| content := Text.utf8_encode (JSON_stringify history);
            contentType := contentType |} ->
  forallb safe_item history = true ->
  loadHistory userId w
  = Ret history (advance (GetObjectCommand (getHistoryFileKey userId)) w).
Proof.
  intros Hf Hb Hs.
  unfold loadHistory, try_catch, bind, send, transformToString.
  rewrite Hf, Hb. simpl. rewrite utf8_decode_encode. unfold ret.
  now rewrite JSON_parse_stringify.
Qed.

(** C8. Saving a history and loading it for the same user returns the
    saved items in the saved order, for every history whose timestamps are
    integers that JavaScript holds exactly and with a backend that serves
    the two requests: the document written by [JSON.stringify] and sent as
    UTF-8 is decoded and parsed back to the same items. *)
Theorem save_then_load (userId : string) (history : list HistoryItem)
    (w : World) :
  forallb safe_item history = true ->
  nth 0 (faults w) None = None ->
  nth 1 (faults w) None = None ->
  exists w1 w2 : World,
    saveHistory userId history w = Ret true w1 /\
    bucket w1 !! getHistoryFileKey userId
    = Some {| content := Text.utf8_encode (JSON_stringify history);
              contentType := "application/json" |} /\
    loadHistory userId w1 = Ret history w2.
Proof.
  intros Hs H0 H1. rewrite saveHistory_run.
  unfold after, served. rewrite fault_nth, H0.
  do 2 eexists. split; [reflexivity|].
  assert (B : bucket (perform (PutObjectCommand (getHistoryFileKey userId)
                        (Text.utf8_encode (JSON_stringify history))
                        "application/json") w)
              !! getHistoryFileKey userId
              = Some {| content := Text.utf8_encode (JSON_stringify history);
                        contentType := "application/json" |}).
  { simpl. apply lookup_insert_eq. }
  split; [exact B|].
  eapply loadHistory_stored; [|exact B|exact Hs].
  rewrite fault_nth. simpl. now rewrite nth_tail.
Qed.

(** *** Adding items *)

Lemma addHistoryItem_run (userId : string) (item : HistoryItem)
    (w w1 : World) (history : list HistoryItem) :
  loadHistory userId w = Ret history w1 ->
  addHistoryItem userId item w
  = saveHistory userId (firstn 100 (item :: history)) w1.
Proof.
  intros H. unfold addHistoryItem, try_catch, bind. rewrite H.
  rewrite saveHistory_run. reflexivity.
Qed.

Lemma firstn_app_firstn {A} (n : nat) (a b : list A) :
  firstn n (a ++ firstn n b) = firstn n (a ++ b).
Proof.
  rewrite !firstn_app, firstn_firstn. f_equal. f_equal. lia.
Qed.

Lemma forallb_firstn {A} (f : A -> bool) (n : nat) (l : list A) :
  forallb f l = true -> forallb f (firstn n l) = true.
Proof.
  revert n. induction l as [|x l IH]; intros [|n]; simpl; try reflexivity.
  intros H. apply andb_true_iff in H as [-> H]. now apply IH.
Qed.

Lemma loadHistory_ledger (userId : string) (h : list HistoryItem) (w : World) :
  ledger userId h w -> forallb safe_item h = true ->
  loadHistory userId w
  = Ret h (advance (GetObjectCommand (getHistoryFileKey userId)) w).
Proof.
  intros [Hf [Hb|[-> Hb]]] Hs.
  - eapply loadHistory_stored; [|exact Hb|exact Hs].
    unfold fault. now rewrite Hf.
  - apply loadHistory_empty. now right.
Qed.

Lemma addHistoryItem_ledger (userId : string) (item : HistoryItem)
    (h : list HistoryItem) (w : World) :
  ledger userId h w -> forallb safe_item h = true ->
  exists w', addHistoryItem userId item w = Ret true w' /\
             ledger userId (firstn 100 (item :: h)) w'.
Proof.
  intros L Hs.
  rewrite (addHistoryItem_run _ _ _ _ _ (loadHistory_ledger _ _ _ L Hs)).
  rewrite saveHistory_run. destruct L as [Hf _].
  assert (Hf' : faults (advance (GetObjectCommand (getHistoryFileKey userId)) w)
                = []).
  { unfold advance. cbn [faults]. now rewrite Hf. }
  unfold after, served, fault. rewrite Hf'.
  eexists. split; [reflexivity|].
  destruct (perform_put (getHistoryFileKey userId) "application/json"
              (Text.utf8_encode (JSON_stringify (firstn 100 (item :: h))))
              (advance (GetObjectCommand (getHistoryFileKey userId)) w))
    as [F B].
  split; [now rewrite F, Hf' | now left].
Qed.

Lemma addHistoryItems_ledger (userId : string) (items : list HistoryItem) :
  forall (h : list HistoryItem) (w : World),
    ledger userId h w -> (length h <= 100)%nat ->
    forallb safe_item h = true -> forallb safe_item items = true ->
    exists w', addHistoryItems userId items w = Ret true w' /\
               ledger userId (firstn 100 (rev items ++ h)) w'.
Proof.
  induction items as [|x items IH]; intros h w L Hl Hh Hi.
  - exists w. split; [reflexivity|].
    simpl. now rewrite firstn_all2 by exact Hl.
  - apply andb_true_iff in Hi as [Hx Hi].
    destruct (addHistoryItem_ledger userId x h w L Hh) as (w1 & E1 & L1).
    destruct (IH (firstn 100 (x :: h)) w1 L1) as (w2 & E2 & L2).
    + rewrite length_firstn. lia.
    + apply forallb_firstn. simpl. now rewrite Hx.
    + exact Hi.
    + exists w2. split.
      * simpl. unfold bind. rewrite E1, E2. reflexivity.
      * rewrite firstn_app_firstn in L2.
        simpl rev. now rewrite <- app_assoc.
Qed.

(** C2. [addHistoryItem] saves the first 100 elements of the loaded
    history with the new item put in front: the item is at index 0 of what
    is saved and at most 100 items are saved. From an empty ledger (no
    document, or the document of the empty history) and with a backend
    that serves every request, after 101 items were added one after the
    other the ledger document holds exactly the 100 items added last,
    newest first, and the item added first, when it differs from the later
    ones, is not among them. *)
Theorem addHistoryItem_prepends_and_caps (userId : string) :
  (forall (item : HistoryItem) (w w1 : World) (history : list HistoryItem),
     loadHistory userId w = Ret history w1 ->
     let saved := firstn 100 (item :: history) in
     addHistoryItem userId item w = saveHistory userId saved w1 /\
     saved = item :: firstn 99 history /\
     nth_error saved 0 = Some item /\
     (length saved <= 100)%nat) /\
  (forall (first : HistoryItem) (rest : list HistoryItem) (w : World),
     length rest = 100%nat ->
     forallb safe_item (first :: rest) = true ->
     ~ In first rest ->
     ledger userId [] w ->
     exists w' w'' : World,
       addHistoryItems userId (first :: rest) w = Ret true w' /\
       bucket w' !! getHistoryFileKey userId
       = Some {| content := Text.utf8_encode (JSON_stringify (rev rest));
                 contentType := "application/json" |} /\
       loadHistory userId w' = Ret (rev rest) w'' /\
       length (rev rest) = 100%nat /\
       ~ In first (rev rest)).
Proof.
  split.
  - intros item w w1 history Hload saved.
    split; [now apply addHistoryItem_run|].
    subst saved. repeat split. rewrite length_firstn. lia.
  - intros first rest w Hlen Hsafe Hnotin Hempty.
    destruct (addHistoryItems_ledger userId (first :: rest) [] w)
      as (w' & E & L); [exact Hempty | simpl; lia | reflexivity | exact Hsafe |].
    assert (R : firstn 100 (rev (first :: rest) ++ []) = rev rest).
    { rewrite app_nil_r. simpl rev. rewrite firstn_app, length_rev, Hlen.
      rewrite firstn_all2 by (rewrite length_rev; lia).
      simpl. apply app_nil_r. }
    rewrite R in L.
    assert (S : forallb safe_item (rev rest) = true).
    { simpl in Hsafe. apply andb_true_iff in Hsafe as [_ Hsafe].
      rewrite forallb_forall in *. intros x Hx. apply Hsafe.
      now apply in_rev. }
    exists w'. eexists. split; [exact E|]. split; [|split; [|split]].
    + destruct L as [_ [B|[Hnil _]]]; [exact B|].
      apply (f_equal (@length _)) in Hnil.
      rewrite length_rev, Hlen in Hnil. discriminate.
    + now apply loadHistory_ledger.
    + now rewrite length_rev.
    + intros Hin. apply Hnotin. now apply in_rev.
Qed.

End Document.

(* ===================================================================== *)
(** * The properties at work                                              *)
(* ===================================================================== *)

(** ** Two generations of user [A] from one reference image *)

Definition first_generation : HistoryItem := generation "1700000000000_aaa" 1700000000000.
Definition second_generation : HistoryItem := generation "1700000000001_bbb" 1700000000001.
Definition both : list HistoryItem := [second_generation; first_generation].

Lemma loadHistory_both (failures : list (option Error)) :
  loadHistory "A" (stored "A" both (None :: failures))
  = Ret both (advance (GetObjectCommand (getHistoryFileKey "A"))
                      (stored "A" both (None :: failures))).
Proof. now apply loadHistory_stored with (contentType := "application/json"). Qed.

(** Deleting the first generation leaves the reference image alone, the
    second one still refers to it. *)
Lemma deleteHistoryItem_reference_count_witness :
  exists (b : bool) (w' : World),
    deleteHistoryItem "A" (id first_generation) (stored "A" both [None]) = Ret b w' /\
    sent w'
    = [GetObjectCommand (getHistoryFileKey "A");
       DeleteObjectCommand (imageKey first_generation);
       DeleteObjectCommand (getThumbnailKey "A" (id first_generation));
       PutObjectCommand (getHistoryFileKey "A")
         (Text.utf8_encode (JSON_stringify [second_generation]))
         "application/json"].
Proof.
  destruct (deleteHistoryItem_reference_count
              "A" (id first_generation) "inputs/A/h1.jpg"
              _ _ both first_generation
              (loadHistory_both []) eq_refl eq_refl ltac:(discriminate))
    as (b & w' & cleanup & E & S & Hshared & _).
  exists b, w'. split; [exact E|].
  rewrite S, Hshared; [reflexivity|].
  exists second_generation. split; [now left|]. split; [discriminate|reflexivity].
Defined.

(** Deleting an id the history does not have. *)
Lemma deleteHistoryItem_unknown_id_witness :
  let w := stored "A" both [None] in
  let w1 := advance (GetObjectCommand (getHistoryFileKey "A")) w in
  deleteHistoryItem "A" "1700000000002_ccc" w = Ret false w1 /\
  sent w1 = sent w ++ [GetObjectCommand (getHistoryFileKey "A")] /\
  bucket w1 = bucket w.
Proof.
  apply (deleteHistoryItem_unknown_id _ _ _ _ both (loadHistory_both [])).
  intros h [<-|[<-|[]]]; discriminate.
Defined.

(** Deleting the only generation while the backend fails the three blob
    deletions: the save goes through and the ledger is empty. *)
Lemma deleteHistoryItem_best_effort_witness :
  let w := stored "A" [first_generation]
             [None; Some unavailable; Some unavailable; Some unavailable] in
  exists w2 : World,
    deleteHistoryItem "A" (id first_generation) w
    = Ret true
          (perform (PutObjectCommand (getHistoryFileKey "A")
                      (Text.utf8_encode (JSON_stringify []))
                      "application/json") w2) /\
    bucket w2 = bucket w /\
    sent w2 = [GetObjectCommand (getHistoryFileKey "A");
               DeleteObjectCommand (imageKey first_generation);
               DeleteObjectCommand (getThumbnailKey "A" (id first_generation));
               DeleteObjectCommand "inputs/A/h1.jpg"].
Proof.
  intros w.
  assert (L : loadHistory "A" w
              = Ret [first_generation]
                    (advance (GetObjectCommand (getHistoryFileKey "A")) w)).
  { now apply loadHistory_stored with (contentType := "application/json"). }
  destruct (deleteHistoryItem_best_effort
              "A" (id first_generation) _ _ [first_generation]
              first_generation L eq_refl)
    as (_ & S & E & R & _).
  eexists. rewrite E, R. split; [reflexivity|]. split; [reflexivity|].
  rewrite S. reflexivity.
Defined.

(** A key with another extension has no thumbnail key of its own. *)
Lemma thumbnail_key_of_other_extensions_witness :
  getThumbnailKeyFromImageKey "images/A/1700000000000_aaa.png"
  = "images/A/1700000000000_aaa.png".
Proof.
  apply (thumbnail_key_of_other_extensions "images/A/1700000000000_aaa.png").
  reflexivity.
Defined.

(** ** The input store on a payload *)

Definition payload_png : string := "data:image/png;base64,aGVsbG8gd29ybGQ=".

(** The same bytes as [payload_png], declared as a JPEG. *)
Definition payload_jpeg : string := "data:image/jpeg;base64,aGVsbG8gd29ybGQ=".




Lemma input_keys_namespaced_by_user_witness :
  exists (r1 r2 r3 : Stored) (w1 w2 w3 : World),
    uploadInputImageWithDedup base64_decode payload_png "A" "image/jpeg" blank
    = Ret r1 w1 /\
    uploadInputImageWithDedup base64_decode payload_jpeg "B" "image/jpeg" blank
    = Ret r2 w2 /\
    uploadInputImageWithDedup base64_decode payload_png "A" "image/gif" blank
    = Ret r3 w3 /\
    stored_key r1 <> stored_key r2 /\
    stored_key r1 = stored_key r3.
Proof.
  destruct (input_keys_namespaced_by_user base64_decode payload_png
              payload_jpeg "image/jpeg" "image/jpeg" "A" "B" eq_refl
              ltac:(discriminate))
    as (_ & Hdistinct & _ & Hreturns).
  destruct (input_keys_namespaced_by_user base64_decode payload_jpeg
              payload_png "image/jpeg" "image/jpeg" "B" "A" eq_refl
              ltac:(discriminate))
    as (_ & _ & _ & Hreturns').
  destruct (input_keys_namespaced_by_user base64_decode payload_png
              payload_png "image/gif" "image/jpeg" "A" "B" eq_refl
              ltac:(discriminate))
    as (_ & _ & _ & Hagain).
  destruct (input_keys_namespaced_by_user base64_decode payload_png
              payload_png "image/jpeg" "image/gif" "A" "B" eq_refl
              ltac:(discriminate))
    as (_ & _ & Hsame & _).
  destruct (Hreturns "A" blank eq_refl) as (r1 & w1 & E1).
  destruct (Hreturns' "B" blank eq_refl) as (r2 & w2 & E2).
  destruct (Hagain "A" blank eq_refl) as (r3 & w3 & E3).
  exists r1, r2, r3, w1, w2, w3.
  split; [exact E1|]. split; [exact E2|]. split; [exact E3|].
  split.
  - exact (Hdistinct _ _ _ _ _ _ E1 E2).
  - apply (Hsame "A" _ _ _ _ _ _ E1 E3). reflexivity.
Defined.

(** The second half of C7 as the spec words it, for the same bytes
    whatever their declared type, fails: the bytes of [payload_png]
    stored for one user as a PNG and as a JPEG get two keys. *)
Lemma same_user_other_type :
  buffer (parseImageData base64_decode payload_jpeg "image/jpeg")
  = buffer (parseImageData base64_decode payload_png "image/jpeg") /\
  exists (r1 r2 : Stored) (w1 w2 : World),
    uploadInputImageWithDedup base64_decode payload_png "B" "image/jpeg" blank
    = Ret r1 w1 /\
    uploadInputImageWithDedup base64_decode payload_jpeg "B" "image/jpeg" blank
    = Ret r2 w2 /\
    stored_key r1 <> stored_key r2.
Proof.
  split; [vm_compute; reflexivity|].
  set (o1 := uploadInputImageWithDedup base64_decode payload_png "B"
               "image/jpeg" blank).
  set (o2 := uploadInputImageWithDedup base64_decode payload_jpeg "B"
               "image/jpeg" blank).
  set (d := {| stored_key := EmptyString; stored_hash := EmptyString;
               reused := true |}).
  exists (value_of d o1), (value_of d o2), (world_of o1), (world_of o2).
  split; [vm_compute; reflexivity|].
  split; [vm_compute; reflexivity|].
  apply String.eqb_neq. vm_compute. reflexivity.
Qed.

(** ** The ledger document *)

Lemma save_then_load_witness :
  exists w1 w2 : World,
    saveHistory "A" both blank = Ret true w1 /\
    bucket w1 !! getHistoryFileKey "A"
    = Some {| content := Text.utf8_encode (JSON_stringify both);
              contentType := "application/json" |} /\
    loadHistory "A" w1 = Ret both w2.
Proof.
  apply (save_then_load "A" both blank); reflexivity.
Defined.

Lemma not_in_by_id (x : HistoryItem) (l : list HistoryItem) :
  existsb (fun h => String.eqb (id h) (id x)) l = false -> ~ In x l.
Proof.
  intros H Hin. assert (E : existsb (fun h => String.eqb (id h) (id x)) l = true).
  { apply existsb_exists. exists x. split; [exact Hin | apply String.eqb_refl]. }
  congruence.
Qed.

(** 101 additions to an empty ledger. *)
Lemma addHistoryItem_prepends_and_caps_witness :
  let later := map numbered (seq 1 100) in
  exists w' w'' : World,
    addHistoryItems "A" (numbered 0 :: later) blank = Ret true w' /\
    loadHistory "A" w' = Ret (rev later) w'' /\
    length (rev later) = 100%nat /\
    ~ In (numbered 0) (rev later).
Proof.
  intros later.
  destruct (proj2 (addHistoryItem_prepends_and_caps "A")
              (numbered 0) later blank)
    as (w' & w'' & E & _ & L & N & F).
  - reflexivity.
  - vm_compute. reflexivity.
  - apply not_in_by_id. vm_compute. reflexivity.
  - split; [reflexivity|]. right. split; [reflexivity | apply lookup_empty].
  - exists w', w''. auto.
Defined.

(** ** The image route *)

(** [GET image?key=images/u1/abc.jpg] for a key that was never uploaded. *)
Lemma GET_image_responses_witness :
  exists (response : Response) (w' : World),
    GET configured {| key := Some "images/u1/abc.jpg" |} blank
    = Ret response w' /\
    status response = 404%nat /\
    payload response = JsonBody false ImageNotFound.
Proof.
  destruct (GET_image_responses configured
              {| key := Some "images/u1/abc.jpg" |} blank)
    as (_ & _ & H).
  destruct (H "images/u1/abc.jpg" eq_refl eq_refl ltac:(discriminate))
    as [Habsent _].
  destruct (Habsent (or_intror (lookup_empty _))) as (response & E & S & P).
  eauto.
Defined.

(** ** SHA-256 on the test vectors of FIPS 180-4 *)

Example sha256_abc :
  Sha256.digest_hex (Text.utf8_encode "abc")
  = "ba7816bf8f01cfea414140de5dae2223b00361a396177a9cb410ff61f20015ad".
Proof. vm_compute. reflexivity. Qed.

Example sha256_empty :
  Sha256.digest_hex []
  = "e3b0c44298fc1c149afbf4c8996fb92427ae41e4649b934ca495991b7852b855".
Proof. vm_compute. reflexivity. Qed.

Example sha256_two_blocks :
  Sha256.digest_hex
    (Text.utf8_encode
       "abcdbcdecdefdefgefghfghighijhijkijkljklmklmnlmnomnopnopq")
  = "248d6a61d20638b8e5c026930c3e6039a33ce45964ff2167f6ecedd419db06c1".
Proof. vm_compute. reflexivity. Qed.

Example sha256_constants :
  nth 0 Sha256.K 0 = 0x428a2f98 /\ nth 63 Sha256.K 0 = 0xc67178f2 /\
  Sha256.ha Sha256.H0 = 0x6a09e667 /\ Sha256.hh Sha256.H0 = 0x5be0cd19.
Proof. repeat split. Qed.

(** ** A reference image shared through [inputImageKeys] *)

(** The count of references of [deleteHistoryItem] reads [inputImageKey]
    alone: an item that has the key among its [inputImageKeys] without
    having it as its [inputImageKey] does not keep the blob. *)
Example reference_through_inputImageKeys :
  let two_images :=
    {| id := "1700000000002_ccc"; timestamp := 1700000000002;
       prompt := "two references"; mode := img2img; model := "gemini";
       imageKey := getImageKey "A" "1700000000002_ccc";
       aspectRatio := None;
       inputImageKey := Some "inputs/A/h0.jpg"; inputImageHash := Some "h0";
       inputImageKeys := Some ["inputs/A/h0.jpg"; "inputs/A/h1.jpg"];
       inputImageHashes := Some ["h0"; "h1"] |} in
  exists (b : bool) (w' : World),
    deleteHistoryItem "A" (id first_generation)
      (stored "A" [two_images; first_generation] []) = Ret b w' /\
    In (DeleteObjectCommand "inputs/A/h1.jpg") (sent w').
Proof.
  intros two_images. do 2 eexists. split.
  - vm_compute. reflexivity.
  - simpl. auto.
Qed.

(* ===================================================================== *)
(** * More of the code                                                    *)
(* ===================================================================== *)

(** ** Thumbnail keys and URLs *)

Section Thumbnails.

(** X1. For every user and image id, the thumbnail key that
    [deleteHistoryItem] derives from the key of the image is the key under
    which [uploadThumbnail] stores the thumbnail. *)
Theorem thumbnail_key_of_image_key (userId imageId : string) :
  getThumbnailKeyFromImageKey (getImageKey userId imageId)
  = getThumbnailKey userId imageId.
Proof.
  unfold getImageKey, getThumbnailKey.
  replace ("images/" +:+ userId +:+ "/" +:+ imageId +:+ ".jpg")
    with (("images/" +:+ userId +:+ "/" +:+ imageId) +:+ ".jpg")
    by (now rewrite !append_assoc).
  rewrite getThumbnailKeyFromImageKey_jpg by reflexivity.
  now rewrite !append_assoc.
Qed.

Lemma dotless_append (a b : string) :
  dotless a -> dotless b -> dotless (a +:+ b).
Proof.
  unfold dotless. induction a as [|c a IH]; simpl; intros Ha Hb; [exact Hb|].
  intros [E|Hin]; [apply Ha; now left|].
  apply IH; [|exact Hb|exact Hin]. intros H. apply Ha. now right.
Qed.

Lemma replace_first_step (p r : string) (c : ascii) (s : string) :
  Text.strip false p (String c s) = None ->
  Web.replace_first p r (String c s) = String c (Web.replace_first p r s).
Proof. intros H. simpl. now rewrite H. Qed.

Lemma replace_first_after_dotless (p r rest : string) :
  dotless p ->
  Web.replace_first ".jpg" r (p +:+ ".jpg" +:+ rest) = p +:+ r +:+ rest.
Proof.
  induction p as [|c p IH]; intros Hp; [reflexivity|].
  change (String c p +:+ ".jpg" +:+ rest)
    with (String c (p +:+ ".jpg" +:+ rest)).
  rewrite replace_first_step.
  - change (String c p +:+ r +:+ rest) with (String c (p +:+ r +:+ rest)).
    f_equal. apply IH. intros Hin. apply Hp. now right.
  - assert (Hc : Ascii.eqb "." c = false).
    { apply Ascii.eqb_neq. intros <-. apply Hp. now left. }
    cbn [Text.strip]. now rewrite Hc.
Qed.

(** X2. For a user id and an image id without a dot, the thumbnail URL
    that the listing derives from the key of the image is the URL of the
    thumbnail key; [getThumbnailUrl] replaces the first [.jpg] of the key,
    wherever it is. *)
Theorem thumbnail_url_of_image_key (env : Env) (userId imageId : string) :
  dotless userId -> dotless imageId ->
  getThumbnailUrl env (getImageKey userId imageId)
  = getImageUrl env (getThumbnailKey userId imageId) /\
  forall rest : string,
    getThumbnailUrl env (getImageKey userId imageId +:+ rest)
    = getImageUrl env (getThumbnailKey userId imageId +:+ rest).
Proof.
  intros Hu Hi.
  assert (R : forall rest,
             Web.replace_first ".jpg" "_thumb.jpg"
               (getImageKey userId imageId +:+ rest)
             = getThumbnailKey userId imageId +:+ rest).
  { intros rest. unfold getImageKey, getThumbnailKey.
    replace (("images/" +:+ userId +:+ "/" +:+ imageId +:+ ".jpg") +:+ rest)
      with (("images/" +:+ userId +:+ "/" +:+ imageId) +:+ ".jpg" +:+ rest)
      by (now rewrite !append_assoc).
    rewrite replace_first_after_dotless.
    - now rewrite !append_assoc.
    - repeat apply dotless_append; try assumption;
        intros H; simpl in H; intuition discriminate. }
  split.
  - unfold getThumbnailUrl. specialize (R EmptyString).
    rewrite !append_nil_r in R. now rewrite R.
  - intros rest. unfold getThumbnailUrl. now rewrite R.
Qed.

Lemma thumbnail_url_of_image_key_witness :
  getThumbnailUrl configured (getImageKey "a1b2c3d4e5f60718" "1700000000000_abc")
  = "/api/history/image?key=images%2Fa1b2c3d4e5f60718%2F1700000000000_abc_thumb.jpg".
Proof.
  rewrite (proj1 (thumbnail_url_of_image_key configured
                    "a1b2c3d4e5f60718" "1700000000000_abc"
                    ltac:(intros H; simpl in H; intuition discriminate)
                    ltac:(intros H; simpl in H; intuition discriminate))).
  reflexivity.
Defined.

End Thumbnails.

(** ** Data URIs and the input store *)

Section DataUris.

Variable Buffer_from_base64 : string -> list byte.

(** A string without a semicolon. *)
Definition semicolon_free (s : string) : Prop :=
  ~ In ";"%char (list_ascii_of_string s).

Lemma strip_prefix (ci : bool) (p s x : string) :
  (if ci then Text.fold_case s else s) = p ->
  Text.strip ci p (s +:+ x) = Some x.
Proof.
  revert p. induction s as [|c s IH]; intros p E.
  - destruct ci; simpl in E; subst p; reflexivity.
  - destruct p as [|a p]; [destruct ci; discriminate|].
    assert (E' : a = (if ci then Text.fold_ascii c else c)
                 /\ (if ci then Text.fold_case s else s) = p).
    { destruct ci; simpl in E; injection E as -> ->; auto. }
    destruct E' as [-> E'].
    change (String c s +:+ x) with (String c (s +:+ x)).
    cbn [Text.strip]. rewrite Ascii.eqb_refl. now apply IH.
Qed.

Lemma strip_mismatch (p s x : string) :
  String.length s = String.length p -> s <> p ->
  Text.strip false p (s +:+ x) = None.
Proof.
  revert p. induction s as [|c s IH]; intros [|a p] L Hne;
    try discriminate; [congruence|].
  change (String c s +:+ x) with (String c (s +:+ x)).
  cbn [Text.strip]. destruct (Ascii.eqb_spec a c) as [->|_]; [|reflexivity].
  apply IH; [simpl in L; lia | congruence].
Qed.

Lemma span_semicolon_free (group rest : string) :
  semicolon_free group ->
  Text.span (fun c => negb (Ascii.eqb c ";")) (group +:+ String ";" rest)
  = (group, String ";" rest).
Proof.
  induction group as [|c g IH]; intros H; [reflexivity|].
  change (String c g +:+ String ";" rest)
    with (String c (g +:+ String ";" rest)).
  cbn [Text.span].
  destruct (Ascii.eqb_spec c ";") as [->|_].
  - exfalso. apply H. now left.
  - cbn [negb]. rewrite IH; [reflexivity|].
    intros Hin. apply H. now right.
Qed.

Lemma match_data_uri_prefix (ci : bool) (scheme mime payload : string) :
  (if ci then Text.fold_case scheme else scheme) = "data:" ->
  mime <> EmptyString -> semicolon_free mime ->
  match_data_uri ci (scheme +:+ mime +:+ ";base64," +:+ payload)
  = Some (mime, payload).
Proof.
  intros Hs Hne Hfree. unfold match_data_uri.
  rewrite (strip_prefix ci "data:" scheme _ Hs).
  change (";base64," +:+ payload) with (String ";" ("base64," +:+ payload)).
  rewrite span_semicolon_free by assumption.
  apply isEmpty_false in Hne. rewrite Hne.
  change (String ";" ("base64," +:+ payload)) with (";base64," +:+ payload).
  now rewrite (strip_prefix ci ";base64," ";base64,")
    by (destruct ci; reflexivity).
Qed.

(** X3. A data URI [data:<mime>;base64,<payload>] with a non-empty MIME
    type free of semicolons is read as that MIME type and the decoded
    payload; a text that does not begin with [data:] (in any case) is
    decoded as a whole and takes the fallback MIME type. *)
Theorem parseImageData_data_uri (mime payload fallback : string) :
  mime <> EmptyString -> semicolon_free mime ->
  parseImageData Buffer_from_base64
    ("data:" +:+ mime +:+ ";base64," +:+ payload) fallback
  = {| buffer := Buffer_from_base64 payload; mimeType := mime |} /\
  forall imageData : string,
    Text.strip true "data:" imageData = None ->
    parseImageData Buffer_from_base64 imageData fallback
    = {| buffer := Buffer_from_base64 imageData; mimeType := fallback |}.
Proof.
  intros Hne Hfree. split.
  - unfold parseImageData.
    now rewrite (match_data_uri_prefix true "data:"),
                (match_data_uri_prefix false "data:").
  - intros imageData H. unfold parseImageData.
    assert (H1 : match_data_uri true imageData = None).
    { unfold match_data_uri. now rewrite H. }
    assert (H2 : match_data_uri false imageData = None).
    { unfold match_data_uri.
      destruct (Text.strip false "data:" imageData) as [r|] eqn:E;
        [|reflexivity].
      exfalso. clear -H E.
      assert (G : forall p s r, Text.strip false p s = Some r ->
                  Text.fold_case p = p -> Text.strip true p s <> None).
      { induction p as [|a p IH]; intros [|b s] r' E' F;
          simpl in *; try discriminate.
        injection F as Fa Fp.
        destruct (Ascii.eqb_spec a b) as [<-|]; [|discriminate].
        rewrite Fa, Ascii.eqb_refl. now apply (IH s r'). }
      now apply (G "data:" imageData r E). }
    now rewrite H1, H2.
Qed.

(** X4. The two readings of the prefix differ in case: a data URI whose
    [data:] is not in lower case still gives its MIME type, but its prefix
    is not taken off, so the whole text goes to the base64 decoder. *)
Theorem parseImageData_prefix_case (scheme mime payload fallback : string) :
  Text.fold_case scheme = "data:" -> scheme <> "data:" ->
  mime <> EmptyString -> semicolon_free mime ->
  let imageData := scheme +:+ mime +:+ ";base64," +:+ payload in
  parseImageData Buffer_from_base64 imageData fallback
  = {| buffer := Buffer_from_base64 imageData; mimeType := mime |}.
Proof.
  intros Hs Hne Hm Hfree imageData. unfold parseImageData.
  subst imageData.
  rewrite (match_data_uri_prefix true scheme) by assumption.
  unfold match_data_uri at 1.
  rewrite strip_mismatch; [reflexivity | | assumption].
  rewrite <- (fold_case_length scheme), Hs. reflexivity.
Qed.

(** X5. Storing a payload whose object is already in the bucket never
    changes the bucket, whatever the backend does: a served probe skips
    the upload, and after a failed probe the same bytes are put under the
    same key again. The call reports [reused] exactly when the probe was
    served. *)
Theorem upload_again_keeps_bucket (imageData userId fallback : string)
    (w : World) :
  let parsed := parseImageData Buffer_from_base64 imageData fallback in
  let k := inputImageKeyOf Buffer_from_base64 imageData userId fallback in
  bucket w !! k
  = Some {| content := buffer parsed; contentType := mimeType parsed |} ->
  match uploadInputImageWithDedup Buffer_from_base64 imageData userId
          fallback w with
  | Ret r w' => bucket w' = bucket w /\ stored_key r = k /\
                reused r = served w
  | Throw _ w' => bucket w' = bucket w
  | Stuck => False
  end.
Proof.
  intros parsed k Hk. rewrite upload_run. fold parsed k.
  unfold present. rewrite Hk, andb_true_r.
  destruct (served w) eqn:Hs.
  - repeat split.
  - destruct (fault (advance (HeadObjectCommand k) w)).
    + reflexivity.
    + repeat split. simpl. now apply insert_id.
Qed.

End DataUris.

Lemma parseImageData_data_uri_witness :
  parseImageData base64_decode "data:image/png;base64,aGVsbG8=" "image/jpeg"
  = {| buffer := base64_decode "aGVsbG8="; mimeType := "image/png" |}.
Proof.
  apply (parseImageData_data_uri base64_decode "image/png" "aGVsbG8="
           "image/jpeg").
  - discriminate.
  - intros H. simpl in H. intuition discriminate.
Defined.

Lemma parseImageData_prefix_case_witness :
  parseImageData base64_decode "DATA:image/png;base64,aGVsbG8=" "image/jpeg"
  = {| buffer := base64_decode "DATA:image/png;base64,aGVsbG8=";
       mimeType := "image/png" |}.
Proof.
  apply (parseImageData_prefix_case base64_decode "DATA:" "image/png"
           "aGVsbG8=" "image/jpeg").
  - reflexivity.
  - discriminate.
  - discriminate.
  - intros H. simpl in H. intuition discriminate.
Defined.

(** A bucket that holds the object of the sample payload, behind a
    backend that fails the next request. *)
Definition holding : World :=
  let parsed := parseImageData base64_decode payload_png "image/jpeg" in
  {| bucket :=
       {[ inputImageKeyOf base64_decode payload_png "A" "image/jpeg" :=
            {| content := buffer parsed; contentType := mimeType parsed |} ]};
     faults := [Some unavailable];
     sent := [] |}.

Lemma upload_again_keeps_bucket_witness :
  match uploadInputImageWithDedup base64_decode payload_png "A" "image/jpeg"
          holding with
  | Ret r w' =>
      bucket w' = bucket holding /\
      stored_key r = inputImageKeyOf base64_decode payload_png "A" "image/jpeg" /\
      reused r = served holding
  | Throw _ w' => bucket w' = bucket holding
  | Stuck => False
  end.
Proof.
  apply (upload_again_keeps_bucket base64_decode payload_png "A" "image/jpeg"
           holding).
  apply lookup_singleton_eq.
Defined.

(** ** The ledger under failures and in sequences *)

Section LedgerSequences.

Lemma loadHistory_corrupt (userId text : string) (o : StoredObject)
    (w : World) :
  served w = true ->
  bucket w !! getHistoryFileKey userId = Some o ->
  Text.utf8_decode (content o) = Some text ->
  Json.parse text = Json.SyntaxError ->
  loadHistory userId w
  = Ret [] (advance (GetObjectCommand (getHistoryFileKey userId)) w).
Proof.
  intros Hs Hb Hd Hp.
  unfold loadHistory, try_catch, bind, send, transformToString, JSON_parse.
  unfold served in Hs. destruct (fault w); [discriminate|].
  rewrite Hb. simpl. rewrite Hd. unfold ret at 1. rewrite Hp. reflexivity.
Qed.

(** X6. [loadHistory] never throws, and it reads as the empty history a
    request that failed, a user without a ledger document, and a document
    that is not JSON text. *)
Theorem loadHistory_fails_soft (userId : string) (w : World) :
  (forall e w', loadHistory userId w <> Throw e w') /\
  (served w = false \/ bucket w !! getHistoryFileKey userId = None ->
     loadHistory userId w
     = Ret [] (advance (GetObjectCommand (getHistoryFileKey userId)) w)) /\
  (forall (o : StoredObject) (text : string),
     served w = true ->
     bucket w !! getHistoryFileKey userId = Some o ->
     Text.utf8_decode (content o) = Some text ->
     Json.parse text = Json.SyntaxError ->
     loadHistory userId w
     = Ret [] (advance (GetObjectCommand (getHistoryFileKey userId)) w)).
Proof.
  split; [|split].
  - intros e w'. destruct (loadHistory_cases userId w) as [E|[h E]];
      rewrite E; discriminate.
  - apply loadHistory_empty.
  - intros o text. apply loadHistory_corrupt.
Qed.

(** X7. When the read of [addHistoryItem] fails and its write is served,
    the call returns [true] and the ledger document becomes the new item
    alone: whatever history the bucket held is overwritten. *)
Theorem addHistoryItem_after_failed_read (userId : string)
    (item : HistoryItem) (w : World) :
  served w = false ->
  nth 1 (faults w) None = None ->
  exists w' : World,
    addHistoryItem userId item w = Ret true w' /\
    bucket w' !! getHistoryFileKey userId
    = Some {| content := Text.utf8_encode (JSON_stringify [item]);
              contentType := "application/json" |}.
Proof.
  intros Hs Hput.
  rewrite (addHistoryItem_run _ _ _ _ _
             (loadHistory_empty userId w (or_introl Hs))).
  rewrite saveHistory_run.
  assert (S1 : served (advance (GetObjectCommand (getHistoryFileKey userId)) w)
               = true).
  { unfold served. rewrite fault_nth. cbn [faults advance].
    now rewrite nth_tail, Hput. }
  unfold after. rewrite S1.
  eexists. split; [reflexivity|]. apply perform_put.
Qed.

Lemma getHistoryFileKey_inj (u1 u2 : string) :
  getHistoryFileKey u1 = getHistoryFileKey u2 -> u1 = u2.
Proof.
  unfold getHistoryFileKey. simpl. intros [= E].
  now apply append_inv_tail in E.
Qed.

Lemma bucket_after_put_other (k k' ct : string) (b : list byte) (w : World) :
  k' <> k ->
  bucket (after (PutObjectCommand k b ct) w) !! k' = bucket w !! k'.
Proof.
  intros H. unfold after. destruct (served w); [|reflexivity].
  simpl. apply lookup_insert_ne. congruence.
Qed.

(** X8. [addHistoryItem] sends requests for the ledger of its user only:
    whenever it returns, what it sent is the read of the ledger followed
    by at most its write, the write is among them when it returns [true],
    and every other object of the bucket is as it was, the ledgers of the
    other users among them. *)
Theorem addHistoryItem_touches_only_the_ledger (userId : string)
    (item : HistoryItem) (w w' : World) (b : bool) :
  addHistoryItem userId item w = Ret b w' ->
  (exists rest : list Command,
     sent w' = sent w ++ GetObjectCommand (getHistoryFileKey userId) :: rest /\
     (rest = [] \/
      exists body, rest = [PutObjectCommand (getHistoryFileKey userId) body
                             "application/json"]) /\
     (b = true -> rest <> [])) /\
  (forall k, k <> getHistoryFileKey userId ->
             bucket w' !! k = bucket w !! k) /\
  (forall other, other <> userId ->
     bucket w' !! getHistoryFileKey other
     = bucket w !! getHistoryFileKey other).
Proof.
  intros H.
  destruct (loadHistory_cases userId w) as [E|[h E]].
  - unfold addHistoryItem, try_catch, bind in H. rewrite E in H. discriminate.
  - rewrite (addHistoryItem_run _ _ _ _ _ E), saveHistory_run in H.
    injection H as _ <-.
    assert (K : forall k, k <> getHistoryFileKey userId ->
              bucket (after (PutObjectCommand (getHistoryFileKey userId)
                        (Text.utf8_encode
                           (JSON_stringify (firstn 100 (item :: h))))
                        "application/json")
                        (advance (GetObjectCommand (getHistoryFileKey userId)) w))
              !! k = bucket w !! k).
    { intros k Hk. now rewrite bucket_after_put_other. }
    split; [|split].
    + eexists. split; [|split].
      * rewrite sent_after. cbn [sent advance].
        rewrite <- app_assoc. reflexivity.
      * right. eexists. reflexivity.
      * discriminate.
    + exact K.
    + intros other Ho. apply K. intros Heq.
      apply getHistoryFileKey_inj in Heq. contradiction.
Qed.

Lemma faults_after (c : Command) (w : World) :
  faults w = [] -> faults (after c w) = [] /\ served w = true.
Proof.
  intros H. unfold after, served, fault. rewrite H. simpl. now rewrite H.
Qed.

Lemma faults_run_all (cs : list Command) (w : World) :
  faults w = [] -> faults (run_all cs w) = [].
Proof.
  revert w. induction cs as [|c cs IH]; intros w H; [exact H|].
  unfold run_all. simpl. apply IH. now apply faults_after.
Qed.

Lemma forallb_without (id_ : string) (h : list HistoryItem) :
  forallb safe_item h = true -> forallb safe_item (without id_ h) = true.
Proof.
  rewrite !forallb_forall. intros H x Hx.
  apply without_spec in Hx as [Hx _]. now apply H.
Qed.

(** Deleting from a ledger behind a backend that serves every request. *)
Lemma deleteHistoryItem_ledger (userId id_ : string) (h : list HistoryItem)
    (w : World) :
  ledger userId h w -> forallb safe_item h = true ->
  exists w' : World,
    deleteHistoryItem userId id_ w
    = Ret (match List.find (fun x => String.eqb (id x) id_) h with
           | Some _ => true
           | None => false
           end) w' /\
    ledger userId (without id_ h) w' /\
    (List.find (fun x => String.eqb (id x) id_) h = None ->
     bucket w' = bucket w).
Proof.
  intros L Hs.
  pose proof (loadHistory_ledger _ _ _ L Hs) as Hload.
  rewrite (deleteHistoryItem_run _ _ _ _ _ Hload).
  destruct L as [Hf Hb].
  destruct (List.find _ h) as [item|] eqn:Hfind.
  - rewrite saveHistory_run.
    set (w1 := run_all _ _).
    assert (F1 : faults w1 = []).
    { apply faults_run_all. cbn [faults advance]. now rewrite Hf. }
    destruct (faults_after
                (PutObjectCommand (getHistoryFileKey userId)
                   (Text.utf8_encode (JSON_stringify (without id_ h)))
                   "application/json") w1 F1) as [F2 S1].
    rewrite S1. eexists. split; [reflexivity|]. split; [|discriminate].
    split; [exact F2|]. left. unfold after. rewrite S1. apply perform_put.
  - eexists. split; [reflexivity|]. split; [|reflexivity].
    assert (E : without id_ h = h).
    { unfold without. apply forallb_filter_id.
      apply forallb_forall. intros x Hx.
      apply (find_none _ _ Hfind) in Hx. simpl in Hx. now rewrite Hx. }
    rewrite E. split; [cbn [faults advance]; now rewrite Hf | exact Hb].
Qed.

Lemma find_without (id_ : string) (h : list HistoryItem) :
  List.find (fun x => String.eqb (id x) id_) (without id_ h) = None.
Proof.
  apply find_none_iff. intros x Hx. now apply without_spec in Hx as [_ Hx].
Qed.

(** X9. With a backend that serves every request, deleting an item of the
    ledger returns [true], after which loading gives the history without
    the items of that id, the others in their order; deleting the same id
    again returns [false] and leaves the bucket as it is. *)
Theorem deleteHistoryItem_then_again (userId id_ : string)
    (h : list HistoryItem) (item : HistoryItem) (w : World) :
  ledger userId h w -> forallb safe_item h = true ->
  List.find (fun x => String.eqb (id x) id_) h = Some item ->
  exists w1 w2 w3 : World,
    deleteHistoryItem userId id_ w = Ret true w1 /\
    loadHistory userId w1 = Ret (without id_ h) w2 /\
    deleteHistoryItem userId id_ w1 = Ret false w3 /\
    bucket w3 = bucket w1.
Proof.
  intros L Hs Hfind.
  destruct (deleteHistoryItem_ledger userId id_ h w L Hs) as (w1 & E1 & L1 & _).
  rewrite Hfind in E1.
  pose proof (forallb_without id_ h Hs) as Hs1.
  destruct (deleteHistoryItem_ledger userId id_ (without id_ h) w1 L1 Hs1)
    as (w3 & E3 & _ & B3).
  rewrite find_without in E3.
  exists w1. eexists. exists w3. split; [exact E1|].
  split; [now apply loadHistory_ledger|]. split; [exact E3|].
  apply B3, find_without.
Qed.

Lemma deleteHistoryItem_then_again_witness :
  exists w1 w2 w3 : World,
    deleteHistoryItem "A" (id first_generation) (stored "A" both []) = Ret true w1 /\
    loadHistory "A" w1 = Ret [second_generation] w2 /\
    deleteHistoryItem "A" (id first_generation) w1 = Ret false w3 /\
    bucket w3 = bucket w1.
Proof.
  apply (deleteHistoryItem_then_again "A" (id first_generation) both
           first_generation (stored "A" both [])).
  - split; [reflexivity|]. left. apply lookup_singleton_eq.
  - reflexivity.
  - reflexivity.
Defined.

Lemma in_firstn {A : Type} (n : nat) (l : list A) (x : A) :
  In x (firstn n l) -> In x l.
Proof.
  revert l. induction n as [|n IH]; intros [|y l]; simpl; try tauto.
  intros [->|H]; [now left|right; now apply IH].
Qed.

Lemma without_fresh (item : HistoryItem) (h : list HistoryItem) :
  (forall x, In x h -> id x <> id item) ->
  without (id item) (firstn 100 (item :: h)) = firstn 99 h.
Proof.
  intros H. change (firstn 100 (item :: h)) with (item :: firstn 99 h).
  unfold without. simpl. rewrite String.eqb_refl. simpl.
  apply forallb_filter_id. apply forallb_forall. intros x Hx.
  apply in_firstn in Hx. apply H in Hx.
  apply String.eqb_neq in Hx. now rewrite Hx.
Qed.

(** X10. With a backend that serves every request, adding an item whose id
    is new to the ledger and then deleting that id brings the ledger back
    to the history it held, now cut to its 99 newest items: to the same
    history when it had fewer than 100. *)
Theorem add_then_delete (userId : string) (item : HistoryItem)
    (h : list HistoryItem) (w : World) :
  ledger userId h w -> forallb safe_item h = true ->
  safe_item item = true ->
  (forall x, In x h -> id x <> id item) ->
  exists w1 w2 : World,
    addHistoryItem userId item w = Ret true w1 /\
    deleteHistoryItem userId (id item) w1 = Ret true w2 /\
    ledger userId (firstn 99 h) w2 /\
    ((length h < 100)%nat -> ledger userId h w2).
Proof.
  intros L Hs Hi Hfresh.
  destruct (addHistoryItem_ledger userId item h w L Hs) as (w1 & E1 & L1).
  assert (Hs1 : forallb safe_item (firstn 100 (item :: h)) = true).
  { apply forallb_firstn. simpl. now rewrite Hi. }
  destruct (deleteHistoryItem_ledger userId (id item) _ w1 L1 Hs1)
    as (w2 & E2 & L2 & _).
  change (firstn 100 (item :: h)) with (item :: firstn 99 h) in E2.
  simpl List.find in E2. rewrite String.eqb_refl in E2.
  rewrite without_fresh in L2 by assumption.
  exists w1, w2. split; [exact E1|]. split; [exact E2|].
  split; [exact L2|].
  intros Hl. rewrite firstn_all2 in L2 by lia. exact L2.
Qed.

Lemma add_then_delete_witness :
  exists w1 w2 : World,
    addHistoryItem "A" (numbered 7) (stored "A" both []) = Ret true w1 /\
    deleteHistoryItem "A" (id (numbered 7)) w1 = Ret true w2 /\
    ledger "A" (firstn 99 both) w2 /\
    ((length both < 100)%nat -> ledger "A" both w2).
Proof.
  apply (add_then_delete "A" (numbered 7) both (stored "A" both [])).
  - split; [reflexivity|]. left. apply lookup_singleton_eq.
  - reflexivity.
  - reflexivity.
  - intros x [<-|[<-|[]]]; discriminate.
Defined.

Definition garbled : World :=
  {| bucket := {[ getHistoryFileKey "A" :=
                    {| content := Text.utf8_encode "[{";
                       contentType := "application/json" |} ]};
     faults := []; sent := [] |}.

Lemma loadHistory_fails_soft_witness :
  loadHistory "A" garbled
  = Ret [] (advance (GetObjectCommand (getHistoryFileKey "A")) garbled).
Proof.
  apply (proj2 (proj2 (loadHistory_fails_soft "A" garbled))
           {| content := Text.utf8_encode "[{";
              contentType := "application/json" |} "[{").
  - reflexivity.
  - apply lookup_singleton_eq.
  - reflexivity.
  - reflexivity.
Defined.

Lemma addHistoryItem_after_failed_read_witness :
  exists w' : World,
    addHistoryItem "A" (numbered 7) (stored "A" both [Some unavailable])
    = Ret true w' /\
    bucket w' !! getHistoryFileKey "A"
    = Some {| content := Text.utf8_encode (JSON_stringify [numbered 7]);
              contentType := "application/json" |}.
Proof.
  apply (addHistoryItem_after_failed_read "A" (numbered 7)
           (stored "A" both [Some unavailable])); reflexivity.
Defined.

Lemma addHistoryItem_touches_only_the_ledger_witness :
  exists (w' : World) (rest : list Command),
    addHistoryItem "A" (numbered 7) (stored "B" both []) = Ret true w' /\
    sent w' = GetObjectCommand (getHistoryFileKey "A") :: rest /\
    rest <> [] /\
    bucket w' !! getHistoryFileKey "B"
    = bucket (stored "B" both []) !! getHistoryFileKey "B".
Proof.
  assert (L : ledger "A" [] (stored "B" both [])).
  { split; [reflexivity|]. right. split; [reflexivity|].
    apply lookup_singleton_ne. discriminate. }
  destruct (addHistoryItem_ledger "A" (numbered 7) [] _ L eq_refl)
    as (w' & E & _).
  destruct (addHistoryItem_touches_only_the_ledger "A" (numbered 7) _ w' true E)
    as ((rest & S & _ & N) & _ & O).
  exists w', rest. split; [exact E|]. split; [exact S|].
  split; [now apply N|]. apply O. discriminate.
Defined.

End LedgerSequences.

(** ** Storing an image and serving it back *)

Section Serving.

Variable Buffer_from_base64 : string -> list byte.

#[local] Abbreviation parse_data := (parseImageData Buffer_from_base64).
#[local] Abbreviation keep := (uploadInputImageWithDedup Buffer_from_base64).
#[local] Abbreviation key_of := (inputImageKeyOf Buffer_from_base64).
#[local] Abbreviation hash_of := (inputImageHashOf Buffer_from_base64).

(** The headers of an image answer. *)
Definition image_headers (contentType : string) : list (string * string) :=
  [("Content-Type", contentType);
   ("Cache-Control", "public, max-age=31536000, immutable")].

(** X11. When the probe of the key fails, the reference image is uploaded
    whether the bucket holds it or not: with the put served, the call
    returns the key with [reused = false] and the bucket holds the decoded
    payload under the key, with the declared type. *)
Theorem upload_after_failed_probe (imageData userId fallback : string)
    (w : World) :
  let parsed := parse_data imageData fallback in
  let k := key_of imageData userId fallback in
  served w = false ->
  nth 1 (faults w) None = None ->
  exists w' : World,
    keep imageData userId fallback w
    = Ret {| stored_key := k; stored_hash := hash_of imageData fallback;
             reused := false |} w' /\
    sent w' = sent w ++ [HeadObjectCommand k;
                         PutObjectCommand k (buffer parsed) (mimeType parsed)] /\
    bucket w' !! k = Some {| content := buffer parsed;
                             contentType := mimeType parsed |}.
Proof.
  intros parsed k Hprobe Hput.
  eexists. split; [|split].
  - rewrite upload_run. fold k parsed. rewrite Hprobe. cbn [andb].
    rewrite fault_nth. cbn [faults advance]. rewrite nth_tail, Hput.
    reflexivity.
  - simpl. now rewrite <- app_assoc.
  - apply lookup_insert_eq.
Qed.

Lemma getImageKey_extension (userId imageId : string) :
  getContentTypeFromKey (getImageKey userId imageId) = "image/jpeg".
Proof.
  unfold getContentTypeFromKey, getImageKey.
  replace ("images/" +:+ userId +:+ "/" +:+ imageId +:+ ".jpg")
    with (("images/" +:+ userId +:+ "/" +:+ imageId) +:+ String "." "jpg")
    by (now rewrite !append_assoc).
  rewrite last_piece_after_dot; [reflexivity|].
  intros [H|[H|[H|[]]]]; discriminate.
Qed.

(** X12. An image stored by [uploadImage] is served back by the image
    route, when the backend serves both requests: the answer is 200 with
    the decoded bytes, and its content type is [image/jpeg] whatever type
    the data URI declares and whatever type the caller gave. *)
Theorem uploadImage_then_served (env : Env)
    (imageData imageId userId mimeType_ : string) (w : World) :
  isR2Configured env = true ->
  served w = true ->
  nth 1 (faults w) None = None ->
  exists w1 w2 : World,
    uploadImage Buffer_from_base64 imageData imageId userId mimeType_ w
    = Ret (getImageKey userId imageId) w1 /\
    GET env {| key := Some (getImageKey userId imageId) |} w1
    = Ret (NextResponse_new (buffer (parse_data imageData mimeType_))
             (image_headers "image/jpeg")) w2.
Proof.
  intros Hc Hs Hn.
  unfold uploadImage, bind, send. unfold served in Hs.
  destruct (fault w) eqn:F; [discriminate|].
  eexists. eexists. split; [reflexivity|].
  rewrite GET_run, Hc. cbn [negb key]. 
  change (Text.isEmpty (getImageKey userId imageId)) with false. cbv iota zeta.
  unfold served. rewrite fault_nth. cbn [faults perform].
  rewrite nth_tail, Hn. cbn [bucket perform].
  rewrite lookup_insert_eq. cbn [fmap option_fmap option_map content].
  now rewrite getImageKey_extension.
Qed.

(** The content type the route gives to a stored reference image: the
    declared type when it is PNG, WebP or GIF, in any case of the letters,
    and JPEG for every other type. *)
Definition served_type (declared : string) : string :=
  let m := Text.toLowerCase declared in
  if String.eqb m "image/png" then "image/png"
  else if String.eqb m "image/webp" then "image/webp"
  else if String.eqb m "image/gif" then "image/gif"
  else "image/jpeg".

Lemma getInputImageKey_extension (userId imageHash declared : string) :
  getContentTypeFromKey
    (getInputImageKey userId imageHash (getExtensionFromMimeType declared))
  = served_type declared.
Proof.
  unfold getContentTypeFromKey, getInputImageKey, served_type.
  set (e := getExtensionFromMimeType declared).
  replace ("inputs/" +:+ userId +:+ "/" +:+ imageHash +:+ "." +:+ e)
    with (("inputs/" +:+ userId +:+ "/" +:+ imageHash) +:+ String "." e)
    by (now rewrite !append_assoc).
  assert (D : dotless e).
  { subst e. unfold getExtensionFromMimeType. cbv zeta.
    repeat match goal with
           | |- context [String.eqb ?a ?b] => destruct (String.eqb a b)
           end;
      intros H; simpl in H; now repeat destruct H as [H|H]. }
  rewrite last_piece_after_dot by exact D.
  subst e. unfold getExtensionFromMimeType. cbv zeta.
  repeat match goal with
         | |- context [String.eqb (Text.toLowerCase declared) ?b] =>
             destruct (String.eqb (Text.toLowerCase declared) b)
         end; reflexivity.
Qed.

(** X13. A reference image stored by [uploadInputImageWithDedup] is
    served back by the image route, when the backend serves the requests:
    the answer is 200 with the object under the key, which is the decoded
    payload when the call uploaded it, and its content type is the
    declared type when that is PNG, WebP or GIF and [image/jpeg]
    otherwise. *)
Theorem reference_image_served (env : Env)
    (imageData userId fallback : string) (w : World) :
  let parsed := parse_data imageData fallback in
  isR2Configured env = true ->
  faults w = [] ->
  exists (r : Stored) (w1 w2 : World) (bytes : list byte),
    keep imageData userId fallback w = Ret r w1 /\
    GET env {| key := Some (stored_key r) |} w1
    = Ret (NextResponse_new bytes
             (image_headers (served_type (mimeType parsed)))) w2 /\
    (reused r = false -> bytes = buffer parsed).
Proof.
  intros parsed Hc Hf.
  pose proof (upload_run Buffer_from_base64 imageData userId fallback w) as R.
  cbv zeta in R. fold parsed in R.
  set (k := key_of imageData userId fallback) in *.
  assert (Hk : Text.isEmpty k = false) by reflexivity.
  assert (Ht : getContentTypeFromKey k = served_type (mimeType parsed)).
  { apply getInputImageKey_extension. }
  assert (Hs : served w = true) by (unfold served, fault; now rewrite Hf).
  rewrite Hs in R. cbn [andb] in R. unfold present in R.
  destruct (bucket w !! k) as [o|] eqn:B.
  - eexists. eexists. eexists. exists (content o).
    split; [exact R|]. split; [|discriminate].
    rewrite GET_run, Hc. cbn [negb key stored_key]. rewrite Hk.
    cbv zeta. unfold served, fault. cbn [faults advance bucket].
    rewrite Hf. cbn [tail]. rewrite B. cbn [fmap option_fmap option_map].
    now rewrite Ht.
  - unfold fault in R. cbn [faults advance] in R. rewrite Hf in R.
    cbn [tail] in R.
    eexists. eexists. eexists. exists (buffer parsed).
    split; [exact R|]. split; [|reflexivity].
    rewrite GET_run, Hc. cbn [negb key stored_key]. rewrite Hk.
    cbv zeta. unfold served, fault. cbn [faults perform advance].
    rewrite Hf. cbn [tail bucket perform].
    rewrite lookup_insert_eq. cbn [fmap option_fmap option_map content].
    now rewrite Ht.
Qed.

End Serving.

Lemma upload_after_failed_probe_witness :
  exists w' : World,
    uploadInputImageWithDedup base64_decode payload_png "A" "image/jpeg"
      (stored "A" [] [Some unavailable])
    = Ret {| stored_key :=
               inputImageKeyOf base64_decode payload_png "A" "image/jpeg";
             stored_hash :=
               inputImageHashOf base64_decode payload_png "image/jpeg";
             reused := false |} w' /\
    sent w'
    = [HeadObjectCommand
         (inputImageKeyOf base64_decode payload_png "A" "image/jpeg");
       PutObjectCommand
         (inputImageKeyOf base64_decode payload_png "A" "image/jpeg")
         (buffer (parseImageData base64_decode payload_png "image/jpeg"))
         (mimeType (parseImageData base64_decode payload_png "image/jpeg"))] /\
    bucket w' !! inputImageKeyOf base64_decode payload_png "A" "image/jpeg"
    = Some {| content :=
                buffer (parseImageData base64_decode payload_png "image/jpeg");
              contentType :=
                mimeType (parseImageData base64_decode payload_png
                            "image/jpeg") |}.
Proof.
  apply (upload_after_failed_probe base64_decode payload_png "A" "image/jpeg"
           (stored "A" [] [Some unavailable])); reflexivity.
Defined.

Lemma uploadImage_then_served_witness :
  exists w1 w2 : World,
    uploadImage base64_decode payload_png "7_x" "A" "image/jpeg" blank
    = Ret (getImageKey "A" "7_x") w1 /\
    GET configured {| key := Some (getImageKey "A" "7_x") |} w1
    = Ret (NextResponse_new
             (buffer (parseImageData base64_decode payload_png "image/jpeg"))
             (image_headers "image/jpeg")) w2.
Proof.
  apply (uploadImage_then_served base64_decode configured payload_png "7_x"
           "A" "image/jpeg" blank); reflexivity.
Defined.

Lemma reference_image_served_witness :
  exists (r : Stored) (w1 w2 : World) (bytes : list byte),
    uploadInputImageWithDedup base64_decode payload_png "A" "image/jpeg" blank
    = Ret r w1 /\
    GET configured {| key := Some (stored_key r) |} w1
    = Ret (NextResponse_new bytes
             (image_headers
                (served_type
                   (mimeType (parseImageData base64_decode payload_png
                                "image/jpeg"))))) w2 /\
    (reused r = false ->
     bytes = buffer (parseImageData base64_decode payload_png "image/jpeg")).
Proof.
  apply (reference_image_served base64_decode configured payload_png "A"
           "image/jpeg" blank); reflexivity.
Defined.

(** ** The URLs of the stored objects *)

Section Urls.







(** Reading the escapes back: a left inverse of [encodeURIComponent] on
    the texts it writes. *)
Definition hex_of (c : ascii) : N :=
  let n := Text.code c in
  if n <? 58 then n - 48 else n - 55.

Fixpoint unescape (s : string) : string :=
  match s with
  | EmptyString => EmptyString
  | String c s1 =>
      if Ascii.eqb c "%" then
        match s1 with
        | String h (String l s2) =>
            let b := 16 * hex_of h + hex_of l in
            if b <? 128 then String (ascii_of_N b) (unescape s2)
            else
              match s2 with
              | String _ (String h2 (String l2 s3)) =>
                  let m := 16 * hex_of h2 + hex_of l2 in
                  String (ascii_of_N ((b - 192) * 64 + (m - 128)))
                         (unescape s3)
              | _ => EmptyString
              end
        | _ => EmptyString
        end
      else String c (unescape s1)
  end.

Lemma unescape_encode_unit (c : ascii) (k : string) :
  unescape (Web.encode_unit c k) = String c (unescape k).
Proof.
  destruct c as [[] [] [] [] [] [] [] []]; reflexivity.
Qed.

Lemma unescape_encodeURIComponent (s : string) :
  unescape (Web.encodeURIComponent s) = s.
Proof.
  induction s as [|c s IH]; [reflexivity|].
  simpl. now rewrite unescape_encode_unit, IH.
Qed.

(** X15. Two different keys never get the same URL, with a public base or
    without one. *)
Theorem getImageUrl_injective (env : Env) (k1 k2 : string) :
  k1 <> k2 -> getImageUrl env k1 <> getImageUrl env k2.
Proof.
  intros Hne H. apply Hne. revert H. unfold getImageUrl.
  destruct (negb (Text.isEmpty (R2_PUBLIC_URL env))); intros H.
  - now apply append_inv_head, append_inv_head in H.
  - apply append_inv_head in H.
    apply (f_equal unescape) in H.
    now rewrite !unescape_encodeURIComponent in H.
Qed.

Lemma getImageUrl_injective_witness :
  getImageUrl configured "inputs/A/h1.png"
  <> getImageUrl configured "inputs%2FA%2Fh1.png".
Proof.
  apply (getImageUrl_injective configured). discriminate.
Defined.

End Urls.

(** ** The history route *)

Section HistoryRouteFacts.

Import HistoryRoute.

Variable Buffer_from_base64 : string -> list byte.

#[local] Abbreviation parse_data := (parseImageData Buffer_from_base64).
#[local] Abbreviation key_of := (inputImageKeyOf Buffer_from_base64).
#[local] Abbreviation hash_of := (inputImageHashOf Buffer_from_base64).

(** The user a request is served for. *)
Definition user_of (request : Request) (GEMINI_API_KEY : string) : string :=
  getUserIdFromApiKey (apiKeyOf request GEMINI_API_KEY).

(** The id a POST gives to the record it creates. *)
Definition id_of (entropy : Entropy) : string :=
  Json.number (now entropy) (String "_" (random entropy)).

Lemma try_catch_bind {A B} (m : M A) (f : A -> M B) (h : Error -> M B)
    (a : A) (w w' : World) :
  m w = Ret a w' ->
  try_catch (x <- m ;; f x) h w = try_catch (f a) h w'.
Proof. intros H. unfold try_catch, bind. now rewrite H. Qed.

Lemma history_GET_run (env : Env) (GEMINI_API_KEY : string)
    (request : Request) (w w' : World) (history : list HistoryItem) :
  isR2Configured env = true ->
  loadHistory (user_of request GEMINI_API_KEY) w = Ret history w' ->
  GET env GEMINI_API_KEY request w
  = Ret {| status := 200; payload := Listed (map (enrich env) history) |} w'.
Proof.
  intros Hc Hl. unfold GET. rewrite Hc. cbn [negb]. cbv zeta.
  now rewrite (try_catch_bind _ _ _ _ _ _ Hl).
Qed.

(** X16. The listing does not tell an outage of the backend from an empty
    history: when the storage is configured and the read of the ledger
    fails, or the bucket has no ledger for the user, the answer is 200
    with [success: true] and an empty history. *)
Theorem history_GET_of_outage (env : Env) (GEMINI_API_KEY : string)
    (request : Request) (w : World) :
  isR2Configured env = true ->
  served w = false \/
  bucket w !! getHistoryFileKey (user_of request GEMINI_API_KEY) = None ->
  GET env GEMINI_API_KEY request w
  = Ret {| status := 200; payload := Listed [] |}
        (advance (GetObjectCommand
                    (getHistoryFileKey (user_of request GEMINI_API_KEY))) w).
Proof.
  intros Hc H.
  now rewrite (history_GET_run env _ _ _ _ [] Hc (loadHistory_empty _ _ H)).
Qed.


(** X18. The answers of [DELETE /api/history?id=...] on a ledger the
    backend serves: 400 without an id (or with an empty one), and nothing
    is sent; 500 for an id that no item of the ledger has, and the bucket
    stays as it is; 200 for the id of an item, and the ledger then holds
    the other items. *)
Theorem history_DELETE_responses (env : Env) (GEMINI_API_KEY : string)
    (request : Request) (h : list HistoryItem) (w : World) :
  let userId := user_of request GEMINI_API_KEY in
  isR2Configured env = true ->
  ledger userId h w -> forallb safe_item h = true ->
  match truthy (id_param request) with
  | None =>
      DELETE env GEMINI_API_KEY request w = Ret (refuse MissingId 400) w
  | Some id_ =>
      exists w' : World,
        ledger userId (without id_ h) w' /\
        match List.find (fun x => String.eqb (id x) id_) h with
        | Some _ =>
            DELETE env GEMINI_API_KEY request w
            = Ret {| status := 200; payload := Deleted |} w'
        | None =>
            DELETE env GEMINI_API_KEY request w
            = Ret (refuse DeleteFailed 500) w' /\
            bucket w' = bucket w
        end
  end.
Proof.
  intros userId Hc L Hs. unfold DELETE. rewrite Hc. cbn [negb]. cbv zeta.
  fold (user_of request GEMINI_API_KEY). fold userId.
  destruct (truthy (id_param request)) as [id_|]; [|reflexivity].
  destruct (deleteHistoryItem_ledger userId id_ h w L Hs) as (w' & E & L' & B).
  exists w'. split; [exact L'|].
  rewrite (try_catch_bind _ _ _ _ _ _ E).
  destruct (List.find _ h); [reflexivity|]. split; [reflexivity|].
  now apply B.
Qed.

(** X19. A POST checks its request before it stores anything: without a
    configured storage it answers 500, on a body that is not JSON it
    answers 500 with the error of the parser, and on a body without image
    data or without a prompt (or with an empty one) it answers 400; in
    the three cases nothing is sent to the backend. *)
Theorem history_POST_refusals (env : Env) (GEMINI_API_KEY : string)
    (entropy : Entropy) (request : Request) (w : World) :
  (isR2Configured env = false ->
   POST Buffer_from_base64 env GEMINI_API_KEY entropy request w
   = Ret (refuse NotConfigured 500) w) /\
  (isR2Configured env = true -> json request = None ->
   POST Buffer_from_base64 env GEMINI_API_KEY entropy request w
   = Ret (refuse (Thrown {| name := "SyntaxError" |}) 500) w) /\
  (forall body : Body.t,
     isR2Configured env = true -> json request = Some body ->
     truthy (Body.imageData body) = None \/
     truthy (Body.prompt body) = None ->
     POST Buffer_from_base64 env GEMINI_API_KEY entropy request w
     = Ret (refuse MissingParams 400) w).
Proof.
  unfold POST, request_json. split; [|split].
  - intros ->. reflexivity.
  - intros -> ->. reflexivity.
  - intros body -> -> H. cbn [negb]. cbv zeta.
    unfold try_catch, bind, ret.
    destruct H as [H|H]; rewrite H; [reflexivity|].
    now destruct (truthy (Body.imageData body)).
Qed.

Lemma uploadImage_run (imageData imageId userId mimeType_ : string)
    (w : World) :
  let put := PutObjectCommand (getImageKey userId imageId)
               (buffer (parse_data imageData mimeType_)) mimeType_ in
  uploadImage Buffer_from_base64 imageData imageId userId mimeType_ w
  = match fault w with
    | Some e => Throw e (advance put w)
    | None => Ret (getImageKey userId imageId) (perform put w)
    end.
Proof.
  unfold uploadImage, bind, send. cbv zeta. now destruct (fault w).
Qed.

(** X20. When the upload of the image fails, a POST answers 500 with the
    error of the backend after that one request: the bucket is as it was
    and the ledger is neither read nor written. *)
Theorem history_POST_upload_failure (env : Env) (GEMINI_API_KEY : string)
    (entropy : Entropy) (request : Request) (body : Body.t)
    (imageData prompt_ : string) (e : Error) (w : World) :
  isR2Configured env = true ->
  json request = Some body ->
  truthy (Body.imageData body) = Some imageData ->
  truthy (Body.prompt body) = Some prompt_ ->
  fault w = Some e ->
  exists w' : World,
    POST Buffer_from_base64 env GEMINI_API_KEY entropy request w
    = Ret (refuse (Thrown e) 500) w' /\
    bucket w' = bucket w /\
    sent w'
    = sent w ++ [PutObjectCommand
                   (getImageKey (user_of request GEMINI_API_KEY)
                      (id_of entropy))
                   (buffer (parse_data imageData "image/jpeg"))
                   "image/jpeg"].
Proof.
  intros Hc Hj Hi Hp Hf. eexists. split; [|split].
  - unfold POST, request_json. rewrite Hc, Hj. cbn [negb]. cbv zeta.
    rewrite (try_catch_bind _ _ _ body w w eq_refl).
    rewrite Hi, Hp. unfold try_catch, bind at 1.
    rewrite uploadImage_run. cbv zeta. rewrite Hf. reflexivity.
  - reflexivity.
  - reflexivity.
Qed.

(** The reference images a POST stores: those of the body, the list
    before the single one, and only in the two modes that take them. *)
Definition references_of (body : Body.t) : list string :=
  match Body.mode body with
  | Some img2img | Some outpaint =>
      match Body.inputImagesData body with
      | Some (x :: l) => x :: l
      | _ =>
          match truthy (Body.inputImageData body) with
          | Some inputImageData => [inputImageData]
          | None => []
          end
      end
  | _ => []
  end.

Definition fallback_of (body : Body.t) : string :=
  default "image/jpeg" (truthy (Body.inputImageMimeType body)).

(** The upload of the thumbnail of a record. *)
Definition thumbnail_put (userId id_ thumbnailData : string) : Command :=
  PutObjectCommand (getThumbnailKey userId id_)
    (buffer (parse_data thumbnailData "image/jpeg")) "image/jpeg".

(** The upload of the image of a record. *)
Definition image_put (userId id_ imageData : string) : Command :=
  PutObjectCommand (getImageKey userId id_)
    (buffer (parse_data imageData "image/jpeg")) "image/jpeg".

(** The world after the thumbnail of the body, if it has one, was sent. *)
Definition after_thumbnail (body : Body.t) (userId id_ : string) (w : World)
  : World :=
  match truthy (Body.thumbnailData body) with
  | Some d => after (thumbnail_put userId id_ d) w
  | None => w
  end.

(** The record of a POST, given the keys and hashes of the reference
    images that were stored. *)
Definition created (entropy : Entropy) (userId : string) (body : Body.t)
    (prompt_ : string) (keys hashes : list string) : HistoryItem :=
  {| id := id_of entropy;
     timestamp := later entropy;
     prompt := prompt_;
     mode := default text2img (Body.mode body);
     model := default "unknown" (truthy (Body.model body));
     imageKey := getImageKey userId (id_of entropy);
     aspectRatio := Body.aspectRatio body;
     inputImageKey := head keys;
     inputImageHash := head hashes;
     inputImageKeys := non_empty keys;
     inputImageHashes := non_empty hashes |}.

Definition answer (env : Env) (historyItem : HistoryItem)
    (keys : list string) : Response :=
  {| status := 200;
     payload :=
       Created {| item := historyItem;
                  imageUrl := getImageUrl env (imageKey historyItem);
                  thumbnailUrl := None;
                  inputImageUrls := map (getImageUrl env) keys |} |}.

Lemma thumbnail_step_run (body : Body.t) (userId id_ : string) (w : World) :
  match truthy (Body.thumbnailData body) with
  | Some thumbnailData =>
      try_catch
        (await uploadThumbnail Buffer_from_base64 thumbnailData id_ userId ;;
         ret tt)
        (fun err => ret tt)
  | None => ret tt
  end w
  = Ret tt (after_thumbnail body userId id_ w).
Proof.
  unfold after_thumbnail.
  destruct (truthy (Body.thumbnailData body)); [|reflexivity].
  unfold uploadThumbnail.
  unfold try_catch, bind, send, after, served, thumbnail_put, ret.
  now destruct (fault w).
Qed.

(** A POST that passed the checks and uploaded its image: the thumbnail,
    the reference images and the ledger follow, and the answer tells
    whether the ledger was saved. *)
Lemma POST_run (env : Env) (GEMINI_API_KEY : string) (entropy : Entropy)
    (request : Request) (body : Body.t) (imageData prompt_ : string)
    (w w3 : World) (kept : list string * list string) :
  let userId := user_of request GEMINI_API_KEY in
  let id_ := id_of entropy in
  let w2 := after_thumbnail body userId id_
              (perform (image_put userId id_ imageData) w) in
  let historyItem :=
    created entropy userId body prompt_ (fst kept) (snd kept) in
  isR2Configured env = true ->
  json request = Some body ->
  truthy (Body.imageData body) = Some imageData ->
  truthy (Body.prompt body) = Some prompt_ ->
  fault w = None ->
  storeInputImages Buffer_from_base64 (references_of body) userId
    (fallback_of body) w2 = Ret kept w3 ->
  POST Buffer_from_base64 env GEMINI_API_KEY entropy request w
  = match addHistoryItem userId historyItem w3 with
    | Ret b w4 =>
        Ret (if b then answer env historyItem (fst kept)
             else refuse SaveFailed 500) w4
    | Throw e w4 => Ret (refuse (Thrown e) 500) w4
    | Stuck => Stuck
    end.
Proof.
  intros userId id_ w2 historyItem Hc Hj Hi Hp Hf Hk.
  unfold POST, request_json. rewrite Hc, Hj. cbn [negb]. cbv zeta.
  rewrite (try_catch_bind _ _ _ body w w eq_refl).
  rewrite Hi, Hp.
  fold (user_of request GEMINI_API_KEY). fold userId. fold (id_of entropy).
  fold id_.
  erewrite try_catch_bind
    by (rewrite uploadImage_run; cbv zeta; rewrite Hf; reflexivity).
  erewrite try_catch_bind by apply thumbnail_step_run.
  fold (image_put userId id_ imageData). fold w2.
  erewrite try_catch_bind.
  2:{ etransitivity; [|exact Hk].
      unfold references_of, fallback_of.
      destruct (Body.mode body) as [[]|]; reflexivity. }
  unfold try_catch, bind.
  match goal with
  | |- context [addHistoryItem userId ?x w3] =>
      change (addHistoryItem userId x w3)
        with (addHistoryItem userId historyItem w3)
  end.
  destruct (addHistoryItem userId historyItem w3) as [[] w4|e w4|];
    reflexivity.
Qed.

Lemma bind_ret {A B} (m : M A) (f : A -> M B) (a : A) (w w' : World) :
  m w = Ret a w' -> (x <- m ;; f x) w = f a w'.
Proof. intros H. unfold bind. now rewrite H. Qed.

(** The keys of the images, of the reference images and of the ledgers
    are apart. *)
Lemma image_key_not_ledger (u i u' : string) :
  getImageKey u i <> getHistoryFileKey u'.
Proof. unfold getImageKey, getHistoryFileKey. simpl. discriminate. Qed.

Lemma thumbnail_key_not_ledger (u i u' : string) :
  getThumbnailKey u i <> getHistoryFileKey u'.
Proof. unfold getThumbnailKey, getHistoryFileKey. simpl. discriminate. Qed.

Lemma input_key_not_ledger (u x e u' : string) :
  getInputImageKey u x e <> getHistoryFileKey u'.
Proof. unfold getInputImageKey, getHistoryFileKey. simpl. discriminate. Qed.

Lemma image_key_not_input (u i u' x e : string) :
  getImageKey u i <> getInputImageKey u' x e.
Proof. unfold getImageKey, getInputImageKey. simpl. discriminate. Qed.

Lemma thumbnail_key_not_input (u i u' x e : string) :
  getThumbnailKey u i <> getInputImageKey u' x e.
Proof. unfold getThumbnailKey, getInputImageKey. simpl. discriminate. Qed.

Lemma image_key_not_thumbnail (u i : string) :
  getImageKey u i <> getThumbnailKey u i.
Proof.
  unfold getImageKey, getThumbnailKey. simpl. intros [= H].
  apply append_inv_head in H. simpl in H. injection H as H.
  apply append_inv_head in H. discriminate.
Qed.

Lemma upload_served (imageData userId fb : string) (w : World) :
  faults w = [] ->
  exists (r : Stored) (w1 : World),
    uploadInputImageWithDedup Buffer_from_base64 imageData userId fb w
    = Ret r w1 /\
    stored_key r = key_of imageData userId fb /\
    stored_hash r = hash_of imageData fb /\
    faults w1 = [] /\
    (forall k, k <> key_of imageData userId fb ->
               bucket w1 !! k = bucket w !! k) /\
    (forall k, is_Some (bucket w !! k) -> is_Some (bucket w1 !! k)) /\
    is_Some (bucket w1 !! key_of imageData userId fb).
Proof.
  intros Hf.
  pose proof (upload_run Buffer_from_base64 imageData userId fb w) as R.
  cbv zeta in R.
  assert (Hs : served w = true) by (unfold served, fault; now rewrite Hf).
  rewrite Hs in R. cbn [andb] in R. unfold present in R.
  set (k := key_of imageData userId fb) in *.
  destruct (bucket w !! k) as [o|] eqn:B.
  - eexists. eexists. split; [exact R|].
    cbn [stored_key stored_hash bucket faults advance]. rewrite Hf, B.
    repeat apply conj; try reflexivity; try (intros; assumption).
    now exists o.
  - unfold fault in R. cbn [faults advance] in R. rewrite Hf in R.
    cbn [tail] in R.
    eexists. eexists. split; [exact R|].
    cbn [stored_key stored_hash bucket faults perform advance]. rewrite Hf.
    repeat apply conj; try reflexivity.
    + intros k' Hk. now apply lookup_insert_ne.
    + intros k' Hk. destruct (decide (k = k')) as [<-|Hne].
      * rewrite lookup_insert_eq. now eexists.
      * now rewrite lookup_insert_ne.
    + rewrite lookup_insert_eq. now eexists.
Qed.

(** With a backend that serves every request, every reference image is
    stored, in the order of the list. *)
Lemma storeInputImages_served (images : list string) (userId fb : string) :
  forall w : World,
    faults w = [] ->
    exists w' : World,
      storeInputImages Buffer_from_base64 images userId fb w
      = Ret (map (fun d => key_of d userId fb) images,
             map (fun d => hash_of d fb) images) w' /\
      faults w' = [] /\
      (forall k, (forall d, In d images -> k <> key_of d userId fb) ->
                 bucket w' !! k = bucket w !! k) /\
      (forall k, is_Some (bucket w !! k) -> is_Some (bucket w' !! k)) /\
      (forall d, In d images ->
                 is_Some (bucket w' !! key_of d userId fb)) /\
      (images = [] -> w' = w).
Proof.
  induction images as [|d images IH]; intros w Hf.
  - exists w. repeat split; auto. intros d [].
  - destruct (upload_served d userId fb w Hf)
      as (r & w1 & E & Hk & Hh & F1 & Frame1 & Mono1 & Pres1).
    destruct (IH w1 F1) as (w' & E' & F' & Frame' & Mono' & Pres' & _).
    exists w'. split; [|split; [exact F'|split; [|split; [|split]]]].
    + cbn [storeInputImages].
      erewrite bind_ret
        by (unfold try_catch, bind; rewrite E; reflexivity).
      erewrite bind_ret by exact E'.
      cbn [fst snd map]. now rewrite Hk, Hh.
    + intros k H. rewrite Frame', Frame1; [reflexivity|..].
      * apply H. now left.
      * intros d' Hd'. apply H. now right.
    + intros k H. auto.
    + intros d' [<-|Hd']; auto.
    + discriminate.
Qed.

Lemma addHistoryItem_served (userId : string) (item : HistoryItem)
    (h : list HistoryItem) (w : World) :
  ledger userId h w -> forallb safe_item h = true ->
  addHistoryItem userId item w
  = Ret true
      (perform
         (PutObjectCommand (getHistoryFileKey userId)
            (Text.utf8_encode (JSON_stringify (firstn 100 (item :: h))))
            "application/json")
         (advance (GetObjectCommand (getHistoryFileKey userId)) w)).
Proof.
  intros L Hs.
  rewrite (addHistoryItem_run _ _ _ _ _ (loadHistory_ledger _ _ _ L Hs)).
  rewrite saveHistory_run. destruct L as [Hf _].
  unfold after, served, fault. cbn [faults advance]. now rewrite Hf.
Qed.

Lemma after_thumbnail_frame (body : Body.t) (userId id_ k : string)
    (w : World) :
  k <> getThumbnailKey userId id_ ->
  bucket (after_thumbnail body userId id_ w) !! k = bucket w !! k.
Proof.
  intros H. unfold after_thumbnail.
  destruct (truthy (Body.thumbnailData body)); [|reflexivity].
  now apply bucket_after_put_other.
Qed.

Lemma after_thumbnail_served (body : Body.t) (userId id_ : string)
    (w : World) :
  faults w = [] ->
  faults (after_thumbnail body userId id_ w) = [] /\
  forall d, truthy (Body.thumbnailData body) = Some d ->
            bucket (after_thumbnail body userId id_ w)
              !! getThumbnailKey userId id_
            = Some {| content := buffer (parse_data d "image/jpeg");
                      contentType := "image/jpeg" |}.
Proof.
  intros Hf. unfold after_thumbnail.
  destruct (truthy (Body.thumbnailData body)) as [d|].
  - destruct (faults_after (thumbnail_put userId id_ d) w Hf) as [F S].
    split; [exact F|]. intros d' [= <-]. unfold after. rewrite S.
    apply lookup_insert_eq.
  - split; [exact Hf | discriminate].
Qed.

(** The document of a history. *)
Definition document (h : list HistoryItem) : StoredObject :=
  {| content := Text.utf8_encode (JSON_stringify h);
     contentType := "application/json" |}.

Definition ledger_put (userId : string) (h : list HistoryItem) : Command :=
  PutObjectCommand (getHistoryFileKey userId)
    (Text.utf8_encode (JSON_stringify h)) "application/json".

(** A POST on a ledger the backend serves, from the thumbnail on. *)
Lemma POST_served (env : Env) (GEMINI_API_KEY : string) (entropy : Entropy)
    (request : Request) (body : Body.t) (imageData prompt_ : string)
    (h : list HistoryItem) (w : World) :
  let userId := user_of request GEMINI_API_KEY in
  let id_ := id_of entropy in
  let fb := fallback_of body in
  let keys := map (fun d => key_of d userId fb) (references_of body) in
  let hashes := map (fun d => hash_of d fb) (references_of body) in
  let historyItem := created entropy userId body prompt_ keys hashes in
  let w2 := after_thumbnail body userId id_
              (perform (image_put userId id_ imageData) w) in
  isR2Configured env = true ->
  json request = Some body ->
  truthy (Body.imageData body) = Some imageData ->
  truthy (Body.prompt body) = Some prompt_ ->
  fault w = None ->
  faults w2 = [] ->
  (bucket w !! getHistoryFileKey userId = Some (document h) \/
   (h = [] /\ bucket w !! getHistoryFileKey userId = None)) ->
  forallb safe_item h = true ->
  exists w3 : World,
    POST Buffer_from_base64 env GEMINI_API_KEY entropy request w
    = Ret (answer env historyItem keys)
          (perform (ledger_put userId (firstn 100 (historyItem :: h)))
             (advance (GetObjectCommand (getHistoryFileKey userId)) w3)) /\
    faults w3 = [] /\
    (forall k, (forall d, In d (references_of body) ->
                          k <> key_of d userId fb) ->
               bucket w3 !! k = bucket w2 !! k) /\
    (forall k, is_Some (bucket w2 !! k) -> is_Some (bucket w3 !! k)) /\
    (forall d, In d (references_of body) ->
               is_Some (bucket w3 !! key_of d userId fb)) /\
    (references_of body = [] -> w3 = w2).
Proof.
  intros userId id_ fb keys hashes historyItem w2 Hc Hj Hi Hp Hf Hf2 Hb Hs.
  destruct (storeInputImages_served (references_of body) userId fb w2 Hf2)
    as (w3 & E & F3 & Frame & Mono & Pres & Nil).
  exists w3. split; [|auto 6].
  assert (L : ledger userId h w3).
  { split; [exact F3|].
    assert (B : bucket w3 !! getHistoryFileKey userId
                = bucket w !! getHistoryFileKey userId).
    { rewrite Frame.
      - subst w2. rewrite after_thumbnail_frame.
        + cbn [bucket perform image_put]. apply lookup_insert_ne.
          apply image_key_not_ledger.
        + intros H. symmetry in H. now apply thumbnail_key_not_ledger in H.
      - intros d _ H. symmetry in H. now apply input_key_not_ledger in H. }
    rewrite B. exact Hb. }
  rewrite (POST_run env GEMINI_API_KEY entropy request body imageData prompt_
             w w3 (keys, hashes) Hc Hj Hi Hp Hf E).
  cbn [fst snd]. fold userId. fold historyItem.
  now rewrite (addHistoryItem_served userId historyItem h w3 L Hs).
Qed.

Lemma ledger_served (userId : string) (h : list HistoryItem)
    (body : Body.t) (id_ : string) (c : Command) (w : World) :
  ledger userId h w ->
  fault w = None /\
  faults (after_thumbnail body userId id_ (perform c w)) = [] /\
  (bucket w !! getHistoryFileKey userId = Some (document h) \/
   (h = [] /\ bucket w !! getHistoryFileKey userId = None)).
Proof.
  intros [Hf Hb]. split; [unfold fault; now rewrite Hf|]. split; [|exact Hb].
  apply after_thumbnail_served. cbn [faults perform]. now rewrite Hf.
Qed.

Lemma ledger_after_save (userId : string) (h : list HistoryItem)
    (w : World) :
  faults w = [] ->
  ledger userId h
    (perform (ledger_put userId h)
       (advance (GetObjectCommand (getHistoryFileKey userId)) w)).
Proof.
  intros Hf. split.
  - cbn [faults perform advance]. now rewrite Hf.
  - left. apply lookup_insert_eq.
Qed.

Lemma image_after_save (userId id_ imageData : string) (body : Body.t)
    (c : Command) (hist : list HistoryItem) (w w3 : World) :
  let w2 := after_thumbnail body userId id_
              (perform (image_put userId id_ imageData) w) in
  (forall k, (forall d, In d (references_of body) ->
                        k <> key_of d userId (fallback_of body)) ->
             bucket w3 !! k = bucket w2 !! k) ->
  bucket (perform (ledger_put userId hist)
            (advance c w3)) !! getImageKey userId id_
  = Some {| content := buffer (parse_data imageData "image/jpeg");
            contentType := "image/jpeg" |}.
Proof.
  intros w2 Frame. cbn [bucket perform advance ledger_put].
  rewrite lookup_insert_ne
    by (intros H; symmetry in H; now apply image_key_not_ledger in H).
  rewrite Frame by (intros d _; apply image_key_not_input).
  subst w2. rewrite after_thumbnail_frame by apply image_key_not_thumbnail.
  apply lookup_insert_eq.
Qed.

(** X21. A POST in the mode [img2img] or [outpaint] with a list of
    reference images, on a ledger the backend serves: every image of the
    list is stored under its content key, the record lists these keys and
    their hashes in the order of the list and has the first ones as
    [inputImageKey] and [inputImageHash]; the image is stored as
    [image/jpeg] under the key of the new id, the record is the first of
    the ledger, which keeps 100 items, and the answer is 200 with the
    record and its URLs. *)
Theorem history_POST_with_references (env : Env) (GEMINI_API_KEY : string)
    (entropy : Entropy) (request : Request) (body : Body.t)
    (imageData prompt_ : string) (images : list string)
    (h : list HistoryItem) (w : World) :
  let userId := user_of request GEMINI_API_KEY in
  let id_ := id_of entropy in
  let keys := map (fun d => key_of d userId (fallback_of body)) images in
  let hashes := map (fun d => hash_of d (fallback_of body)) images in
  isR2Configured env = true ->
  json request = Some body ->
  truthy (Body.imageData body) = Some imageData ->
  truthy (Body.prompt body) = Some prompt_ ->
  Body.mode body = Some img2img \/ Body.mode body = Some outpaint ->
  Body.inputImagesData body = Some images ->
  images <> [] ->
  ledger userId h w -> forallb safe_item h = true ->
  exists (historyItem : HistoryItem) (w' : World),
    POST Buffer_from_base64 env GEMINI_API_KEY entropy request w
    = Ret {| status := 200;
             payload :=
               Created {| item := historyItem;
                          imageUrl := getImageUrl env (getImageKey userId id_);
                          thumbnailUrl := None;
                          inputImageUrls := map (getImageUrl env) keys |} |}
          w' /\
    id historyItem = id_ /\
    imageKey historyItem = getImageKey userId id_ /\
    inputImageKeys historyItem = Some keys /\
    inputImageKey historyItem = head keys /\
    inputImageHashes historyItem = Some hashes /\
    inputImageHash historyItem = head hashes /\
    ledger userId (firstn 100 (historyItem :: h)) w' /\
    bucket w' !! getImageKey userId id_
    = Some {| content := buffer (parse_data imageData "image/jpeg");
              contentType := "image/jpeg" |} /\
    (forall d, In d images ->
               is_Some (bucket w' !! key_of d userId (fallback_of body))).
Proof.
  intros userId id_ keys hashes Hc Hj Hi Hp Hm Hl Hne L Hs.
  assert (Hr : references_of body = images).
  { unfold references_of. rewrite Hl.
    destruct Hm as [->| ->]; now destruct images. }
  destruct (ledger_served userId h body id_
              (image_put userId id_ imageData) w L) as (Hf & Hf2 & Hb).
  destruct (POST_served env GEMINI_API_KEY entropy request body imageData
              prompt_ h w Hc Hj Hi Hp Hf Hf2 Hb Hs)
    as (w3 & E & F3 & Frame & _ & Pres & _).
  rewrite Hr in E, Pres. fold userId id_ keys hashes in E.
  eexists. eexists. split; [exact E|].
  cbn [created id imageKey inputImageKeys inputImageKey inputImageHashes
       inputImageHash].
  split; [reflexivity|]. split; [reflexivity|].
  split; [subst keys; now destruct images|]. split; [reflexivity|].
  split; [subst hashes; now destruct images|]. split; [reflexivity|].
  split; [now apply ledger_after_save|]. split.
  - now apply (image_after_save userId id_ imageData body _ _ w w3).
  - intros d Hd. cbn [bucket perform advance ledger_put].
    rewrite lookup_insert_ne; [now apply Pres|].
    intros H. symmetry in H. now apply input_key_not_ledger in H.
Qed.

Lemma sent_after_thumbnail (body : Body.t) (userId id_ : string)
    (w : World) :
  sent (after_thumbnail body userId id_ w)
  = sent w ++ match truthy (Body.thumbnailData body) with
              | Some d => [thumbnail_put userId id_ d]
              | None => []
              end.
Proof.
  unfold after_thumbnail.
  destruct (truthy (Body.thumbnailData body)).
  - apply sent_after.
  - now rewrite app_nil_r.
Qed.

(** X22. A POST in the mode [text2img], or without a mode, takes no
    reference image, whatever the body holds of them: on a ledger the
    backend serves, the record has neither keys nor hashes of reference
    images, and the requests are the upload of the image, that of the
    thumbnail if the body has one, and the read and the write of the
    ledger. *)
Theorem history_POST_without_references (env : Env)
    (GEMINI_API_KEY : string) (entropy : Entropy) (request : Request)
    (body : Body.t) (imageData prompt_ : string)
    (h : list HistoryItem) (w : World) :
  let userId := user_of request GEMINI_API_KEY in
  let id_ := id_of entropy in
  isR2Configured env = true ->
  json request = Some body ->
  truthy (Body.imageData body) = Some imageData ->
  truthy (Body.prompt body) = Some prompt_ ->
  Body.mode body = Some text2img \/ Body.mode body = None ->
  ledger userId h w -> forallb safe_item h = true ->
  exists (historyItem : HistoryItem) (w' : World),
    POST Buffer_from_base64 env GEMINI_API_KEY entropy request w
    = Ret {| status := 200;
             payload :=
               Created {| item := historyItem;
                          imageUrl := getImageUrl env (getImageKey userId id_);
                          thumbnailUrl := None;
                          inputImageUrls := [] |} |} w' /\
    mode historyItem = text2img /\
    inputImageKey historyItem = None /\
    inputImageHash historyItem = None /\
    inputImageKeys historyItem = None /\
    inputImageHashes historyItem = None /\
    sent w'
    = sent w
      ++ image_put userId id_ imageData
         :: match truthy (Body.thumbnailData body) with
            | Some d => [thumbnail_put userId id_ d]
            | None => []
            end
      ++ [GetObjectCommand (getHistoryFileKey userId);
          ledger_put userId (firstn 100 (historyItem :: h))].
Proof.
  intros userId id_ Hc Hj Hi Hp Hm L Hs.
  assert (Hr : references_of body = []).
  { unfold references_of. now destruct Hm as [->| ->]. }
  destruct (ledger_served userId h body id_
              (image_put userId id_ imageData) w L) as (Hf & Hf2 & Hb).
  destruct (POST_served env GEMINI_API_KEY entropy request body imageData
              prompt_ h w Hc Hj Hi Hp Hf Hf2 Hb Hs)
    as (w3 & E & _ & _ & _ & _ & Nil).
  rewrite (Nil Hr) in E. rewrite Hr in E. cbn [map] in E.
  fold userId id_ in E.
  eexists. eexists. split; [exact E|].
  cbn [created mode inputImageKey inputImageHash inputImageKeys
       inputImageHashes head non_empty].
  split; [now destruct Hm as [->| ->]|].
  do 4 (split; [reflexivity|]).
  cbn [sent perform advance]. rewrite sent_after_thumbnail.
  cbn [sent perform]. rewrite <- !app_assoc. reflexivity.
Qed.

Lemma allInputKeys_created (entropy : Entropy) (userId : string)
    (body : Body.t) (prompt_ : string) (keys hashes : list string) :
  allInputKeys (created entropy userId body prompt_ keys hashes) = keys.
Proof. unfold allInputKeys. now destruct keys. Qed.

Lemma safe_after_created (item : HistoryItem) (h : list HistoryItem) :
  safe_item item = true -> forallb safe_item h = true ->
  forallb safe_item (firstn 100 (item :: h)) = true.
Proof.
  intros Hi Hs. apply forallb_firstn. simpl. now rewrite Hi.
Qed.

(** X23. After a POST on a ledger the backend serves, the listing of the
    same caller has the new record first, with the URLs of the answer to
    the POST and the URL of its thumbnail, before the 99 newest of the
    records the ledger had. *)
Theorem history_POST_then_GET (env : Env) (GEMINI_API_KEY : string)
    (entropy : Entropy) (request : Request) (body : Body.t)
    (imageData prompt_ : string) (h : list HistoryItem) (w : World) :
  isR2Configured env = true ->
  json request = Some body ->
  truthy (Body.imageData body) = Some imageData ->
  truthy (Body.prompt body) = Some prompt_ ->
  ledger (user_of request GEMINI_API_KEY) h w ->
  forallb safe_item h = true ->
  (Z.abs (later entropy) <=? Json.MAX_SAFE_INTEGER)%Z = true ->
  exists (fresh : Enriched) (w1 w2 : World),
    POST Buffer_from_base64 env GEMINI_API_KEY entropy request w
    = Ret {| status := 200; payload := Created fresh |} w1 /\
    GET env GEMINI_API_KEY request w1
    = Ret {| status := 200;
             payload :=
               Listed
                 ({| item := item fresh;
                     imageUrl := imageUrl fresh;
                     thumbnailUrl :=
                       Some (getThumbnailUrl env (imageKey (item fresh)));
                     inputImageUrls := inputImageUrls fresh |}
                  :: map (enrich env) (firstn 99 h)) |} w2.
Proof.
  intros Hc Hj Hi Hp L Hs Hlater.
  set (userId := user_of request GEMINI_API_KEY) in *.
  destruct (ledger_served userId h body (id_of entropy)
              (image_put userId (id_of entropy) imageData) w L)
    as (Hf & Hf2 & Hb).
  destruct (POST_served env GEMINI_API_KEY entropy request body imageData
              prompt_ h w Hc Hj Hi Hp Hf Hf2 Hb Hs)
    as (w3 & E & F3 & _).
  fold userId in E.
  eexists. eexists. eexists. split; [exact E|].
  erewrite history_GET_run; [|exact Hc|].
  2:{ apply loadHistory_ledger.
      - now apply ledger_after_save.
      - now apply safe_after_created. }
  cbn [firstn map answer payload item imageUrl inputImageUrls].
  unfold enrich at 1. now rewrite allInputKeys_created.
Qed.






(** X25. A thumbnail that cannot be uploaded does not fail the POST: when
    the backend serves every request but that upload, the answer is 200,
    the image is stored, the record is the first of the ledger, and the
    bucket has under the key of the thumbnail what it had before. *)
Theorem history_POST_thumbnail_failure (env : Env) (GEMINI_API_KEY : string)
    (entropy : Entropy) (request : Request) (body : Body.t)
    (imageData prompt_ thumbnailData : string) (e : Error)
    (h : list HistoryItem) (w : World) :
  let userId := user_of request GEMINI_API_KEY in
  let id_ := id_of entropy in
  isR2Configured env = true ->
  json request = Some body ->
  truthy (Body.imageData body) = Some imageData ->
  truthy (Body.prompt body) = Some prompt_ ->
  truthy (Body.thumbnailData body) = Some thumbnailData ->
  ledger userId h w -> forallb safe_item h = true ->
  exists (fresh : Enriched) (w' : World),
    POST Buffer_from_base64 env GEMINI_API_KEY entropy request
      {| bucket := bucket w; faults := [None; Some e]; sent := sent w |}
    = Ret {| status := 200; payload := Created fresh |} w' /\
    ledger userId (firstn 100 (item fresh :: h)) w' /\
    bucket w' !! getImageKey userId id_
    = Some {| content := buffer (parse_data imageData "image/jpeg");
              contentType := "image/jpeg" |} /\
    bucket w' !! getThumbnailKey userId id_
    = bucket w !! getThumbnailKey userId id_.
Proof.
  intros userId id_ Hc Hj Hi Hp Ht [_ Hb] Hs.
  set (w0 := {| bucket := bucket w; faults := [None; Some e];
                sent := sent w |}).
  assert (Hf2 : faults (after_thumbnail body userId id_
                          (perform (image_put userId id_ imageData) w0)) = []).
  { unfold after_thumbnail. rewrite Ht. reflexivity. }
  destruct (POST_served env GEMINI_API_KEY entropy request body imageData
              prompt_ h w0 Hc Hj Hi Hp eq_refl Hf2 Hb Hs)
    as (w3 & E & F3 & Frame & _).
  fold userId id_ in E, Frame.
  eexists. eexists. split; [exact E|].
  cbn [answer item]. split; [now apply ledger_after_save|]. split.
  - apply (image_after_save userId id_ imageData body _ _ w0 w3 Frame).
  - cbn [bucket perform advance ledger_put].
    rewrite lookup_insert_ne
      by (intros H; symmetry in H; now apply thumbnail_key_not_ledger in H).
    rewrite Frame by (intros d _; apply thumbnail_key_not_input).
    unfold after_thumbnail. rewrite Ht.
    change (bucket (after _ _)) with
      (<[getImageKey userId id_ :=
           {| content := buffer (parse_data imageData "image/jpeg");
              contentType := "image/jpeg" |}]> (bucket w)).
    apply lookup_insert_ne. apply image_key_not_thumbnail.
Qed.

(** X26. A POST does not take back what it stored when the ledger cannot
    be written: without thumbnail and without reference images, when the
    upload of the image is served and the write of the ledger fails, every
    answer of the POST is 500 for a failed save, and the bucket is the one
    before the POST with the image added. *)
Theorem history_POST_save_failure (env : Env) (GEMINI_API_KEY : string)
    (entropy : Entropy) (request : Request) (body : Body.t)
    (imageData prompt_ : string) (e : Error) (w w' : World)
    (response : Response) :
  let userId := user_of request GEMINI_API_KEY in
  let id_ := id_of entropy in
  isR2Configured env = true ->
  json request = Some body ->
  truthy (Body.imageData body) = Some imageData ->
  truthy (Body.prompt body) = Some prompt_ ->
  truthy (Body.thumbnailData body) = None ->
  Body.mode body = Some text2img \/ Body.mode body = None ->
  fault w = None ->
  nth 2 (faults w) None = Some e ->
  POST Buffer_from_base64 env GEMINI_API_KEY entropy request w
  = Ret response w' ->
  response = refuse SaveFailed 500 /\
  bucket w'
  = <[getImageKey userId id_ :=
        {| content := buffer (parse_data imageData "image/jpeg");
           contentType := "image/jpeg" |}]> (bucket w).
Proof.
  intros userId id_ Hc Hj Hi Hp Ht Hm Hf Hn H.
  assert (Hr : references_of body = []).
  { unfold references_of. now destruct Hm as [->| ->]. }
  set (w1 := perform (image_put userId id_ imageData) w).
  assert (Hk : storeInputImages Buffer_from_base64 (references_of body) userId
                 (fallback_of body)
                 (after_thumbnail body userId id_ w1) = Ret ([], []) w1).
  { rewrite Hr. unfold after_thumbnail. now rewrite Ht. }
  rewrite (POST_run env GEMINI_API_KEY entropy request body imageData prompt_
             w w1 ([], []) Hc Hj Hi Hp Hf Hk) in H.
  cbn [fst snd] in H. fold userId in H.
  set (historyItem := created entropy userId body prompt_ [] []) in H.
  destruct (loadHistory_cases userId w1) as [E|[h0 E]].
  - unfold addHistoryItem, try_catch, bind in H. rewrite E in H.
    discriminate.
  - rewrite (addHistoryItem_run _ _ _ _ _ E), saveHistory_run in H.
    assert (S : served (advance (GetObjectCommand (getHistoryFileKey userId))
                          w1) = false).
    { unfold served. rewrite fault_nth. cbn [faults advance perform w1].
      now rewrite !nth_tail, Hn. }
    unfold after in H. rewrite S in H. injection H as <- <-.
    split; reflexivity.
Qed.

Lemma in_substring (c : ascii) (n : nat) (s : string) :
  In c (list_ascii_of_string (String.substring 0 n s)) ->
  In c (list_ascii_of_string s).
Proof.
  revert n. induction s as [|a s IH]; intros [|n]; simpl; intros H;
    try contradiction.
  destruct H as [H|H]; [now left | right; eauto].
Qed.

Lemma dotless_getUserIdFromApiKey (apiKey : string) :
  dotless (getUserIdFromApiKey apiKey).
Proof.
  unfold getUserIdFromApiKey.
  destruct (Text.isEmpty apiKey).
  - intros H. simpl in H. now repeat destruct H as [H|H].
  - intros H. apply in_substring in H.
    pose proof (digest_hex_is_hex (Text.utf8_encode apiKey)) as X.
    unfold is_hex_string in X. rewrite List.Forall_forall in X.
    apply X in H. discriminate.
Qed.

Lemma dotless_digits (d : Decimal.uint) (k : string) :
  dotless k -> dotless (Json.digits d k).
Proof.
  intros Hk. induction d; simpl; [exact Hk|..];
    (intros [H|H]; [discriminate | now apply IHd]).
Qed.

Lemma dotless_id_of (entropy : Entropy) :
  dotless (random entropy) -> dotless (id_of entropy).
Proof.
  intros H. unfold id_of.
  assert (K : dotless (String "_" (random entropy))).
  { intros [E|E]; [discriminate | now apply H]. }
  unfold Json.number. destruct (now entropy).
  - now apply dotless_digits.
  - now apply dotless_digits.
  - intros [E|E]; [discriminate|]. revert E. now apply dotless_digits.
Qed.

(** X27. The thumbnail URL that the listing gives for a record of a POST
    is the URL of the key under which the POST stores the thumbnail: for
    every caller and every clock, as long as the random part of the id
    has no dot (the digits of base 36 have none). *)
Theorem history_thumbnail_url (env : Env) (GEMINI_API_KEY : string)
    (request : Request) (entropy : Entropy) :
  dotless (random entropy) ->
  getThumbnailUrl env
    (getImageKey (user_of request GEMINI_API_KEY) (id_of entropy))
  = getImageUrl env
      (getThumbnailKey (user_of request GEMINI_API_KEY) (id_of entropy)).
Proof.
  intros H. unfold getThumbnailUrl, getImageKey, getThumbnailKey. f_equal.
  set (u := user_of request GEMINI_API_KEY). set (i := id_of entropy).
  replace ("images/" +:+ u +:+ "/" +:+ i +:+ ".jpg")
    with (("images/" +:+ u +:+ "/" +:+ i) +:+ ".jpg" +:+ EmptyString)
    by (now rewrite !append_assoc).
  rewrite replace_first_after_dotless.
  - now rewrite !append_assoc.
  - repeat apply dotless_append.
    + intros X. simpl in X. now repeat destruct X as [X|X].
    + apply dotless_getUserIdFromApiKey.
    + intros X. simpl in X. now repeat destruct X as [X|X].
    + now apply dotless_id_of.
Qed.

(** The keys of a user: the ledger, and what is under the directories of
    the images and of the reference images of the user. *)
Definition owned (userId k : string) : Prop :=
  k = getHistoryFileKey userId \/
  (exists name, k = "images/" +:+ userId +:+ "/" +:+ name) \/
  (exists name, k = "inputs/" +:+ userId +:+ "/" +:+ name).

(** Whatever the backend does, the loop over the reference images ends,
    and it touches their keys only. *)
Lemma storeInputImages_frame (images : list string) (userId fb : string) :
  forall w : World,
    exists (kept : list string * list string) (w' : World),
      storeInputImages Buffer_from_base64 images userId fb w = Ret kept w' /\
      forall k, (forall d, In d images -> k <> key_of d userId fb) ->
                bucket w' !! k = bucket w !! k.
Proof.
  induction images as [|d images IH]; intros w.
  - exists ([], []), w. split; [reflexivity | auto].
  - pose proof (upload_run Buffer_from_base64 d userId fb w) as R.
    cbv zeta in R.
    set (k0 := key_of d userId fb) in *.
    assert (Step : exists (o : option Stored) (w1 : World),
               try_catch
                 (r <- uploadInputImageWithDedup Buffer_from_base64 d userId
                         fb ;;
                  ret (Some r))
                 (fun err => ret None) w = Ret o w1 /\
               forall k, k <> k0 -> bucket w1 !! k = bucket w !! k).
    { unfold try_catch, bind. rewrite R.
      destruct (served w && present k0 w).
      - eexists. eexists. split; [reflexivity|]. reflexivity.
      - destruct (fault _).
        + eexists. eexists. split; [reflexivity|]. reflexivity.
        + eexists. eexists. split; [reflexivity|].
          intros k Hk. cbn [bucket perform advance].
          now apply lookup_insert_ne. }
    destruct Step as (o & w1 & E1 & Frame1).
    destruct (IH w1) as (kept & w' & E' & Frame').
    eexists. exists w'. split.
    + cbn [storeInputImages].
      erewrite bind_ret by exact E1. erewrite bind_ret by exact E'.
      reflexivity.
    + intros k H. rewrite Frame', Frame1; [reflexivity|..].
      * apply H. now left.
      * intros d' Hd'. apply H. now right.
Qed.

(** X28. Whatever the backend does, a POST that answers has changed
    nothing outside the keys of its caller: the ledger of the caller and
    what is under the caller's two directories. The ledgers of the other
    users are as they were. *)
Theorem history_POST_isolation (env : Env) (GEMINI_API_KEY : string)
    (entropy : Entropy) (request : Request) (w w' : World)
    (response : Response) :
  let userId := user_of request GEMINI_API_KEY in
  POST Buffer_from_base64 env GEMINI_API_KEY entropy request w
  = Ret response w' ->
  (forall k, ~ owned userId k -> bucket w' !! k = bucket w !! k) /\
  (forall other, other <> userId ->
     bucket w' !! getHistoryFileKey other
     = bucket w !! getHistoryFileKey other).
Proof.
  intros userId H.
  assert (Main : forall k, ~ owned userId k ->
                           bucket w' !! k = bucket w !! k).
  { intros k Hk.
    assert (K1 : forall i, k <> getImageKey userId i).
    { intros i E. apply Hk. right. left. exists (i +:+ ".jpg"). exact E. }
    assert (K2 : forall i, k <> getThumbnailKey userId i).
    { intros i E. apply Hk. right. left. exists (i +:+ "_thumb.jpg").
      exact E. }
    assert (K3 : forall x e, k <> getInputImageKey userId x e).
    { intros x e E. apply Hk. right. right. exists (x +:+ "." +:+ e).
      exact E. }
    assert (K4 : k <> getHistoryFileKey userId).
    { intros E. apply Hk. now left. }
    destruct (isR2Configured env) eqn:Hc.
    2:{ unfold POST in H. rewrite Hc in H. now injection H as _ <-. }
    destruct (json request) as [body|] eqn:Hj.
    2:{ unfold POST, request_json in H. rewrite Hc, Hj in H.
        now injection H as _ <-. }
    destruct (truthy (Body.imageData body)) as [imageData|] eqn:Hi.
    2:{ unfold POST, request_json in H. rewrite Hc, Hj in H.
        cbn [negb] in H. cbv zeta in H.
        rewrite (try_catch_bind _ _ _ body w w eq_refl) in H.
        rewrite Hi in H. now injection H as _ <-. }
    destruct (truthy (Body.prompt body)) as [prompt_|] eqn:Hp.
    2:{ unfold POST, request_json in H. rewrite Hc, Hj in H.
        cbn [negb] in H. cbv zeta in H.
        rewrite (try_catch_bind _ _ _ body w w eq_refl) in H.
        rewrite Hi, Hp in H. now injection H as _ <-. }
    destruct (fault w) as [e|] eqn:Hf.
    { unfold POST, request_json in H. rewrite Hc, Hj in H.
      cbn [negb] in H. cbv zeta in H.
      rewrite (try_catch_bind _ _ _ body w w eq_refl) in H.
      rewrite Hi, Hp in H. unfold try_catch, bind at 1 in H.
      rewrite uploadImage_run in H. cbv zeta in H. rewrite Hf in H.
      now injection H as _ <-. }
    set (w2 := after_thumbnail body userId (id_of entropy)
                 (perform (image_put userId (id_of entropy) imageData) w)).
    destruct (storeInputImages_frame (references_of body) userId
                (fallback_of body) w2) as (kept & w3 & E & Frame).
    rewrite (POST_run env GEMINI_API_KEY entropy request body imageData
               prompt_ w w3 kept Hc Hj Hi Hp Hf E) in H.
    fold userId in H.
    set (historyItem := created _ _ _ _ _ _) in H.
    assert (B3 : bucket w3 !! k = bucket w !! k).
    { rewrite Frame by (intros d _; apply K3).
      subst w2. rewrite after_thumbnail_frame by apply K2.
      cbn [bucket perform image_put]. apply lookup_insert_ne.
      intros E'. now apply (K1 (id_of entropy)). }
    destruct (loadHistory_cases userId w3) as [L|[h0 L]].
    - unfold addHistoryItem, try_catch, bind in H. rewrite L in H.
      discriminate.
    - rewrite (addHistoryItem_run _ _ _ _ _ L), saveHistory_run in H.
      injection H as _ <-.
      now rewrite bucket_after_put_other. }
  split; [exact Main|].
  intros other Ho. apply Main. intros [E|[[name E]|[name E]]].
  - now apply getHistoryFileKey_inj in E.
  - unfold getHistoryFileKey in E. simpl in E. discriminate.
  - unfold getHistoryFileKey in E. simpl in E. discriminate.
Qed.

End HistoryRouteFacts.

(** *** The history route at work *)

(** A caller without API key, on a server without [GEMINI_API_KEY]. *)
Definition keyless : HistoryRoute.Request :=
  {| HistoryRoute.x_api_key := None; HistoryRoute.id_param := None;
     HistoryRoute.json := None |}.

Definition sample_entropy : HistoryRoute.Entropy :=
  {| HistoryRoute.now := 1700000000002; HistoryRoute.random := "k3j9x1a";
     HistoryRoute.later := 1700000000003 |}.

(** A body with an image, one reference image and, if given, a mode and a
    thumbnail. *)
Definition sample_body (mode_ : option Mode) (thumbnail : option string)
  : HistoryRoute.Body.t :=
  {| HistoryRoute.Body.imageData := Some payload_png;
     HistoryRoute.Body.thumbnailData := thumbnail;
     HistoryRoute.Body.inputImageData := None;
     HistoryRoute.Body.inputImageMimeType := None;
     HistoryRoute.Body.inputImagesData := Some [payload_png];
     HistoryRoute.Body.prompt := Some "a cat, in oil";
     HistoryRoute.Body.mode := mode_;
     HistoryRoute.Body.model := Some "gemini";
     HistoryRoute.Body.aspectRatio := Some "1:1" |}.

Definition posting (mode_ : option Mode) (thumbnail : option string)
  : HistoryRoute.Request :=
  {| HistoryRoute.x_api_key := None; HistoryRoute.id_param := None;
     HistoryRoute.json := Some (sample_body mode_ thumbnail) |}.

Definition deleting (id_ : string) : HistoryRoute.Request :=
  {| HistoryRoute.x_api_key := None; HistoryRoute.id_param := Some id_;
     HistoryRoute.json := None |}.

#[local] Abbreviation anonymous_ledger :=
  ltac:(split; [reflexivity | left; apply lookup_singleton_eq])
  (only parsing).

Lemma history_GET_of_outage_witness :
  HistoryRoute.GET configured EmptyString keyless
    (stored "anonymous" both [Some unavailable])
  = Ret {| HistoryRoute.status := 200;
           HistoryRoute.payload := HistoryRoute.Listed [] |}
        (advance (GetObjectCommand
                    (getHistoryFileKey (user_of keyless EmptyString)))
           (stored "anonymous" both [Some unavailable])).
Proof.
  apply (history_GET_of_outage configured EmptyString keyless
           (stored "anonymous" both [Some unavailable])).
  - reflexivity.
  - left. reflexivity.
Defined.


Lemma history_DELETE_responses_witness :
  exists w' : World,
    ledger "anonymous" [second_generation] w' /\
    HistoryRoute.DELETE configured EmptyString
      (deleting (id first_generation)) (stored "anonymous" both [])
    = Ret {| HistoryRoute.status := 200;
             HistoryRoute.payload := HistoryRoute.Deleted |} w'.
Proof.
  exact (history_DELETE_responses configured EmptyString
           (deleting (id first_generation)) both (stored "anonymous" both [])
           eq_refl anonymous_ledger eq_refl).
Defined.

Lemma history_POST_refusals_witness :
  HistoryRoute.POST base64_decode configured EmptyString sample_entropy
    keyless blank
  = Ret (HistoryRoute.refuse
           (HistoryRoute.Thrown {| name := "SyntaxError" |}) 500) blank.
Proof.
  apply (proj1 (proj2 (history_POST_refusals base64_decode configured
                         EmptyString sample_entropy keyless blank)));
    reflexivity.
Defined.

Lemma history_POST_upload_failure_witness :
  exists w' : World,
    HistoryRoute.POST base64_decode configured EmptyString sample_entropy
      (posting (Some img2img) None)
      (stored "anonymous" both [Some unavailable])
    = Ret (HistoryRoute.refuse (HistoryRoute.Thrown unavailable) 500) w' /\
    bucket w' = bucket (stored "anonymous" both [Some unavailable]).
Proof.
  destruct (history_POST_upload_failure base64_decode configured EmptyString
              sample_entropy (posting (Some img2img) None)
              (sample_body (Some img2img) None) payload_png "a cat, in oil"
              unavailable (stored "anonymous" both [Some unavailable])
              eq_refl eq_refl eq_refl eq_refl eq_refl)
    as (w' & E & B & _).
  exists w'. split; [exact E | exact B].
Defined.

Lemma history_POST_with_references_witness :
  exists (historyItem : HistoryItem) (w' : World),
    inputImageKeys historyItem
    = Some [inputImageKeyOf base64_decode payload_png "anonymous"
              "image/jpeg"] /\
    ledger "anonymous" [historyItem; second_generation; first_generation] w'.
Proof.
  destruct (history_POST_with_references base64_decode configured EmptyString
              sample_entropy (posting (Some img2img) None)
              (sample_body (Some img2img) None) payload_png "a cat, in oil"
              [payload_png] both (stored "anonymous" both [])
              eq_refl eq_refl eq_refl eq_refl (or_introl eq_refl) eq_refl
              ltac:(discriminate) anonymous_ledger eq_refl)
    as (historyItem & w' & _ & _ & _ & K & _ & _ & _ & L & _).
  exists historyItem, w'. split; [exact K | exact L].
Defined.

Lemma history_POST_without_references_witness :
  exists (historyItem : HistoryItem) (w' : World),
    inputImageKeys historyItem = None /\
    length (sent w') = 3%nat.
Proof.
  destruct (history_POST_without_references base64_decode configured
              EmptyString sample_entropy (posting (Some text2img) None)
              (sample_body (Some text2img) None) payload_png "a cat, in oil"
              both (stored "anonymous" both [])
              eq_refl eq_refl eq_refl eq_refl (or_introl eq_refl)
              anonymous_ledger eq_refl)
    as (historyItem & w' & _ & _ & _ & _ & K & _ & S).
  exists historyItem, w'. split; [exact K|]. now rewrite S.
Defined.

Lemma history_POST_then_GET_witness :
  exists (fresh : HistoryRoute.Enriched) (w1 w2 : World),
    HistoryRoute.POST base64_decode configured EmptyString sample_entropy
      (posting (Some img2img) None) (stored "anonymous" both [])
    = Ret {| HistoryRoute.status := 200;
             HistoryRoute.payload := HistoryRoute.Created fresh |} w1 /\
    HistoryRoute.GET configured EmptyString (posting (Some img2img) None) w1
    = Ret {| HistoryRoute.status := 200;
             HistoryRoute.payload :=
               HistoryRoute.Listed
                 ({| HistoryRoute.item := HistoryRoute.item fresh;
                     HistoryRoute.imageUrl := HistoryRoute.imageUrl fresh;
                     HistoryRoute.thumbnailUrl :=
                       Some (getThumbnailUrl configured
                               (imageKey (HistoryRoute.item fresh)));
                     HistoryRoute.inputImageUrls :=
                       HistoryRoute.inputImageUrls fresh |}
                  :: map (HistoryRoute.enrich configured) both) |} w2.
Proof.
  exact (history_POST_then_GET base64_decode configured EmptyString
           sample_entropy (posting (Some img2img) None)
           (sample_body (Some img2img) None) payload_png "a cat, in oil"
           both (stored "anonymous" both [])
           eq_refl eq_refl eq_refl eq_refl anonymous_ledger
           eq_refl eq_refl).
Defined.


Lemma history_POST_thumbnail_failure_witness :
  exists (fresh : HistoryRoute.Enriched) (w' : World),
    HistoryRoute.POST base64_decode configured EmptyString sample_entropy
      (posting (Some text2img) (Some payload_png))
      (stored "anonymous" both [None; Some unavailable])
    = Ret {| HistoryRoute.status := 200;
             HistoryRoute.payload := HistoryRoute.Created fresh |} w' /\
    bucket w' !! getThumbnailKey "anonymous" (id_of sample_entropy) = None.
Proof.
  destruct (history_POST_thumbnail_failure base64_decode configured
              EmptyString sample_entropy
              (posting (Some text2img) (Some payload_png))
              (sample_body (Some text2img) (Some payload_png)) payload_png
              "a cat, in oil" payload_png unavailable both
              (stored "anonymous" both [])
              eq_refl eq_refl eq_refl eq_refl eq_refl
              anonymous_ledger eq_refl)
    as (fresh & w' & E & _ & _ & T).
  exists fresh, w'. split; [exact E|].
  etransitivity; [exact T|]. apply lookup_singleton_ne. discriminate.
Defined.

(** A backend that serves two requests and fails the third. *)
Definition failing_third : World :=
  {| bucket := ∅; faults := [None; None; Some unavailable]; sent := [] |}.

Lemma history_POST_save_failure_witness :
  exists (response : HistoryRoute.Response) (w' : World),
    HistoryRoute.POST base64_decode configured EmptyString sample_entropy
      (posting (Some text2img) None) failing_third
    = Ret response w' /\
    response = HistoryRoute.refuse HistoryRoute.SaveFailed 500 /\
    bucket w'
    = <[getImageKey "anonymous" (id_of sample_entropy) :=
          {| content :=
               buffer (parseImageData base64_decode payload_png "image/jpeg");
             contentType := "image/jpeg" |}]> ∅.
Proof.
  eexists. eexists. split; [reflexivity|].
  apply (history_POST_save_failure base64_decode configured EmptyString
           sample_entropy (posting (Some text2img) None)
           (sample_body (Some text2img) None) payload_png "a cat, in oil"
           unavailable failing_third); try reflexivity.
  now left.
Defined.

Lemma history_thumbnail_url_witness :
  getThumbnailUrl configured
    (getImageKey (user_of keyless EmptyString) (id_of sample_entropy))
  = getImageUrl configured
      (getThumbnailKey (user_of keyless EmptyString) (id_of sample_entropy)).
Proof.
  apply (history_thumbnail_url configured EmptyString keyless sample_entropy).
  intros H. simpl in H. intuition discriminate.
Defined.

Lemma history_POST_isolation_witness :
  exists (response : HistoryRoute.Response) (w' : World),
    HistoryRoute.POST base64_decode configured EmptyString sample_entropy
      (posting (Some text2img) None) failing_third
    = Ret response w' /\
    (forall k, ~ owned "anonymous" k ->
               bucket w' !! k = bucket failing_third !! k) /\
    (forall other, other <> "anonymous" ->
       bucket w' !! getHistoryFileKey other
       = bucket failing_third !! getHistoryFileKey other).
Proof.
  eexists. eexists. split; [reflexivity|].
  eapply (history_POST_isolation base64_decode configured EmptyString
            sample_entropy (posting (Some text2img) None) failing_third).
  reflexivity.
Defined.

(** ** References that the deletion does not count *)

(** A POST of the caller without API key, in the mode [img2img], with the
    given reference images. *)
Definition referencing (images : list string) : HistoryRoute.Request :=
  {| HistoryRoute.x_api_key := None; HistoryRoute.id_param := None;
     HistoryRoute.json :=
       Some {| HistoryRoute.Body.imageData := Some payload_png;
               HistoryRoute.Body.thumbnailData := None;
               HistoryRoute.Body.inputImageData := None;
               HistoryRoute.Body.inputImageMimeType := None;
               HistoryRoute.Body.inputImagesData := Some images;
               HistoryRoute.Body.prompt := Some "a cat, in oil";
               HistoryRoute.Body.mode := Some img2img;
               HistoryRoute.Body.model := Some "gemini";
               HistoryRoute.Body.aspectRatio := None |} |}.

Definition first_clock : HistoryRoute.Entropy :=
  {| HistoryRoute.now := 1; HistoryRoute.random := "a";
     HistoryRoute.later := 1 |}.

Definition second_clock : HistoryRoute.Entropy :=
  {| HistoryRoute.now := 2; HistoryRoute.random := "b";
     HistoryRoute.later := 2 |}.

(** Another reference image. *)
Definition payload_other : string := "data:image/png;base64,aGVsbG8=".

(** The key of [payload_png] as a reference image of the caller. *)
Definition shared_key : string :=
  inputImageKeyOf base64_decode payload_png "anonymous" "image/jpeg".

(** C1. The deletion counts a reference through [inputImageKey] alone, so
    it takes away a reference image that a remaining record still lists.
    One caller posts a record [1_a] with two reference images, the second
    of them [payload_png], then a record [2_b] with [payload_png] alone,
    then deletes [2_b]: the three requests are answered 200, and after
    them the bucket has nothing under the key of [payload_png], while the
    ledger holds the record [1_a], which lists that key among its
    reference images. *)
Theorem deleteHistoryItem_ignores_inputImageKeys :
  exists (r1 r2 : HistoryRoute.Response) (w1 w2 w3 w4 : World)
         (kept : HistoryItem),
    HistoryRoute.POST base64_decode configured EmptyString first_clock
      (referencing [payload_other; payload_png]) blank = Ret r1 w1 /\
    HistoryRoute.POST base64_decode configured EmptyString second_clock
      (referencing [payload_png]) w1 = Ret r2 w2 /\
    HistoryRoute.status r1 = 200%nat /\ HistoryRoute.status r2 = 200%nat /\
    present shared_key w2 = true /\
    HistoryRoute.DELETE configured EmptyString (deleting "2_b") w2
    = Ret {| HistoryRoute.status := 200;
             HistoryRoute.payload := HistoryRoute.Deleted |} w3 /\
    loadHistory "anonymous" w3 = Ret [kept] w4 /\
    id kept = "1_a" /\
    inputImageKeys kept
    = Some [inputImageKeyOf base64_decode payload_other "anonymous"
              "image/jpeg"; shared_key] /\
    In shared_key (HistoryRoute.allInputKeys kept) /\
    present shared_key w3 = false.
Proof.
  set (o1 := HistoryRoute.POST base64_decode configured EmptyString
               first_clock (referencing [payload_other; payload_png]) blank).
  set (o2 := HistoryRoute.POST base64_decode configured EmptyString
               second_clock (referencing [payload_png]) (world_of o1)).
  set (o3 := HistoryRoute.DELETE configured EmptyString (deleting "2_b")
               (world_of o2)).
  set (o4 := loadHistory "anonymous" (world_of o3)).
  set (d := HistoryRoute.refuse HistoryRoute.NotConfigured 0).
  exists (value_of d o1), (value_of d o2).
  exists (world_of o1), (world_of o2), (world_of o3), (world_of o4).
  exists (hd (numbered 0) (value_of [] o4)).
  split; [vm_compute; reflexivity|].
  split; [vm_compute; reflexivity|].
  split; [vm_compute; reflexivity|]. split; [vm_compute; reflexivity|].
  split; [vm_compute; reflexivity|].
  split; [vm_compute; reflexivity|].
  split; [vm_compute; reflexivity|].
  split; [vm_compute; reflexivity|].
  split; [vm_compute; reflexivity|].
  split; [|vm_compute; reflexivity].
  vm_compute. right. left. reflexivity.
Qed.
